(** * libusb core: asynchronous transfer engine and device/handle lifecycle

    A shallow embedding of [libusb/io.c] (in-flight scheduler, completion and
    cancellation handlers, timeout sweep, event loop) and of the core file
    (device reference counts, claimed-interface bitmap), with the properties
    stated in the design document proved over it.

    Conventions.
    - C objects reached through pointers ([struct usbi_transfer],
      [struct libusb_device]) live in a heap indexed by addresses; the
      intrusive lists ([flying_transfers], [usb_devs]) are lists of addresses.
    - Everything the library does to the outside world (backend calls, user
      callbacks, [select], [clock_gettime], [free]) is appended to an event
      log; the answers of the outside world come from an [environment].
    - [int] is 32 bits wide; arithmetic that can leave its range is written
      with the wrap-around made explicit. *)

From Stdlib Require Import ZArith List Bool Lia Sorted.
From stdpp Require Import base decidable option list gmap.
Import ListNotations.

Local Open Scope Z_scope.

(* ===================================================================== *)
(** * Machine integers *)

Module CInt.

Definition int_bits : Z := 32.

(** Conversion to [int] (two's complement wrap-around). *)
Definition to_int (z : Z) : Z :=
  (z + 2 ^ 31) mod 2 ^ 32 - 2 ^ 31.

(** Conversion to an unsigned type of [w] bits. *)
Definition to_unsigned (w z : Z) : Z := z mod 2 ^ w.

(** A C truth value: [flags & FLAG] used as a condition. *)
Definition test (flags flag : Z) : bool := negb (Z.land flags flag =? 0).

(** [flags |= FLAG] *)
Definition set (flags flag : Z) : Z := Z.lor flags flag.

(** [flags &= ~FLAG] *)
Definition clear (flags flag : Z) : Z := Z.land flags (Z.lnot flag).

End CInt.

(* ===================================================================== *)
(** * <sys/time.h> *)

Record timeval := mk_timeval { tv_sec : Z; tv_usec : Z }.
Record timespec := mk_timespec { ts_sec : Z; ts_nsec : Z }.

#[global] Instance timeval_eq_dec : EqDecision timeval.
Proof. solve_decision. Defined.

Definition timerisset (tv : timeval) : bool :=
  negb (tv_sec tv =? 0) || negb (tv_usec tv =? 0).

Definition timerclear : timeval := mk_timeval 0 0.

(** [timercmp(a, b, <)] *)
Definition timercmp_lt (a b : timeval) : bool :=
  if tv_sec a =? tv_sec b then tv_usec a <? tv_usec b
  else tv_sec a <? tv_sec b.

(** [timercmp(a, b, >=)] *)
Definition timercmp_ge (a b : timeval) : bool :=
  if tv_sec a =? tv_sec b then tv_usec a >=? tv_usec b
  else tv_sec a >=? tv_sec b.

(** [timersub(a, b, result)] *)
Definition timersub (a b : timeval) : timeval :=
  let sec := tv_sec a - tv_sec b in
  let usec := tv_usec a - tv_usec b in
  if usec <? 0 then mk_timeval (sec - 1) (usec + 1000000)
  else mk_timeval sec usec.

Definition TIMESPEC_TO_TIMEVAL (ts : timespec) : timeval :=
  mk_timeval (ts_sec ts) (Z.quot (ts_nsec ts) 1000).

(** The test written out twice in io.c (insertion and sweep):
    [a->tv_sec > b->tv_sec || (a->tv_sec == b->tv_sec && a->tv_usec > b->tv_usec)]. *)
Definition tv_after (a b : timeval) : bool :=
  (tv_sec a >? tv_sec b) || ((tv_sec a =? tv_sec b) && (tv_usec a >? tv_usec b)).

(** Elapsed microseconds denoted by a timeval: the true time order. *)
Definition tv_micros (tv : timeval) : Z := tv_sec tv * 1000000 + tv_usec tv.

Definition tv_normalized (tv : timeval) : Prop := 0 <= tv_usec tv < 1000000.
Definition ts_normalized (ts : timespec) : Prop := 0 <= ts_nsec ts < 1000000000.

(* ===================================================================== *)
(** * Constants of the headers

    [libusb.h] and [libusbi.h] are not part of the sources at hand, and
    neither are the system headers; the constants the two C files use are
    parameters of the development, constrained only by what the code relies
    on: flags are non-zero and flags of one field do not overlap, and error
    codes are negative. *)

Class libusb_headers := {
  (** engine flags, [struct usbi_transfer].flags *)
  USBI_TRANSFER_SYNC_CANCELLED : Z;
  USBI_TRANSFER_TIMED_OUT : Z;
  (** user flags, [struct libusb_transfer].flags *)
  LIBUSB_TRANSFER_SHORT_NOT_OK : Z;
  LIBUSB_TRANSFER_FREE_BUFFER : Z;
  LIBUSB_TRANSFER_FREE_TRANSFER : Z;
  (** error codes *)
  LIBUSB_ERROR_INVALID_PARAM : Z;
  LIBUSB_ERROR_NOT_FOUND : Z;
  (** <errno.h>, <poll.h> *)
  EINTR : Z;
  POLLIN : Z;
  POLLOUT : Z;
  (** width in bits of [size_t] and of the type of
      [struct libusb_device_handle].claimed_interfaces *)
  size_t_bits : Z;
  claimed_interfaces_bits : Z;

  SYNC_CANCELLED_nonzero : USBI_TRANSFER_SYNC_CANCELLED <> 0;
  TIMED_OUT_nonzero : USBI_TRANSFER_TIMED_OUT <> 0;
  usbi_flags_disjoint :
    Z.land USBI_TRANSFER_SYNC_CANCELLED USBI_TRANSFER_TIMED_OUT = 0;
  INVALID_PARAM_negative : LIBUSB_ERROR_INVALID_PARAM < 0;
  NOT_FOUND_negative : LIBUSB_ERROR_NOT_FOUND < 0;
  size_t_bits_range : 32 <= size_t_bits;
  claimed_interfaces_bits_range : 32 <= claimed_interfaces_bits <= 64
}.

(** Modelled from the spec: the control setup header is an "8-byte
    little-endian block prefixing the control data buffer";
    [LIBUSB_CONTROL_SETUP_SIZE] is [sizeof(struct libusb_control_setup)],
    whose declaration is in the absent [libusb.h]. *)
Definition LIBUSB_CONTROL_SETUP_SIZE : Z := 8.

(** Modelled from the spec: the transfer-status codes "COMPLETED, ERROR,
    TIMED_OUT, CANCELLED, STALL, NO_DEVICE, OVERFLOW, plus the internal
    SILENT_COMPLETION sentinel"; the enum is declared in the absent headers. *)
Inductive libusb_transfer_status :=
  | LIBUSB_TRANSFER_COMPLETED
  | LIBUSB_TRANSFER_ERROR
  | LIBUSB_TRANSFER_TIMED_OUT
  | LIBUSB_TRANSFER_CANCELLED
  | LIBUSB_TRANSFER_STALL
  | LIBUSB_TRANSFER_NO_DEVICE
  | LIBUSB_TRANSFER_OVERFLOW
  | LIBUSB_TRANSFER_SILENT_COMPLETION.

#[global] Instance libusb_transfer_status_eq_dec : EqDecision libusb_transfer_status.
Proof. solve_decision. Defined.

(** Modelled from the spec: "endpoint type
    (control/bulk/interrupt/isochronous)". *)
Inductive libusb_endpoint_type :=
  | LIBUSB_ENDPOINT_TYPE_CONTROL
  | LIBUSB_ENDPOINT_TYPE_ISOCHRONOUS
  | LIBUSB_ENDPOINT_TYPE_BULK
  | LIBUSB_ENDPOINT_TYPE_INTERRUPT.

#[global] Instance libusb_endpoint_type_eq_dec : EqDecision libusb_endpoint_type.
Proof. solve_decision. Defined.

(* ===================================================================== *)
(** * Transfers *)

(** [struct usbi_transfer] with its embedded public part [pub]
    ([struct libusb_transfer]); the fields the two files read or write.
    [pub_callback] tells whether the callback pointer is non-NULL. *)
Record usbi_transfer := mk_transfer {
  pub_flags : Z;
  pub_endpoint_type : libusb_endpoint_type;
  pub_timeout : Z;                      (* unsigned int, milliseconds *)
  pub_length : Z;
  pub_status : libusb_transfer_status;
  pub_actual_length : Z;
  pub_callback : bool;
  timeout : timeval;                    (* absolute deadline *)
  transferred : Z;
  flags : Z
}.

Definition set_status (s : libusb_transfer_status) (t : usbi_transfer) :=
  mk_transfer (pub_flags t) (pub_endpoint_type t) (pub_timeout t) (pub_length t)
    s (pub_actual_length t) (pub_callback t) (timeout t) (transferred t) (flags t).

Definition set_actual_length (n : Z) (t : usbi_transfer) :=
  mk_transfer (pub_flags t) (pub_endpoint_type t) (pub_timeout t) (pub_length t)
    (pub_status t) n (pub_callback t) (timeout t) (transferred t) (flags t).

Definition set_timeout (tv : timeval) (t : usbi_transfer) :=
  mk_transfer (pub_flags t) (pub_endpoint_type t) (pub_timeout t) (pub_length t)
    (pub_status t) (pub_actual_length t) (pub_callback t) tv (transferred t) (flags t).

Definition set_transferred (n : Z) (t : usbi_transfer) :=
  mk_transfer (pub_flags t) (pub_endpoint_type t) (pub_timeout t) (pub_length t)
    (pub_status t) (pub_actual_length t) (pub_callback t) (timeout t) n (flags t).

Definition set_flags (f : Z) (t : usbi_transfer) :=
  mk_transfer (pub_flags t) (pub_endpoint_type t) (pub_timeout t) (pub_length t)
    (pub_status t) (pub_actual_length t) (pub_callback t) (timeout t) (transferred t) f.

(** [__init_transfer]: [memset(transfer, 0, sizeof( *transfer))]. *)
Definition __init_transfer : usbi_transfer :=
  mk_transfer 0 LIBUSB_ENDPOINT_TYPE_CONTROL 0 0 LIBUSB_TRANSFER_COMPLETED 0
    false timerclear 0 0.

#[global] Instance usbi_transfer_eq_dec : EqDecision usbi_transfer.
Proof. solve_decision. Defined.

Record libusb_pollfd := mk_pollfd { fd : Z; events : Z }.

(** What the library does to the outside world, in order. *)
Inductive event :=
  | EvClock
  | EvSubmit (p : nat)                          (* usbi_backend->submit_transfer *)
  | EvCancel (p : nat)                          (* usbi_backend->cancel_transfer *)
  | EvSelect (nfds : Z) (rd wr : option (gset Z)) (tv : timeval)
  | EvHandleEvents (rd wr : option (gset Z))    (* usbi_backend->handle_events *)
  | EvCallback (p : nat) (status : libusb_transfer_status) (actual_length : Z)
  | EvFreeBuffer (p : nat)                      (* free(transfer->buffer) *)
  | EvFree (p : nat).                           (* free(itransfer) *)

#[global] Instance event_eq_dec : EqDecision event.
Proof. solve_decision. Defined.

(** The globals of io.c and the transfers they point to. *)
Record io_state := mk_io {
  heap : gmap nat usbi_transfer;
  flying_transfers : list nat;
  pollfds : list libusb_pollfd;
  trace : list event
}.

(** Reading through a pointer. An address that holds no transfer reads as
    a zeroed one; statements that depend on the transfer being there say
    so. *)
Definition deref (st : io_state) (p : nat) : usbi_transfer :=
  default __init_transfer (heap st !! p).

Definition store (p : nat) (t : usbi_transfer) (st : io_state) : io_state :=
  mk_io (<[p := t]> (heap st)) (flying_transfers st) (pollfds st) (trace st).

Definition emit (e : event) (st : io_state) : io_state :=
  mk_io (heap st) (flying_transfers st) (pollfds st) (trace st ++ [e]).

Definition set_flying (l : list nat) (st : io_state) : io_state :=
  mk_io (heap st) l (pollfds st) (trace st).

(** [usbi_io_init] *)
Definition usbi_io_init (st : io_state) : io_state :=
  mk_io (heap st) [] [] (trace st).

(** What a backend does to the core while it handles events. The Linux
    backend is not among the sources.
    Modelled from the spec: "Removal: O(1) delink on completion or
    cancellation", and the backend "calls core helpers ...
    handle_transfer_completion, handle_transfer_cancellation"; the engine view
    of a transfer holds the "bytes transferred" the backend observed. *)
Inductive backend_action :=
  | BA_transferred (p : nat) (n : Z)
  | BA_list_del (p : nat)
  | BA_completion (p : nat) (status : libusb_transfer_status)
  | BA_cancellation (p : nat).

(** The outside world: the monotonic clock, [select], and the backend. Each
    answer may depend on everything that happened so far. The backend's
    cancel is asynchronous (it only requests; the outcome arrives later
    through [handle_events]). *)
Class environment := {
  clock_gettime : io_state -> Z * timespec;
  select : io_state -> Z -> option (gset Z) -> option (gset Z) -> timeval ->
           Z * Z * (gset Z * gset Z * timeval);
  backend_submit_transfer : io_state -> nat -> Z;
  backend_cancel_transfer : io_state -> nat -> Z;
  backend_handle_events :
    io_state -> option (gset Z) -> option (gset Z) -> list backend_action * Z;
  (** the contents of an automatic variable that was never assigned *)
  indeterminate_timeval : io_state -> timeval
}.

(* ===================================================================== *)
(** * libusb/io.c *)

Section Io.
Context {hdr : libusb_headers} {env : environment}.

(** Lines 73-79 of [calculate_timeout]: the deadline arithmetic on the
    clock reading. [timeout] is an [unsigned int]; the product
    [(timeout % 1000) * 1000000] stays below 2^32. *)
Definition add_timeout (current_time : timespec) (timeout : Z) : timespec :=
  let sec := ts_sec current_time + timeout / 1000 in
  let nsec := ts_nsec current_time + (timeout mod 1000) * 1000000 in
  if nsec >? 1000000000 then mk_timespec (sec + 1) (nsec - 1000000000)
  else mk_timespec sec nsec.

Definition calculate_timeout (p : nat) (st : io_state) : Z * io_state :=
  let timeout := pub_timeout (deref st p) in
  if timeout =? 0 then (0, st)
  else
    let '(r, current_time) := clock_gettime st in
    let st := emit EvClock st in
    if r <? 0 then (r, st)
    else
      let current_time := add_timeout current_time timeout in
      (0, store p (set_timeout (TIMESPEC_TO_TIMEVAL current_time) (deref st p)) st).

(** The [list_for_each_entry] loop of [add_to_flying_list] and the
    [list_add_tail] after it. *)
Fixpoint insert_by_timeout (st : io_state) (p : nat) (tv : timeval)
    (l : list nat) : list nat :=
  match l with
  | [] => [p]
  | cur :: rest =>
      let cur_tv := timeout (deref st cur) in
      if negb (timerisset cur_tv)
         || (tv_sec cur_tv >? tv_sec tv)
         || ((tv_sec cur_tv =? tv_sec tv)
             && (tv_usec cur_tv >? tv_usec tv))
      then p :: cur :: rest
      else cur :: insert_by_timeout st p tv rest
  end.

Definition add_to_flying_list (p : nat) (st : io_state) : io_state :=
  let timeout := timeout (deref st p) in
  match flying_transfers st with
  | [] => set_flying [p] st
  | _ =>
      if negb (timerisset timeout) then
        set_flying (flying_transfers st ++ [p]) st
      else
        set_flying (insert_by_timeout st p timeout (flying_transfers st)) st
  end.

(** [list_del(&transfer->list)] *)
Fixpoint list_del (p : nat) (l : list nat) : list nat :=
  match l with
  | [] => []
  | q :: rest => if decide (q = p) then rest else q :: list_del p rest
  end.

Definition submit_transfer (p : nat) (st : io_state) : Z * io_state :=
  let r := backend_submit_transfer st p in
  let st := emit (EvSubmit p) st in
  if r <? 0 then (r, st)
  else (0, add_to_flying_list p st).

(** The setup header of a control transfer is normalised in the user's
    buffer, which is not part of the model. *)
Definition libusb_submit_transfer (p : nat) (st : io_state) : Z * io_state :=
  let st := store p (set_transferred 0 (deref st p)) st in
  let '(r, st) := calculate_timeout p st in
  if r <? 0 then (r, st)
  else submit_transfer p st.

Definition libusb_cancel_transfer (p : nat) (st : io_state) : Z * io_state :=
  let r := backend_cancel_transfer st p in
  (r, emit (EvCancel p) st).

Definition libusb_free_transfer (p : nat) (st : io_state) : io_state :=
  let st :=
    if CInt.test (pub_flags (deref st p)) LIBUSB_TRANSFER_FREE_BUFFER
    then emit (EvFreeBuffer p) st else st in
  emit (EvFree p)
    (mk_io (delete p (heap st)) (flying_transfers st) (pollfds st) (trace st)).

(** The status [usbi_handle_transfer_completion] publishes. The requested
    length [rqlen] is an [int]; the setup size is a [sizeof], so the
    subtraction wraps around on its way back to [int]. *)
Definition completion_status (t : usbi_transfer)
    (status : libusb_transfer_status) : libusb_transfer_status :=
  if bool_decide (status = LIBUSB_TRANSFER_COMPLETED)
     && CInt.test (pub_flags t) LIBUSB_TRANSFER_SHORT_NOT_OK
  then
    let rqlen := pub_length t in
    let rqlen :=
      if bool_decide (pub_endpoint_type t = LIBUSB_ENDPOINT_TYPE_CONTROL)
      then CInt.to_int (rqlen - LIBUSB_CONTROL_SETUP_SIZE) else rqlen in
    if negb (rqlen =? transferred t) then LIBUSB_TRANSFER_ERROR else status
  else status.

Definition usbi_handle_transfer_completion (p : nat)
    (status : libusb_transfer_status) (st : io_state) : io_state :=
  if bool_decide (status = LIBUSB_TRANSFER_SILENT_COMPLETION) then st
  else
    let t := deref st p in
    let status := completion_status t status in
    let st :=
      store p (set_actual_length (transferred t) (set_status status t)) st in
    let st :=
      if pub_callback t then emit (EvCallback p status (transferred t)) st
      else st in
    if CInt.test (pub_flags t) LIBUSB_TRANSFER_FREE_TRANSFER
    then libusb_free_transfer p st else st.

Definition usbi_handle_transfer_cancellation (p : nat) (st : io_state)
    : io_state :=
  let t := deref st p in
  if CInt.test (flags t) USBI_TRANSFER_SYNC_CANCELLED then
    let st :=
      store p (set_flags (CInt.clear (flags t) USBI_TRANSFER_SYNC_CANCELLED) t)
        st in
    usbi_handle_transfer_completion p LIBUSB_TRANSFER_SILENT_COMPLETION st
  else if CInt.test (flags t) USBI_TRANSFER_TIMED_OUT then
    usbi_handle_transfer_completion p LIBUSB_TRANSFER_TIMED_OUT st
  else
    usbi_handle_transfer_completion p LIBUSB_TRANSFER_CANCELLED st.

Definition handle_timeout (p : nat) (st : io_state) : io_state :=
  let t := deref st p in
  let st :=
    store p (set_flags (CInt.set (flags t) USBI_TRANSFER_TIMED_OUT) t) st in
  snd (libusb_cancel_transfer p st).

(** The [list_for_each_entry] loop of [handle_timeouts]. *)
Fixpoint handle_timeouts_loop (systime : timeval) (l : list nat)
    (st : io_state) : io_state :=
  match l with
  | [] => st
  | p :: rest =>
      let cur_tv := timeout (deref st p) in
      if negb (timerisset cur_tv) then st
      else if CInt.test (flags (deref st p)) USBI_TRANSFER_TIMED_OUT then
        handle_timeouts_loop systime rest st
      else if (tv_sec cur_tv >? tv_sec systime)
              || ((tv_sec cur_tv =? tv_sec systime)
                  && (tv_usec cur_tv >? tv_usec systime))
      then st
      else handle_timeouts_loop systime rest (handle_timeout p st)
  end.

Definition handle_timeouts (st : io_state) : Z * io_state :=
  match flying_transfers st with
  | [] => (0, st)
  | _ =>
      let '(r, systime_ts) := clock_gettime st in
      let st := emit EvClock st in
      if r <? 0 then (r, st)
      else
        let systime := TIMESPEC_TO_TIMEVAL systime_ts in
        (0, handle_timeouts_loop systime (flying_transfers st) st)
  end.

(** Returns the code and what was written through [tv], if anything. *)
Definition libusb_get_next_timeout (st : io_state)
    : Z * option timeval * io_state :=
  match flying_transfers st with
  | [] => (0, None, st)
  | _ =>
      match List.find
              (fun p => negb (CInt.test (flags (deref st p))
                                USBI_TRANSFER_TIMED_OUT))
              (flying_transfers st) with
      | None => (0, None, st)
      | Some p =>
          let next_timeout := timeout (deref st p) in
          if negb (timerisset next_timeout) then (0, None, st)
          else
            let '(r, cur_ts) := clock_gettime st in
            let st := emit EvClock st in
            if r <? 0 then (r, None, st)
            else
              let cur_tv := TIMESPEC_TO_TIMEVAL cur_ts in
              if timercmp_ge cur_tv next_timeout
              then (1, Some timerclear, st)
              else (1, Some (timersub next_timeout cur_tv), st)
      end
  end.

(** One action of the backend on the core, during [handle_events]. *)
Definition run_backend_action (a : backend_action) (st : io_state)
    : io_state :=
  match a with
  | BA_transferred p n => store p (set_transferred n (deref st p)) st
  | BA_list_del p => set_flying (list_del p (flying_transfers st)) st
  | BA_completion p status => usbi_handle_transfer_completion p status st
  | BA_cancellation p => usbi_handle_transfer_cancellation p st
  end.

Definition run_backend_actions (l : list backend_action) (st : io_state)
    : io_state :=
  fold_left (fun st a => run_backend_action a st) l st.

(** The fd sets and [maxfd] built from the poll-fd registry. *)
Definition build_fdsets (l : list libusb_pollfd)
    : Z * option (gset Z) * option (gset Z) :=
  let '(maxfd, have_readfds, readfds, have_writefds, writefds) :=
    fold_left
      (fun '(maxfd, have_readfds, readfds, have_writefds, writefds) pollfd =>
         let '(have_readfds, readfds) :=
           if CInt.test (events pollfd) POLLIN
           then (true, {[fd pollfd]} ∪ readfds)
           else (have_readfds, readfds) in
         let '(have_writefds, writefds) :=
           if CInt.test (events pollfd) POLLOUT
           then (true, {[fd pollfd]} ∪ writefds)
           else (have_writefds, writefds) in
         (if fd pollfd >? maxfd then fd pollfd else maxfd,
          have_readfds, readfds, have_writefds, writefds))
      l (0, false, (∅ : gset Z), false, (∅ : gset Z)) in
  (maxfd,
   if have_readfds then Some readfds else None,
   if have_writefds then Some writefds else None).

(** [poll_io] from the call of [select] on. *)
Definition poll_io_select (tv select_timeout : timeval) (st : io_state)
    : Z * timeval * io_state :=
  let '(maxfd, _readfds, _writefds) := build_fdsets (pollfds st) in
  let '(r, errno, (rd, wr, remaining)) :=
    select st (maxfd + 1) _readfds _writefds select_timeout in
  let st := emit (EvSelect (maxfd + 1) _readfds _writefds select_timeout) st in
  let _readfds := match _readfds with Some _ => Some rd | None => None end in
  let _writefds := match _writefds with Some _ => Some wr | None => None end in
  if r =? 0 then
    let '(r, st) := handle_timeouts st in (r, remaining, st)
  else if (r =? -1) && (errno =? EINTR) then (0, tv, st)
  else if r <? 0 then (r, tv, st)
  else
    let '(actions, r) := backend_handle_events st _readfds _writefds in
    let st := emit (EvHandleEvents _readfds _writefds) st in
    let st := run_backend_actions actions st in
    if r <? 0 then (r, tv, st)
    else let '(r, st) := handle_timeouts st in (r, tv, st).

(** Returns the code, the value left in [*tv], and the new state. *)
Definition poll_io (tv : timeval) (st : io_state) : Z * timeval * io_state :=
  let '(r, written, st) := libusb_get_next_timeout st in
  let timeout := default (indeterminate_timeval st) written in
  if negb (r =? 0) then
    if negb (timerisset timeout) then
      let '(r, st) := handle_timeouts st in (r, tv, st)
    else if timercmp_lt timeout tv then poll_io_select tv timeout st
    else poll_io_select tv tv st
  else poll_io_select tv tv st.

Definition libusb_poll_timeout (tv : timeval) (st : io_state) :=
  poll_io tv st.

Definition libusb_poll (st : io_state) : Z * io_state :=
  let '(r, _, st) := poll_io (mk_timeval 2 0) st in (r, st).

(** The [while] loop of [libusb_cancel_transfer_sync]; [None] when the
    loop is still running after [fuel] iterations. *)
Fixpoint cancel_sync_loop (fuel : nat) (p : nat) (st : io_state)
    : option (Z * io_state) :=
  if CInt.test (flags (deref st p)) USBI_TRANSFER_SYNC_CANCELLED then
    match fuel with
    | O => None
    | S fuel =>
        let '(r, st) := libusb_poll st in
        if r <? 0 then Some (r, st)
        else cancel_sync_loop fuel p st
    end
  else Some (0, st).

Definition libusb_cancel_transfer_sync (fuel : nat) (p : nat)
    (st : io_state) : option (Z * io_state) :=
  let r := backend_cancel_transfer st p in
  let st := emit (EvCancel p) st in
  if r <? 0 then Some (r, st)
  else
    let t := deref st p in
    let st :=
      store p (set_flags (CInt.set (flags t) USBI_TRANSFER_SYNC_CANCELLED) t)
        st in
    cancel_sync_loop fuel p st.

End Io.

(* ===================================================================== *)
(** * The core file: devices and device handles *)

(** [struct libusb_device] and [struct libusb_device_handle]; the fields the
    modelled functions use. *)
Record libusb_device := mk_device { refcnt : Z; session_data : Z }.
Record libusb_device_handle := mk_handle { claimed_interfaces : Z; dev : nat }.

#[global] Instance libusb_device_eq_dec : EqDecision libusb_device.
Proof. solve_decision. Defined.
#[global] Instance libusb_device_handle_eq_dec : EqDecision libusb_device_handle.
Proof. solve_decision. Defined.

Inductive core_event :=
  | EvDestroyDevice (d : nat)                 (* usbi_backend->destroy_device *)
  | EvFreeDevice (d : nat)                    (* free(dev) *)
  | EvLock (h : nat)                          (* pthread_mutex_lock(&dev->lock) *)
  | EvUnlock (h : nat)
  | EvClaimInterface (h : nat) (n : Z)        (* usbi_backend->claim_interface *)
  | EvReleaseInterface (h : nat) (n : Z)      (* usbi_backend->release_interface *)
  | EvSetInterfaceAltsetting (h : nat) (n alt : Z).

#[global] Instance core_event_eq_dec : EqDecision core_event.
Proof. solve_decision. Defined.

Record core_state := mk_core {
  devices : gmap nat libusb_device;
  usb_devs : list nat;
  handles : gmap nat libusb_device_handle;
  core_trace : list core_event
}.

Definition core_emit (e : core_event) (st : core_state) : core_state :=
  mk_core (devices st) (usb_devs st) (handles st) (core_trace st ++ [e]).

Definition set_device (d : nat) (x : libusb_device) (st : core_state) :=
  mk_core (<[d := x]> (devices st)) (usb_devs st) (handles st) (core_trace st).

Definition set_usb_devs (l : list nat) (st : core_state) :=
  mk_core (devices st) l (handles st) (core_trace st).

Definition free_device (d : nat) (st : core_state) :=
  core_emit (EvFreeDevice d)
    (mk_core (delete d (devices st)) (usb_devs st) (handles st) (core_trace st)).

Definition get_device (st : core_state) (d : nat) : libusb_device :=
  default (mk_device 0 0) (devices st !! d).

Definition get_handle (st : core_state) (h : nat) : libusb_device_handle :=
  default (mk_handle 0 0) (handles st !! h).

Definition set_claimed_interfaces (h : nat) (bits : Z) (st : core_state) :=
  mk_core (devices st) (usb_devs st)
    (<[h := mk_handle bits (dev (get_handle st h))]> (handles st))
    (core_trace st).

(** The allocator, the mutex initialiser and the backend, as the core file
    sees them. [malloc] hands out an address that is not in use. *)
Class core_environment := {
  malloc : core_state -> option nat;
  pthread_mutex_init : core_state -> Z;
  backend_has_destroy_device : bool;
  backend_claim_interface : core_state -> nat -> Z -> Z;
  backend_release_interface : core_state -> nat -> Z -> Z;
  backend_set_interface_altsetting : core_state -> nat -> Z -> Z -> Z;
  malloc_fresh : forall st d, malloc st = Some d -> devices st !! d = None
}.

Section Core.
Context {hdr : libusb_headers} {cenv : core_environment}.

(** Returns [None] for NULL. A block whose mutex cannot be initialised is
    neither freed nor published. *)
Definition usbi_alloc_device (session_id : Z) (st : core_state)
    : option nat * core_state :=
  match malloc st with
  | None => (None, st)
  | Some d =>
      let r := pthread_mutex_init st in
      if negb (r =? 0) then (None, set_device d (mk_device 0 0) st)
      else
        let st := set_device d (mk_device 1 session_id) st in
        (Some d, set_usb_devs (d :: usb_devs st) st)
  end.

Definition libusb_ref_device (d : nat) (st : core_state) : core_state :=
  let x := get_device st d in
  set_device d (mk_device (CInt.to_int (refcnt x + 1)) (session_data x)) st.

(** The argument is [None] for a NULL pointer. *)
Definition libusb_unref_device (dev : option nat) (st : core_state)
    : core_state :=
  match dev with
  | None => st
  | Some d =>
      let x := get_device st d in
      let refcnt := CInt.to_int (refcnt x - 1) in
      let st := set_device d (mk_device refcnt (session_data x)) st in
      if refcnt =? 0 then
        let st :=
          if backend_has_destroy_device
          then core_emit (EvDestroyDevice d) st else st in
        let st := set_usb_devs (list_del d (usb_devs st)) st in
        free_device d st
      else st
  end.

(** [interface_number >= sizeof(dev->claimed_interfaces) * 8]: the [int] is
    converted to [size_t] for the comparison. *)
Definition interface_out_of_range (interface_number : Z) : bool :=
  CInt.to_unsigned size_t_bits interface_number >=? claimed_interfaces_bits.

(** [1 << interface_number], an [int] expression. A shift count of 32 or
    more has no defined result ([None]); [1 << 31] is taken as the
    two's complement bit pattern. *)
Definition interface_bit (interface_number : Z) : option Z :=
  if (0 <=? interface_number) && (interface_number <? CInt.int_bits)
  then Some (CInt.to_int (Z.shiftl 1 interface_number))
  else None.

(** An [int] operand meeting the bitmap in [&], [|=] or [&=]. *)
Definition to_bitmap (z : Z) : Z := CInt.to_unsigned claimed_interfaces_bits z.

(** The functions below return [None] where the C code has no defined
    behaviour. *)
Definition libusb_claim_interface (dev : nat) (interface_number : Z)
    (st : core_state) : option (Z * core_state) :=
  if interface_out_of_range interface_number
  then Some (LIBUSB_ERROR_INVALID_PARAM, st)
  else
    let st := core_emit (EvLock dev) st in
    match interface_bit interface_number with
    | None => None
    | Some bit =>
        let claimed := claimed_interfaces (get_handle st dev) in
        if negb (Z.land claimed (to_bitmap bit) =? 0)
        then Some (0, core_emit (EvUnlock dev) st)
        else
          let r := backend_claim_interface st dev interface_number in
          let st := core_emit (EvClaimInterface dev interface_number) st in
          let st :=
            if r =? 0
            then set_claimed_interfaces dev (Z.lor claimed (to_bitmap bit)) st
            else st in
          Some (r, core_emit (EvUnlock dev) st)
    end.

Definition libusb_release_interface (dev : nat) (interface_number : Z)
    (st : core_state) : option (Z * core_state) :=
  if interface_out_of_range interface_number
  then Some (LIBUSB_ERROR_INVALID_PARAM, st)
  else
    let st := core_emit (EvLock dev) st in
    match interface_bit interface_number with
    | None => None
    | Some bit =>
        let claimed := claimed_interfaces (get_handle st dev) in
        if Z.land claimed (to_bitmap bit) =? 0
        then Some (LIBUSB_ERROR_NOT_FOUND, core_emit (EvUnlock dev) st)
        else
          let r := backend_release_interface st dev interface_number in
          let st := core_emit (EvReleaseInterface dev interface_number) st in
          let st :=
            if r =? 0
            then set_claimed_interfaces dev
                   (Z.land claimed (to_bitmap (Z.lnot bit))) st
            else st in
          Some (r, core_emit (EvUnlock dev) st)
    end.

Definition libusb_set_interface_alt_setting (dev : nat)
    (interface_number alternate_setting : Z) (st : core_state)
    : option (Z * core_state) :=
  if interface_out_of_range interface_number
  then Some (LIBUSB_ERROR_INVALID_PARAM, st)
  else
    let st := core_emit (EvLock dev) st in
    match interface_bit interface_number with
    | None => None
    | Some bit =>
        let claimed := claimed_interfaces (get_handle st dev) in
        let st := core_emit (EvUnlock dev) st in
        if Z.land claimed (to_bitmap bit) =? 0
        then Some (LIBUSB_ERROR_NOT_FOUND, st)
        else
          let r := backend_set_interface_altsetting st dev interface_number
                     alternate_setting in
          Some (r, core_emit
                     (EvSetInterfaceAltsetting dev interface_number
                        alternate_setting) st)
    end.

End Core.

(* ===================================================================== *)
(** * Scheduler order *)

(** The deadline of a transfer as the scheduler reads it. *)
Definition deadline (st : io_state) (p : nat) : timeval := timeout (deref st p).

(** [a] sorts no later than [b]: an unset deadline sorts after every set one;
    two set deadlines compare field by field, as the code does. *)
Definition deadline_le (a b : timeval) : bool :=
  negb (timerisset b) || (timerisset a && negb (tv_after a b)).

Fixpoint sorted_deadlines (l : list timeval) : bool :=
  match l with
  | [] => true
  | a :: rest =>
      match rest with
      | [] => true
      | b :: _ => deadline_le a b && sorted_deadlines rest
      end
  end.

Definition flying_sorted (st : io_state) : bool :=
  sorted_deadlines (map (deadline st) (flying_transfers st)).

(** What the scheduler goes through: submissions and removals. *)
Inductive sched_op :=
  | OpSubmit (p : nat)         (* libusb_submit_transfer *)
  | OpDelink (p : nat).        (* list_del, by the backend *)

Section Scheduler.
Context {hdr : libusb_headers} {env : environment}.

Definition run_sched_op (op : sched_op) (st : io_state) : io_state :=
  match op with
  | OpSubmit p => snd (libusb_submit_transfer p st)
  | OpDelink p => set_flying (list_del p (flying_transfers st)) st
  end.

Definition run_sched_ops (ops : list sched_op) (st : io_state) : io_state :=
  fold_left (fun st op => run_sched_op op st) ops st.

(** A transfer is submitted only while it is not in flight. *)
Fixpoint sched_ops_valid (ops : list sched_op) (st : io_state) : Prop :=
  match ops with
  | [] => True
  | op :: rest =>
      match op with
      | OpSubmit p => ~ In p (flying_transfers st)
      | OpDelink _ => True
      end /\ sched_ops_valid rest (run_sched_op op st)
  end.

(** Insertion as the design document words it: "Walk from head; insert
    before the first element whose deadline is unset or strictly greater.
    If no such element, append." An unset deadline is "a sentinel ordering
    after every set deadline", so nothing is strictly greater than it. *)
Definition unset_or_later (st : io_state) (p cur : nat) : bool :=
  negb (timerisset (deadline st cur))
  || (timerisset (deadline st p)
      && tv_after (deadline st cur) (deadline st p)).

Fixpoint spec_insert (st : io_state) (p : nat) (l : list nat) : list nat :=
  match l with
  | [] => [p]
  | cur :: rest =>
      if unset_or_later st p cur then p :: cur :: rest
      else cur :: spec_insert st p rest
  end.

Definition spec_add_to_flying_list (p : nat) (st : io_state) : io_state :=
  set_flying (spec_insert st p (flying_transfers st)) st.

(** An expired deadline: set, and not strictly after [now]. *)
Definition expired (now : timeval) (tv : timeval) : bool :=
  timerisset tv && negb (tv_after tv now).

Definition latched (st : io_state) (p : nat) : bool :=
  CInt.test (flags (deref st p)) USBI_TRANSFER_TIMED_OUT.

(** The sweep as the design document words it: "walk the scheduler from
    head; stop at the first entry with an unset deadline or a deadline
    strictly after now; skip entries already latched TIMED_OUT; for each
    expired entry, set the TIMED_OUT latch and issue an asynchronous
    backend cancel." *)
Fixpoint spec_sweep_timeouts (now : timeval) (l : list nat) (st : io_state)
    : io_state :=
  match l with
  | [] => st
  | p :: rest =>
      if negb (timerisset (deadline st p)) || tv_after (deadline st p) now
      then st
      else if latched st p then spec_sweep_timeouts now rest st
      else
        let t := deref st p in
        let st :=
          store p (set_flags (CInt.set (flags t) USBI_TRANSFER_TIMED_OUT) t)
            st in
        spec_sweep_timeouts now rest (emit (EvCancel p) st)
  end.

(** The entries a sweep at [now] has to deal with. *)
Definition due (now : timeval) (st : io_state) (p : nat) : bool :=
  expired now (deadline st p) && negb (latched st p).

(** The nearest deadline as the design document words it: "skip transfers
    already bearing the TIMED_OUT latch; the first remaining element's
    deadline (if set) is the nearest deadline; if unset or absent, there
    is no deadline." *)
Definition nearest_deadline (st : io_state) : option timeval :=
  match List.find (fun p => negb (latched st p)) (flying_transfers st) with
  | Some p =>
      if timerisset (deadline st p) then Some (deadline st p) else None
  | None => None
  end.


Definition is_select (e : event) : bool :=
  match e with
  | EvSelect _ _ _ _ => true
  | _ => false
  end.

(** What [libusb_free_transfer] adds to the log for a transfer [t] at [p]
    when [usbi_handle_transfer_completion] ends. *)
Definition free_events (p : nat) (t : usbi_transfer) : list event :=
  if CInt.test (pub_flags t) LIBUSB_TRANSFER_FREE_TRANSFER then
    (if CInt.test (pub_flags t) LIBUSB_TRANSFER_FREE_BUFFER
     then [EvFreeBuffer p] else []) ++ [EvFree p]
  else [].

Definition callback_events (p : nat) (t : usbi_transfer)
    (status : libusb_transfer_status) : list event :=
  if pub_callback t then [EvCallback p status (transferred t)] else [].




End Scheduler.

(** The transfer a non-silent completion leaves in the heap. *)
Definition published (t : usbi_transfer) (status : libusb_transfer_status)
    : usbi_transfer :=
  set_actual_length (transferred t) (set_status status t).

(** The requested length against which a completed transfer is measured:
    the buffer length, less the setup header for a control transfer. *)
Definition requested_length (t : usbi_transfer) : Z :=
  if bool_decide (pub_endpoint_type t = LIBUSB_ENDPOINT_TYPE_CONTROL)
  then pub_length t - LIBUSB_CONTROL_SETUP_SIZE
  else pub_length t.

(** The smaller of two timevals, as [poll_io] chooses it. *)
Definition tv_min (a b : timeval) : timeval :=
  if timercmp_lt a b then a else b.

(* ===================================================================== *)
(** * Device registry and claimed interfaces *)

(** Every registered device is allocated and referenced. *)
Definition registry_ok (st : core_state) : Prop :=
  NoDup (usb_devs st) /\
  forall d, In d (usb_devs st) ->
    exists x, devices st !! d = Some x /\ 1 <= refcnt x.

Definition INT_MAX : Z := 2 ^ 31 - 1.

(** Bit [n] of the claimed-interface bitmap of handle [h]. *)
Definition claimed (st : core_state) (h : nat) (n : Z) : bool :=
  Z.testbit (claimed_interfaces (get_handle st h)) n.

(* ===================================================================== *)
(** * Concrete headers and environments

    The values of libusb 1.0 on Linux, for a 64-bit and a 32-bit [long]. *)

Definition lp64_headers : libusb_headers :=
  {| USBI_TRANSFER_SYNC_CANCELLED := 1;
     USBI_TRANSFER_TIMED_OUT := 2;
     LIBUSB_TRANSFER_SHORT_NOT_OK := 1;
     LIBUSB_TRANSFER_FREE_BUFFER := 2;
     LIBUSB_TRANSFER_FREE_TRANSFER := 4;
     LIBUSB_ERROR_INVALID_PARAM := -2;
     LIBUSB_ERROR_NOT_FOUND := -5;
     EINTR := 4;
     POLLIN := 1;
     POLLOUT := 4;
     size_t_bits := 64;
     claimed_interfaces_bits := 64;
     SYNC_CANCELLED_nonzero := ltac:(discriminate);
     TIMED_OUT_nonzero := ltac:(discriminate);
     usbi_flags_disjoint := eq_refl;
     INVALID_PARAM_negative := eq_refl;
     NOT_FOUND_negative := eq_refl;
     size_t_bits_range := ltac:(lia);
     claimed_interfaces_bits_range := ltac:(lia) |}.

Definition ilp32_headers : libusb_headers :=
  {| USBI_TRANSFER_SYNC_CANCELLED := 1;
     USBI_TRANSFER_TIMED_OUT := 2;
     LIBUSB_TRANSFER_SHORT_NOT_OK := 1;
     LIBUSB_TRANSFER_FREE_BUFFER := 2;
     LIBUSB_TRANSFER_FREE_TRANSFER := 4;
     LIBUSB_ERROR_INVALID_PARAM := -2;
     LIBUSB_ERROR_NOT_FOUND := -5;
     EINTR := 4;
     POLLIN := 1;
     POLLOUT := 4;
     size_t_bits := 32;
     claimed_interfaces_bits := 32;
     SYNC_CANCELLED_nonzero := ltac:(discriminate);
     TIMED_OUT_nonzero := ltac:(discriminate);
     usbi_flags_disjoint := eq_refl;
     INVALID_PARAM_negative := eq_refl;
     NOT_FOUND_negative := eq_refl;
     size_t_bits_range := ltac:(lia);
     claimed_interfaces_bits_range := ltac:(lia) |}.

(** An outside world that answers by the number of events logged so far. *)
Definition scripted_env
    (clock : nat -> Z * timespec)
    (sel : nat -> Z * Z * (gset Z * gset Z * timeval))
    (submit cancel : nat -> Z)
    (handle : nat -> list backend_action * Z) : environment :=
  {| clock_gettime st := clock (length (trace st));
     select st _ _ _ _ := sel (length (trace st));
     backend_submit_transfer st _ := submit (length (trace st));
     backend_cancel_transfer st _ := cancel (length (trace st));
     backend_handle_events st _ _ := handle (length (trace st));
     indeterminate_timeval _ := mk_timeval 0 0 |}.

(** A transfer with the given user timeout, deadline and engine flags, and a
    callback. *)
Definition a_transfer (ms : Z) (tv : timeval) (fl : Z) : usbi_transfer :=
  mk_transfer 0 LIBUSB_ENDPOINT_TYPE_BULK ms 512 LIBUSB_TRANSFER_COMPLETED 0
    true tv 0 fl.

Definition io_empty : io_state := mk_io ∅ [] [] [].

(** Scenario S5 of the design document: T1 (200 ms), T2 (no timeout) and
    T3 (50 ms) submitted in this order, with the clock at 100 s. *)
Definition S5_env : environment :=
  scripted_env (fun _ => (0, mk_timespec 100 0))
    (fun _ => (0, 0, (∅, ∅, timerclear)))
    (fun _ => 0) (fun _ => 0) (fun _ => ([], 0)).

Definition S5_state : io_state :=
  mk_io {[ 1%nat := a_transfer 200 timerclear 0;
           2%nat := a_transfer 0 timerclear 0;
           3%nat := a_transfer 50 timerclear 0;
           4%nat := a_transfer 0 timerclear 0 ]} [] [] [].

Definition S5_ops : list sched_op :=
  [OpSubmit 1%nat; OpSubmit 2%nat; OpSubmit 3%nat].

(** A scheduler with a latched entry, two entries past their deadline at
    100 s, and one entry without deadline. *)
Definition sweep_state : io_state :=
  mk_io {[ 1%nat := a_transfer 1000 (mk_timeval 1 0) 2;
           2%nat := a_transfer 2000 (mk_timeval 2 0) 0;
           3%nat := a_transfer 50000 (mk_timeval 50 0) 0;
           4%nat := a_transfer 0 timerclear 0 ]}
    [1%nat; 2%nat; 3%nat; 4%nat] [] [].

(** [st'] comes from [st] by logging further events, all of them in [P]. *)
Definition log_grows (P : event -> bool) (st st' : io_state) : Prop :=
  exists evs, trace st' = trace st ++ evs /\ forallb P evs = true.

Definition not_select (e : event) : bool := negb (is_select e).

(** The events logged between [st] and a later state [st']. *)
Definition new_events (st st' : io_state) : list event :=
  drop (length (trace st)) (trace st').

(** The timeouts [select] was called with between [st] and [st']. *)
Definition select_calls (st st' : io_state) : list timeval :=
  omap (fun e => match e with
                 | EvSelect _ _ _ tv => Some tv
                 | _ => None
                 end) (new_events st st').

(** The monotonic clock reads 100 s; the only transfer in flight had its
    deadline at 99 s. *)
Definition expired_state : io_state :=
  mk_io {[ 1%nat := a_transfer 1000 (mk_timeval 99 0) 0 ]} [1%nat] [] [].

(** The monotonic clock reads 100 s; the only transfer in flight has its
    deadline at 100.5 s. *)
Definition pending_state : io_state :=
  mk_io {[ 1%nat := a_transfer 1000 (mk_timeval 100 500000) 0 ]} [1%nat] [] [].

(** Scenario S3 of the design document: a control transfer without timeout
    is in flight; the backend accepts the cancel and reports the cancellation
    in the first round of the event loop. *)
Definition S3_state : io_state :=
  mk_io {[ 1%nat := mk_transfer 0 LIBUSB_ENDPOINT_TYPE_CONTROL 0 64
                      LIBUSB_TRANSFER_COMPLETED 0 true timerclear 0 0 ]}
    [1%nat] [mk_pollfd 7 4] [].

Definition S3_env : environment :=
  scripted_env (fun _ => (0, mk_timespec 100 0))
    (fun _ => (1, 0, ({[7]}, {[7]}, mk_timeval 1 0)))
    (fun _ => 0) (fun _ => 0)
    (fun _ => ([BA_list_del 1; BA_cancellation 1], 0)).



(** The mask [1 << n] denotes bit [n] of the bitmap: always below bit 31,
    and at bit 31 when the bitmap is no wider than [int]. *)
Definition mask_exact {hdr : libusb_headers} (n : Z) : Prop :=
  n < 31 \/ claimed_interfaces_bits = CInt.int_bits.

(** A backend that accepts everything, with a destroy hook; the allocator
    hands out the least address not in use. *)
Definition fresh_address (st : core_state) : nat :=
  fresh (dom (devices st)).

Definition accepting_core_env : core_environment :=
  {| malloc st := Some (fresh_address st);
     pthread_mutex_init _ := 0;
     backend_has_destroy_device := true;
     backend_claim_interface _ _ _ := 0;
     backend_release_interface _ _ _ := 0;
     backend_set_interface_altsetting _ _ _ _ := 0;
     malloc_fresh := fun st d H =>
       eq_ind (fresh_address st)
         (fun d => devices st !! d = None)
         (proj1 (not_elem_of_dom (devices st) (fresh_address st))
            (is_fresh (dom (devices st))))
         d (f_equal (default d) H) |}.

(** Two devices, the first referenced three times, the second once; one
    open handle on the first with interface 3 claimed. *)
Definition core_example : core_state :=
  mk_core {[ 10%nat := mk_device 3 100; 11%nat := mk_device 1 101 ]}
    [11%nat; 10%nat]
    {[ 20%nat := mk_handle 8 10 ]} [].

(** Lists of distinct addresses. *)
Ltac solve_NoDup :=
  repeat (apply NoDup_cons_2;
          [rewrite ?not_elem_of_cons;
           repeat split; first [discriminate | apply not_elem_of_nil] |]);
  apply NoDup_nil_2.


(* ===================================================================== *)
(** * Further notions for libusb/io.c *)

(** How often the backend was asked to cancel [p] in a stretch of the log. *)
Definition cancel_count (p : nat) (evs : list event) : nat :=
  count_occ event_eq_dec evs (EvCancel p).

(** What one backend action may log: for a completion or a cancellation of
    [q], the callback of [q] and the release of [q] and of its buffer. *)
Definition action_logs_within (P : event -> bool) (a : backend_action) : Prop :=
  match a with
  | BA_completion q _ | BA_cancellation q =>
      (forall s n, P (EvCallback q s n) = true) /\
      P (EvFreeBuffer q) = true /\ P (EvFree q) = true
  | _ => True
  end.

(** The backend has something to report about [p]. *)
Definition reports_on (p : nat) (a : backend_action) : bool :=
  match a with
  | BA_completion q _ | BA_cancellation q => bool_decide (q = p)
  | _ => false
  end.

(** The backend delinks [p]. *)
Definition delinks (p : nat) (a : backend_action) : bool :=
  match a with
  | BA_list_del q => bool_decide (q = p)
  | _ => false
  end.

(** What an idle engine may log: anything but a reading of the clock and a
    request to cancel. *)
Definition idle_event (e : event) : bool :=
  match e with
  | EvClock | EvCancel _ => false
  | _ => true
  end.



(** A transfer that is no longer in flight, with a user timeout of 50 ms,
    the deadline of its earlier run and the given engine flags. *)
Definition relatched_state (fl : Z) : io_state :=
  mk_io {[ 1%nat := a_transfer 50 (mk_timeval 1 0) fl ]} [] [] [].

(** The monotonic clock reads 100 s while the first two events are logged,
    and 200 s from then on; the backend accepts everything and reports
    nothing. *)
Definition late_env : environment :=
  scripted_env
    (fun n => if (n <? 2)%nat then (0, mk_timespec 100 0)
              else (0, mk_timespec 200 0))
    (fun _ => (0, 0, (∅, ∅, timerclear)))
    (fun _ => 0) (fun _ => 0) (fun _ => ([], 0)).

(** The transfer of [relatched_state] is submitted again and the timeout
    sweep runs: the in-flight list after the submission, and how often the
    sweep asks the backend to cancel the transfer. *)
Definition resubmitted_then_swept {hdr : libusb_headers} (fl : Z)
    : list nat * nat :=
  let st1 := snd (libusb_submit_transfer (env := late_env) 1
                    (relatched_state fl)) in
  (flying_transfers st1,
   cancel_count 1
     (new_events st1 (snd (handle_timeouts (env := late_env) st1)))).

(** ** One round of the event loop, up to the backend's event handler *)

(** What a round logs before it calls the backend's event handler. *)
Definition clock_or_select (e : event) : bool :=
  match e with
  | EvClock | EvSelect _ _ _ _ => true
  | _ => false
  end.

Definition is_handle_events (e : event) : bool :=
  match e with
  | EvHandleEvents _ _ => true
  | _ => false
  end.

(** The fd sets the backend's event handler was called with between [st]
    and [st']. *)
Definition handle_events_calls (st st' : io_state)
    : list (option (gset Z) * option (gset Z)) :=
  omap (fun e => match e with
                 | EvHandleEvents rd wr => Some (rd, wr)
                 | _ => None
                 end) (new_events st st').

(** The backend delivers a transfer: it reports a completion or a
    cancellation. *)
Definition delivers (a : backend_action) : bool :=
  match a with
  | BA_completion _ _ | BA_cancellation _ => true
  | _ => false
  end.

(** What a delivery may log: a callback and the releases. *)
Definition delivery_event (e : event) : bool :=
  match e with
  | EvCallback _ _ _ | EvFreeBuffer _ | EvFree _ => true
  | _ => false
  end.

Definition any_callback (e : event) : bool :=
  match e with
  | EvCallback _ _ _ => true
  | _ => false
  end.

(** [poll_io_select] up to its call of [usbi_backend->handle_events]: the
    state at the call and the fd sets passed, or [None] when [select]
    returns 0 or fails and the handler is not called. *)
Definition select_reaches {hdr : libusb_headers} {env : environment}
    (select_timeout : timeval) (st : io_state)
    : option (io_state * option (gset Z) * option (gset Z)) :=
  let '(maxfd, _readfds, _writefds) := build_fdsets (pollfds st) in
  let '(r, errno, (rd, wr, remaining)) :=
    select st (maxfd + 1) _readfds _writefds select_timeout in
  let st := emit (EvSelect (maxfd + 1) _readfds _writefds select_timeout) st in
  let _readfds := match _readfds with Some _ => Some rd | None => None end in
  let _writefds := match _writefds with Some _ => Some wr | None => None end in
  if r =? 0 then None
  else if (r =? -1) && (errno =? EINTR) then None
  else if r <? 0 then None
  else Some (st, _readfds, _writefds).

(** [poll_io] up to the same call: no call either when a deadline has
    expired already and the round only sweeps. *)
Definition handle_events_call {hdr : libusb_headers} {env : environment}
    (tv : timeval) (st : io_state)
    : option (io_state * option (gset Z) * option (gset Z)) :=
  let '(r, written, st) := libusb_get_next_timeout st in
  let timeout := default (indeterminate_timeval st) written in
  if negb (r =? 0) then
    if negb (timerisset timeout) then None
    else if timercmp_lt timeout tv then select_reaches timeout st
    else select_reaches tv st
  else select_reaches tv st.

(** What the backend reports in the round that [poll_io tv] runs from
    [st]. *)
Definition round_report {hdr : libusb_headers} {env : environment}
    (tv : timeval) (st : io_state) : list backend_action :=
  match handle_events_call tv st with
  | Some (sx, rd, wr) => fst (backend_handle_events sx rd wr)
  | None => []
  end.

(** The in-flight list after the delinks of a report. *)
Definition delinked (l : list backend_action) (fl : list nat) : list nat :=
  fold_left (fun fl a => match a with
                         | BA_list_del q => list_del q fl
                         | _ => fl
                         end) l fl.

(** Nothing is freed and nothing is published between [st] and [st']. *)
Definition keeps_published (st st' : io_state) : Prop :=
  forall q,
    (is_Some (heap st !! q) -> is_Some (heap st' !! q)) /\
    pub_status (deref st' q) = pub_status (deref st q) /\
    pub_actual_length (deref st' q) = pub_actual_length (deref st q).

(** The backend reports progress on transfer 1 and nothing else. *)
Definition progress_env : environment :=
  scripted_env (fun _ => (0, mk_timespec 100 0))
    (fun _ => (1, 0, ({[7]}, {[7]}, mk_timeval 1 0)))
    (fun _ => 0) (fun _ => 0)
    (fun _ => ([BA_transferred 1 8], 0)).

(** Scenario S3 while the synchronous cancel is waiting: SYNC_CANCELLED is
    set on the transfer. *)
Definition S3_waiting_state {hdr : libusb_headers} : io_state :=
  store 1 (set_flags USBI_TRANSFER_SYNC_CANCELLED (deref S3_state 1)) S3_state.

(** The state a round is in after the backend's event handler has been
    called in [sx] with [rd] and [wr] and its report has been run. *)
Definition after_report {hdr : libusb_headers} {env : environment}
    (sx : io_state) (rd wr : option (gset Z)) : io_state :=
  run_backend_actions (fst (backend_handle_events sx rd wr))
    (emit (EvHandleEvents rd wr) sx).

(* ===================================================================== *)
(** * The poll-fd registry and its notifiers (libusb/io.c) *)

(** Further constants of the absent headers: [ENOMEM] of <errno.h>, which
    POSIX makes positive, and two more error codes of [libusb.h]. *)
Class more_headers := {
  ENOMEM : Z;
  LIBUSB_ERROR_NO_MEM : Z;
  LIBUSB_ERROR_OTHER : Z;
  ENOMEM_positive : 0 < ENOMEM;
  NO_MEM_negative : LIBUSB_ERROR_NO_MEM < 0;
  OTHER_negative : LIBUSB_ERROR_OTHER < 0
}.

(** [FD_SETSIZE] of <sys/select.h>: an [fd_set] has room for the
    descriptors 0 .. FD_SETSIZE - 1, and [FD_SET] is defined for these
    only. *)
Class select_headers := {
  FD_SETSIZE : Z;
  FD_SETSIZE_positive : 0 < FD_SETSIZE
}.

(** The descriptor of a registry entry fits an [fd_set]. *)
Definition fd_in_range {shdr : select_headers} (pollfd : libusb_pollfd)
    : Prop :=
  0 <= fd pollfd < FD_SETSIZE.

(** The calls of the user's notifiers. *)
Inductive notification :=
  | EvFdAdded (fd events : Z)       (* fd_added_cb(fd, events) *)
  | EvFdRemoved (fd : Z).           (* fd_removed_cb(fd) *)

#[global] Instance notification_eq_dec : EqDecision notification.
Proof. solve_decision. Defined.

(** The globals of io.c together with [fd_added_cb] and [fd_removed_cb];
    a notifier is [true] when the pointer is not NULL. *)
Record notifier_state := mk_notifiers {
  io : io_state;
  fd_added_cb : bool;
  fd_removed_cb : bool;
  notified : list notification
}.

Definition set_pollfds (l : list libusb_pollfd) (st : io_state) : io_state :=
  mk_io (heap st) (flying_transfers st) l (trace st).

Definition with_pollfds (l : list libusb_pollfd) (st : notifier_state) :=
  mk_notifiers (set_pollfds l (io st)) (fd_added_cb st) (fd_removed_cb st)
    (notified st).

Definition notify (e : notification) (st : notifier_state) :=
  mk_notifiers (io st) (fd_added_cb st) (fd_removed_cb st) (notified st ++ [e]).

(** [usbi_io_init], with the two notifiers it resets. *)
Definition usbi_io_init_notifiers (st : notifier_state) : notifier_state :=
  mk_notifiers (usbi_io_init (io st)) false false (notified st).

Definition libusb_set_pollfd_notifiers (added_cb removed_cb : bool)
    (st : notifier_state) : notifier_state :=
  mk_notifiers (io st) added_cb removed_cb (notified st).

(** The allocator as [usbi_add_pollfd] sees it. *)
Class pollfd_allocator := {
  malloc_pollfd : notifier_state -> bool
}.

(** The walk of [usbi_remove_pollfd] and its [list_del]: the first entry
    for [fd] is taken out; [None] when the walk finds none. *)
Fixpoint unlink_pollfd (fd0 : Z) (l : list libusb_pollfd)
    : option (list libusb_pollfd) :=
  match l with
  | [] => None
  | ipollfd :: rest =>
      if fd ipollfd =? fd0 then Some rest
      else match unlink_pollfd fd0 rest with
           | Some rest' => Some (ipollfd :: rest')
           | None => None
           end
  end.

Section Pollfds.
Context {mhdr : more_headers} {alloc : pollfd_allocator}.

Definition usbi_add_pollfd (fd events : Z) (st : notifier_state)
    : Z * notifier_state :=
  if negb (malloc_pollfd st) then (- ENOMEM, st)
  else
    let st := with_pollfds (mk_pollfd fd events :: pollfds (io st)) st in
    let st := if fd_added_cb st then notify (EvFdAdded fd events) st else st in
    (0, st).

Definition usbi_remove_pollfd (fd : Z) (st : notifier_state)
    : notifier_state :=
  match unlink_pollfd fd (pollfds (io st)) with
  | None => st
  | Some l =>
      let st := with_pollfds l st in
      if fd_removed_cb st then notify (EvFdRemoved fd) st else st
  end.

End Pollfds.

(** How many entries the registry holds for [fd]. *)
Definition registrations (fd0 : Z) (l : list libusb_pollfd) : nat :=
  length (List.filter (fun pf => fd pf =? fd0) l).

Definition linux_more_headers : more_headers :=
  {| ENOMEM := 12;
     LIBUSB_ERROR_NO_MEM := -11;
     LIBUSB_ERROR_OTHER := -99;
     ENOMEM_positive := eq_refl;
     NO_MEM_negative := eq_refl;
     OTHER_negative := eq_refl |}.

Definition linux_select_headers : select_headers :=
  {| FD_SETSIZE := 1024; FD_SETSIZE_positive := eq_refl |}.

Definition generous_allocator : pollfd_allocator :=
  {| malloc_pollfd _ := true |}.

(** The registry of scenario S3, with both notifiers installed. *)
Definition notifier_example : notifier_state :=
  mk_notifiers S3_state true true [].

(* ===================================================================== *)
(** * Device discovery (the core file) *)

Definition DISCOVERED_DEVICES_SIZE_STEP : Z := 8.

(** [struct discovered_devs]: [len], [capacity] and the array [devices],
    of which only the slots written so far hold a value. *)
Record discovered_devs := mk_discovered_devs {
  dd_len : Z;
  dd_capacity : Z;
  dd_devices : gmap Z nat
}.

(** The allocator and the backend, as device discovery sees them. The
    sizes handed to the allocator are counted in array slots.
    [backend_get_device_list] returns its code, the collection it leaves
    behind the pointer it was given, and the state it leaves. *)
Class discovery_environment := {
  malloc_discovered_devs : core_state -> bool;
  realloc_discovered_devs : core_state -> discovered_devs -> Z -> bool;
  malloc_device_list : core_state -> Z -> bool;
  backend_get_device_list :
    core_state -> discovered_devs -> Z * discovered_devs * core_state
}.

Section Discovery.
Context {hdr : libusb_headers} {mhdr : more_headers}
        {cenv : core_environment} {denv : discovery_environment}.

(** Arithmetic in [size_t], and the conversion to [ssize_t]. *)
Definition to_size_t (z : Z) : Z := CInt.to_unsigned size_t_bits z.

Definition to_ssize_t (z : Z) : Z :=
  (z + 2 ^ (size_t_bits - 1)) mod 2 ^ size_t_bits - 2 ^ (size_t_bits - 1).

(** The walk over [usb_devs]; [None] for NULL. *)
Definition usbi_get_device_by_session_id (session_id : Z) (st : core_state)
    : option nat :=
  List.find (fun dev => session_data (get_device st dev) =? session_id)
    (usb_devs st).

(** The collection a successful [discovered_devs_alloc] returns. *)
Definition discovered_devs_alloc : discovered_devs :=
  mk_discovered_devs 0 DISCOVERED_DEVICES_SIZE_STEP ∅.

(** Outer [None]: the store [devices[len] = ...] falls outside the block.
    Inner [None]: NULL, the collection could not grow. *)
Definition discovered_devs_append (discdevs : discovered_devs) (dev : nat)
    (st : core_state) : option (option discovered_devs * core_state) :=
  let len := dd_len discdevs in
  if len <? dd_capacity discdevs then
    let st := libusb_ref_device dev st in
    Some (Some (mk_discovered_devs (to_size_t (len + 1))
                  (dd_capacity discdevs)
                  (<[len := dev]> (dd_devices discdevs))), st)
  else
    let capacity :=
      to_size_t (dd_capacity discdevs + DISCOVERED_DEVICES_SIZE_STEP) in
    if realloc_discovered_devs st discdevs capacity then
      if len <? capacity then
        let st := libusb_ref_device dev st in
        Some (Some (mk_discovered_devs (to_size_t (len + 1)) capacity
                      (<[len := dev]> (dd_devices discdevs))), st)
      else None
    else Some (None, st).

(** The loop [for (i = 0; i < len; i++) f(devices[i])] over the slots
    [idx]; [None] when it reads a slot that was never written. *)
Fixpoint for_each_slot (f : nat -> core_state -> core_state)
    (slots : gmap Z nat) (idx : list Z) (st : core_state)
    : option core_state :=
  match idx with
  | [] => Some st
  | i :: idx =>
      match slots !! i with
      | None => None
      | Some dev => for_each_slot f slots idx (f dev st)
      end
  end.

Definition discovered_devs_free (discdevs : discovered_devs)
    (st : core_state) : option core_state :=
  for_each_slot (fun dev => libusb_unref_device (Some dev))
    (dd_devices discdevs) (seqZ 0 (dd_len discdevs)) st.

(** The array [ret] that [libusb_get_device_list] fills, without the
    terminating NULL. *)
Fixpoint read_slots (slots : gmap Z nat) (idx : list Z) : option (list nat) :=
  match idx with
  | [] => Some []
  | i :: idx =>
      match slots !! i, read_slots slots idx with
      | Some dev, Some l => Some (dev :: l)
      | _, _ => None
      end
  end.

(** Returns the code, what was stored through [list] (if anything), and
    the new state. *)
Definition libusb_get_device_list (st : core_state)
    : option (Z * option (list nat) * core_state) :=
  if negb (malloc_discovered_devs st)
  then Some (LIBUSB_ERROR_NO_MEM, None, st)
  else
    let '(r, discdevs, st) := backend_get_device_list st discovered_devs_alloc in
    if r <? 0 then
      match discovered_devs_free discdevs st with
      | Some st => Some (r, None, st)
      | None => None
      end
    else
      let len := to_ssize_t (dd_len discdevs) in
      if negb (malloc_device_list st (len + 1)) then
        match discovered_devs_free discdevs st with
        | Some st => Some (LIBUSB_ERROR_NO_MEM, None, st)
        | None => None
        end
      else
        let slots := seqZ 0 (to_size_t len) in
        match read_slots (dd_devices discdevs) slots,
              for_each_slot libusb_ref_device (dd_devices discdevs) slots st
        with
        | Some ret, Some st =>
            match discovered_devs_free discdevs st with
            | Some st => Some (len, Some ret, st)
            | None => None
            end
        | _, _ => None
        end.

(** [list] is [None] for NULL. *)
Definition libusb_free_device_list (list : option (list nat))
    (unref_devices : Z) (st : core_state) : core_state :=
  match list with
  | None => st
  | Some l =>
      if negb (unref_devices =? 0)
      then fold_left (fun st dev => libusb_unref_device (Some dev) st) l st
      else st
  end.

End Discovery.

(** The slots [0 .. len - 1] of a collection hold the devices [l], in this
    order. *)
Definition holds (discdevs : discovered_devs) (l : list nat) : Prop :=
  dd_len discdevs = Z.of_nat (length l) /\
  forall i dev, l !! i = Some dev ->
    dd_devices discdevs !! Z.of_nat i = Some dev.

(** [capacity] is the least multiple of the step with room for [len]
    devices, and at least one step. *)
Definition tight (discdevs : discovered_devs) : Prop :=
  dd_capacity discdevs
  = DISCOVERED_DEVICES_SIZE_STEP
    * Z.max 1 ((dd_len discdevs + DISCOVERED_DEVICES_SIZE_STEP - 1)
               / DISCOVERED_DEVICES_SIZE_STEP).

(** Every device of [l] is allocated and referenced, with room in its
    count for one more reference per occurrence in [l]. *)
Definition referable (l : list nat) (st : core_state) : Prop :=
  forall d, In d l ->
    exists x, devices st !! d = Some x /\ 1 <= refcnt x /\
              refcnt x + Z.of_nat (count_occ Nat.eq_dec l d) <= INT_MAX.

(** A backend filling the collection: the devices [l] are appended one
    after the other, up to the first NULL. *)
Fixpoint append_each {hdr : libusb_headers} {denv : discovery_environment}
    (l : list nat) (discdevs : discovered_devs) (st : core_state)
    : option (option discovered_devs * core_state) :=
  match l with
  | [] => Some (Some discdevs, st)
  | dev :: l =>
      match discovered_devs_append discdevs dev st with
      | Some (Some discdevs, st) => append_each l discdevs st
      | other => other
      end
  end.

(** A backend that finds the devices already registered, and an allocator
    that never fails. *)
Definition discover (l : list nat) : discovered_devs :=
  mk_discovered_devs (Z.of_nat (length l)) DISCOVERED_DEVICES_SIZE_STEP
    (list_to_map (zip (seqZ 0 (Z.of_nat (length l))) l)).

Definition finding_env (l : list nat) : discovery_environment :=
  {| malloc_discovered_devs _ := true;
     realloc_discovered_devs _ _ _ := true;
     malloc_device_list _ _ := true;
     backend_get_device_list st _ := (0, discover l, st) |}.

(* ===================================================================== *)
(** * Opening and closing devices (the core file) *)

(** What opening and closing do to the outside world, in order. *)
Inductive handle_event :=
  | EvOpen (h : nat)                          (* usbi_backend->open *)
  | EvClose (h : nat)                         (* usbi_backend->close *)
  | EvFreeHandle (h : nat)                    (* free(handle) *)
  | EvExit.                                   (* usbi_backend->exit *)

#[global] Instance handle_event_eq_dec : EqDecision handle_event.
Proof. solve_decision. Defined.

(** The devices and handles together with the list [usbi_open_devs]. *)
Record lib_state := mk_lib {
  core : core_state;
  usbi_open_devs : list nat;
  handle_trace : list handle_event
}.

Definition with_core (c : core_state) (st : lib_state) : lib_state :=
  mk_lib c (usbi_open_devs st) (handle_trace st).

Definition set_open_devs (l : list nat) (st : lib_state) : lib_state :=
  mk_lib (core st) l (handle_trace st).

Definition handle_emit (e : handle_event) (st : lib_state) : lib_state :=
  mk_lib (core st) (usbi_open_devs st) (handle_trace st ++ [e]).

Definition set_handle (h : nat) (x : libusb_device_handle) (c : core_state)
    : core_state :=
  mk_core (devices c) (usb_devs c) (<[h := x]> (handles c)) (core_trace c).

Definition free_handle (h : nat) (st : lib_state) : lib_state :=
  handle_emit (EvFreeHandle h)
    (with_core (mk_core (devices (core st)) (usb_devs (core st))
                  (delete h (handles (core st))) (core_trace (core st))) st).

(** The allocator, the mutex initialiser and the backend, as [libusb_open]
    and [libusb_exit] see them. [malloc_handle] hands out an address that
    is not in use. *)
Class handle_environment := {
  malloc_handle : lib_state -> option nat;
  handle_mutex_init : lib_state -> Z;
  backend_open : lib_state -> nat -> Z;
  backend_has_exit : bool;
  malloc_handle_fresh :
    forall st h, malloc_handle st = Some h -> handles (core st) !! h = None
}.

Section Handles.
Context {cenv : core_environment} {henv : handle_environment}.

(** Returns [None] for NULL. A block whose mutex cannot be initialised is
    not freed. *)
Definition libusb_open (dev : nat) (st : lib_state)
    : option nat * lib_state :=
  match malloc_handle st with
  | None => (None, st)
  | Some handle =>
      let r := handle_mutex_init st in
      if negb (r =? 0)
      then (None, with_core (set_handle handle (mk_handle 0 0) (core st)) st)
      else
        let st := with_core (libusb_ref_device dev (core st)) st in
        let st := with_core (set_handle handle (mk_handle 0 dev) (core st)) st in
        let r := backend_open st handle in
        let st := handle_emit (EvOpen handle) st in
        if r <? 0 then
          let st :=
            with_core (libusb_unref_device (Some dev) (core st)) st in
          (None, free_handle handle st)
        else
          (Some handle, set_open_devs (handle :: usbi_open_devs st) st)
  end.

Definition do_close (dev_handle : nat) (st : lib_state) : lib_state :=
  let st := handle_emit (EvClose dev_handle) st in
  with_core
    (libusb_unref_device (Some (dev (get_handle (core st) dev_handle)))
       (core st)) st.

(** The argument is [None] for a NULL pointer. *)
Definition libusb_close (dev_handle : option nat) (st : lib_state)
    : lib_state :=
  match dev_handle with
  | None => st
  | Some dev_handle =>
      let st := set_open_devs (list_del dev_handle (usbi_open_devs st)) st in
      let st := do_close dev_handle st in
      free_handle dev_handle st
  end.

Definition libusb_get_device (dev_handle : nat) (st : lib_state) : nat :=
  dev (get_handle (core st) dev_handle).

(** The body of the loop of [libusb_exit]. *)
Definition exit_one (devh : nat) (st : lib_state) : lib_state :=
  let st := set_open_devs (list_del devh (usbi_open_devs st)) st in
  let st := do_close devh st in
  free_handle devh st.

Definition libusb_exit (st : lib_state) : lib_state :=
  let st :=
    match usbi_open_devs st with
    | [] => st
    | _ => fold_left (fun st devh => exit_one devh st) (usbi_open_devs st) st
    end in
  if backend_has_exit then handle_emit EvExit st else st.

End Handles.

(** The open handles are distinct and allocated. *)
Definition open_ok (st : lib_state) : Prop :=
  NoDup (usbi_open_devs st) /\
  forall h, In h (usbi_open_devs st) -> is_Some (handles (core st) !! h).

(** A backend that opens everything; the allocator hands out the least
    address not in use. *)
Definition fresh_handle (st : lib_state) : nat :=
  fresh (dom (handles (core st))).

Definition accepting_handle_env : handle_environment :=
  {| malloc_handle st := Some (fresh_handle st);
     handle_mutex_init _ := 0;
     backend_open _ _ := 0;
     backend_has_exit := true;
     malloc_handle_fresh := fun st h H =>
       eq_ind (fresh_handle st)
         (fun h => handles (core st) !! h = None)
         (proj1 (not_elem_of_dom (handles (core st)) (fresh_handle st))
            (is_fresh (dom (handles (core st)))))
         h (f_equal (default h) H) |}.

(** The example with its handle on the list of open devices. *)
Definition lib_example : lib_state := mk_lib core_example [20%nat] [].

(** The part of the core state that the handles are not: the devices, the
    registry and what was done to them. *)
Definition device_side (c : core_state)
    : gmap nat libusb_device * list nat * list core_event :=
  (devices c, usb_devs c, core_trace c).

(* ===================================================================== *)
(** * Descriptors (the core file) *)

(** The descriptor structures of the absent [libusb.h]; the fields
    [libusb_get_max_packet_size] reads. Each array comes with the count the
    code trusts. *)
Record libusb_endpoint_descriptor := mk_endpoint_descriptor {
  bEndpointAddress : Z;
  wMaxPacketSize : Z
}.

Record libusb_interface_descriptor := mk_interface_descriptor {
  bNumEndpoints : Z;
  endpoint : list libusb_endpoint_descriptor
}.

Record libusb_interface := mk_interface {
  num_altsetting : Z;
  altsetting : list libusb_interface_descriptor
}.

Record libusb_config_descriptor := mk_config_descriptor {
  bNumInterfaces : Z;
  interface : list libusb_interface
}.

Inductive descriptor_event :=
  | EvGetActiveConfigDescriptor (dev : nat)
  | EvFreeConfigDescriptor.

(** [libusb_get_active_config_descriptor], which is defined in another file:
    its code and the descriptor it stores. *)
Class descriptor_environment := {
  libusb_get_active_config_descriptor : nat -> Z * libusb_config_descriptor
}.

(** The loop [for (i = 0; i < n; i++) { ... array[i] ... }] over the
    indices [idx], left by [goto out] as soon as the body has a result.
    Outer [None]: the loop reads past the end of the array. *)
Fixpoint scan {A : Type} (body : A -> option (option Z)) (array : list A)
    (idx : list Z) : option (option Z) :=
  match idx with
  | [] => Some None
  | i :: idx =>
      match array !! Z.to_nat i with
      | None => None
      | Some a =>
          match body a with
          | None => None
          | Some (Some r) => Some (Some r)
          | Some None => scan body array idx
          end
      end
  end.

Section Descriptors.
Context {hdr : libusb_headers} {mhdr : more_headers}
        {desc : descriptor_environment}.

(** Returns the code and the calls made, in order; [None] when a loop
    reads past the end of an array. *)
Definition libusb_get_max_packet_size (dev : nat) (endpoint0 : Z)
    : option (Z * list descriptor_event) :=
  let '(r, config) := libusb_get_active_config_descriptor dev in
  if r <? 0
  then Some (LIBUSB_ERROR_OTHER, [EvGetActiveConfigDescriptor dev])
  else
    let r := LIBUSB_ERROR_NOT_FOUND in
    match
      scan (fun iface =>
        scan (fun altsetting =>
          scan (fun ep =>
                  if bEndpointAddress ep =? endpoint0
                  then Some (Some (wMaxPacketSize ep))
                  else Some None)
            (endpoint altsetting) (seqZ 0 (bNumEndpoints altsetting)))
          (altsetting iface) (seqZ 0 (num_altsetting iface)))
        (interface config) (seqZ 0 (bNumInterfaces config))
    with
    | None => None
    | Some found =>
        Some (default r found,
              [EvGetActiveConfigDescriptor dev; EvFreeConfigDescriptor])
    end.

End Descriptors.

(** Every count is the length of its array. *)
Definition counts_match (config : libusb_config_descriptor) : Prop :=
  bNumInterfaces config = Z.of_nat (length (interface config)) /\
  Forall (fun iface =>
    num_altsetting iface = Z.of_nat (length (altsetting iface)) /\
    Forall (fun alt => bNumEndpoints alt = Z.of_nat (length (endpoint alt)))
      (altsetting iface))
    (interface config).

(** The endpoints of a configuration, by interface, then alternate setting,
    then position. *)
Definition endpoints_of (config : libusb_config_descriptor)
    : list libusb_endpoint_descriptor :=
  flat_map (fun iface => flat_map endpoint (altsetting iface))
    (interface config).

(** One interface with two alternate settings; endpoint 0x81 has a packet
    size of 64 in the first and of 512 in the second. *)
Definition config_example : libusb_config_descriptor :=
  mk_config_descriptor 1
    [mk_interface 2
       [mk_interface_descriptor 2
          [mk_endpoint_descriptor 1 8; mk_endpoint_descriptor 129 64];
        mk_interface_descriptor 1 [mk_endpoint_descriptor 129 512]]].

Definition example_descriptors : descriptor_environment :=
  {| libusb_get_active_config_descriptor _ := (0, config_example) |}.

(* ===================================================================== *)
(** * Properties *)

(** ** Flags *)

Module CIntFacts.
Import CInt.

Lemma land_bits_zero a b :
  Z.land a b = 0 -> forall n, Z.testbit a n && Z.testbit b n = false.
Proof.
  intros E n. rewrite <- Z.land_spec, E. apply Z.bits_0.
Qed.

Lemma test_set_same f flag : flag <> 0 -> test (set f flag) flag = true.
Proof.
  intros Hnz. unfold test, set.
  replace (Z.land (Z.lor f flag) flag) with flag.
  - apply negb_true_iff, Z.eqb_neq, Hnz.
  - apply Z.bits_inj'. intros n _.
    rewrite Z.land_spec, Z.lor_spec.
    destruct (Z.testbit f n), (Z.testbit flag n); reflexivity.
Qed.

Lemma test_clear_same f flag : test (clear f flag) flag = false.
Proof.
  unfold test, clear.
  replace (Z.land (Z.land f (Z.lnot flag)) flag) with 0; [reflexivity|].
  symmetry. apply Z.bits_inj'. intros n Hn.
  rewrite !Z.land_spec, Z.lnot_spec, Z.bits_0 by assumption.
  destruct (Z.testbit f n), (Z.testbit flag n); reflexivity.
Qed.


Lemma test_clear_other f a b :
  Z.land a b = 0 -> test (clear f a) b = test f b.
Proof.
  intros D. unfold test, clear. f_equal. f_equal.
  apply Z.bits_inj'. intros n Hn.
  rewrite !Z.land_spec, Z.lnot_spec by assumption.
  pose proof (land_bits_zero a b D n) as Hb.
  destruct (Z.testbit f n), (Z.testbit a n), (Z.testbit b n);
    simpl in *; congruence.
Qed.

Lemma to_int_id z : - 2 ^ 31 <= z < 2 ^ 31 -> to_int z = z.
Proof.
  intros Hz. unfold to_int.
  rewrite Z.mod_small by lia. lia.
Qed.

Lemma to_int_range z : - 2 ^ 31 <= to_int z < 2 ^ 31.
Proof.
  unfold to_int.
  pose proof (Z.mod_pos_bound (z + 2 ^ 31) (2 ^ 32) ltac:(lia)). lia.
Qed.

End CIntFacts.

(** ** The heap *)

Lemma deref_store_same p t st : deref (store p t st) p = t.
Proof. unfold deref, store; simpl. by rewrite lookup_insert_eq. Qed.

Lemma deref_store_other p q t st : p <> q -> deref (store p t st) q = deref st q.
Proof. intros Hne. unfold deref, store; simpl. by rewrite lookup_insert_ne. Qed.

Lemma deref_emit e st q : deref (emit e st) q = deref st q.
Proof. reflexivity. Qed.

Lemma deref_set_flying l st q : deref (set_flying l st) q = deref st q.
Proof. reflexivity. Qed.

Lemma deadline_store_other p q t st :
  p <> q -> deadline (store p t st) q = deadline st q.
Proof. intros Hne. unfold deadline. by rewrite deref_store_other. Qed.

Lemma deadline_store_flags p q f st :
  deadline (store p (set_flags f (deref st p)) st) q = deadline st q.
Proof.
  unfold deadline. destruct (decide (p = q)) as [->|Hne].
  - by rewrite deref_store_same.
  - by rewrite deref_store_other.
Qed.

(** ** Time *)

Lemma tv_after_irrefl a : tv_after a a = false.
Proof.
  unfold tv_after. rewrite Z.eqb_refl.
  replace (tv_sec a >? tv_sec a) with false by (symmetry; lia).
  replace (tv_usec a >? tv_usec a) with false by (symmetry; lia).
  reflexivity.
Qed.

Lemma tv_after_spec a b :
  tv_after a b = true <->
  tv_sec a > tv_sec b \/ (tv_sec a = tv_sec b /\ tv_usec a > tv_usec b).
Proof.
  unfold tv_after.
  rewrite orb_true_iff, andb_true_iff, Z.eqb_eq.
  rewrite !Z.gtb_gt. lia.
Qed.

Lemma tv_after_false a b :
  tv_after a b = false <->
  tv_sec a < tv_sec b \/ (tv_sec a = tv_sec b /\ tv_usec a <= tv_usec b).
Proof.
  rewrite <- not_true_iff_false, tv_after_spec. lia.
Qed.

(** Field-wise "not after" followed by field-wise "after" is "after". *)
Lemma tv_after_trans_le a b c :
  tv_after a b = false -> tv_after a c = true -> tv_after b c = true.
Proof.
  rewrite tv_after_false, !tv_after_spec. lia.
Qed.

Lemma tv_not_after_trans a b c :
  tv_after a b = false -> tv_after b c = false -> tv_after a c = false.
Proof.
  rewrite !tv_after_false. lia.
Qed.

(** On timevals whose microseconds are at most one second, the field-wise
    order never contradicts the true time order. *)
Lemma tv_not_after_micros a b :
  0 <= tv_usec a <= 1000000 -> 0 <= tv_usec b <= 1000000 ->
  tv_after a b = false -> tv_micros a <= tv_micros b.
Proof.
  rewrite tv_after_false. unfold tv_micros. lia.
Qed.

Lemma timersub_micros a b :
  tv_micros (timersub a b) = tv_micros a - tv_micros b.
Proof.
  unfold timersub, tv_micros.
  destruct (tv_usec a - tv_usec b <? 0); simpl; lia.
Qed.

Lemma timersub_normalized a b :
  tv_normalized a -> tv_normalized b -> tv_normalized (timersub a b).
Proof.
  unfold timersub, tv_normalized.
  destruct (tv_usec a - tv_usec b <? 0) eqn:E; simpl; lia.
Qed.

Lemma TIMESPEC_TO_TIMEVAL_normalized ts :
  ts_normalized ts -> tv_normalized (TIMESPEC_TO_TIMEVAL ts).
Proof.
  unfold ts_normalized, tv_normalized, TIMESPEC_TO_TIMEVAL; simpl.
  intros H. rewrite Z.quot_div_nonneg by lia.
  split.
  - apply Z.div_pos; lia.
  - apply Z.div_lt_upper_bound; lia.
Qed.

(** ** Deadline computation *)

Section Deadline.
Context {hdr : libusb_headers} {env : environment}.

(** The deadline stays within one second of being normalised, and is
    normalised except when the nanoseconds add up to exactly one second. *)
Lemma add_timeout_nsec now ms :
  ts_normalized now -> 0 <= ms ->
  0 <= ts_nsec (add_timeout now ms) <= 1000000000 /\
  (ts_nsec (add_timeout now ms) = 1000000000 <->
   ts_nsec now + (ms mod 1000) * 1000000 = 1000000000).
Proof.
  unfold ts_normalized, add_timeout. intros Hn Hms.
  pose proof (Z.mod_pos_bound ms 1000 ltac:(lia)) as Hm.
  destruct (ts_nsec now + ms mod 1000 * 1000000 >? 1000000000) eqn:E;
    simpl; lia.
Qed.

Lemma add_timeout_usec now ms :
  ts_normalized now -> 0 <= ms ->
  0 <= tv_usec (TIMESPEC_TO_TIMEVAL (add_timeout now ms)) <= 1000000.
Proof.
  intros Hn Hms.
  destruct (add_timeout_nsec now ms Hn Hms) as [Hr _].
  unfold TIMESPEC_TO_TIMEVAL; simpl.
  rewrite Z.quot_div_nonneg by lia. split.
  - apply Z.div_pos; lia.
  - apply Z.div_le_upper_bound; lia.
Qed.

End Deadline.

(** C9. The deadline computed at submit time is not always normalised: with
    the monotonic clock at 10 s + 500 000 000 ns and a timeout of 500 ms the
    nanoseconds add up to exactly 1 000 000 000, the test [> 1000000000]
    does not fire, and the stored deadline has 1 000 000 microseconds. The
    field-wise comparison then puts it strictly before the deadline
    (11 s, 0 us), which denotes the same instant. *)
Theorem calculate_timeout_unnormalized :
  let env := scripted_env (fun _ => (0, mk_timespec 10 500000000))
               (fun _ => (0, 0, (∅, ∅, timerclear)))
               (fun _ => 0) (fun _ => 0) (fun _ => ([], 0)) in
  let st := mk_io {[ 1%nat := a_transfer 500 timerclear 0 ]} [] [] [] in
  add_timeout (mk_timespec 10 500000000) 500 = mk_timespec 10 1000000000 /\
  fst (calculate_timeout (env := env) 1 st) = 0 /\
  deadline (snd (calculate_timeout (env := env) 1 st)) 1
    = mk_timeval 10 1000000 /\
  ~ tv_normalized (mk_timeval 10 1000000) /\
  tv_after (mk_timeval 11 0) (mk_timeval 10 1000000) = true /\
  tv_micros (mk_timeval 11 0) = tv_micros (mk_timeval 10 1000000).
Proof.
  repeat split; try reflexivity.
  unfold tv_normalized; simpl; lia.
Qed.

(** ** Completion and cancellation handlers *)

Section Handlers.
Context {hdr : libusb_headers} {env : environment}.

Lemma completion_silent p st :
  usbi_handle_transfer_completion p LIBUSB_TRANSFER_SILENT_COMPLETION st = st.
Proof. reflexivity. Qed.

(** A non-silent completion publishes status and length, invokes the
    callback if there is one, and frees the transfer if asked to. *)
Lemma completion_publishes p status st :
  status <> LIBUSB_TRANSFER_SILENT_COMPLETION ->
  usbi_handle_transfer_completion p status st =
  mk_io
    (if CInt.test (pub_flags (deref st p)) LIBUSB_TRANSFER_FREE_TRANSFER
     then delete p (heap st)
     else <[p := published (deref st p)
                   (completion_status (deref st p) status)]> (heap st))
    (flying_transfers st) (pollfds st)
    (trace st
       ++ callback_events p (deref st p)
            (completion_status (deref st p) status)
       ++ free_events p (deref st p)).
Proof.
  intros Hs. unfold usbi_handle_transfer_completion.
  rewrite bool_decide_eq_false_2 by assumption.
  set (t := deref st p). set (s := completion_status t status).
  unfold callback_events, free_events, libusb_free_transfer.
  destruct (pub_callback t) eqn:Hcb;
    destruct (CInt.test (pub_flags t) LIBUSB_TRANSFER_FREE_TRANSFER) eqn:Hfree;
    rewrite ?deref_emit, ?deref_store_same; simpl;
    try (destruct (CInt.test (pub_flags t) LIBUSB_TRANSFER_FREE_BUFFER);
         simpl);
    unfold emit, store, published; simpl;
    rewrite ?delete_insert_eq, <- ?app_assoc, ?app_nil_r; reflexivity.
Qed.

Lemma completion_status_other t status :
  status <> LIBUSB_TRANSFER_COMPLETED -> completion_status t status = status.
Proof.
  intros Hs. unfold completion_status.
  by rewrite bool_decide_eq_false_2.
Qed.

Lemma completion_status_short t :
  CInt.test (pub_flags t) LIBUSB_TRANSFER_SHORT_NOT_OK = true ->
  - 2 ^ 31 <= transferred t < 2 ^ 31 ->
  - 2 ^ 31 <= pub_length t < 2 ^ 31 ->
  transferred t < requested_length t ->
  completion_status t LIBUSB_TRANSFER_COMPLETED = LIBUSB_TRANSFER_ERROR.
Proof.
  intros Hflag Ht Hl Hshort. unfold completion_status, requested_length in *.
  rewrite bool_decide_eq_true_2, Hflag by reflexivity. simpl.
  unfold LIBUSB_CONTROL_SETUP_SIZE in *.
  destruct (bool_decide (pub_endpoint_type t = LIBUSB_ENDPOINT_TYPE_CONTROL)).
  - rewrite CIntFacts.to_int_id by lia.
    replace (pub_length t - 8 =? transferred t) with false
      by (symmetry; apply Z.eqb_neq; lia).
    reflexivity.
  - replace (pub_length t =? transferred t) with false
      by (symmetry; apply Z.eqb_neq; lia).
    reflexivity.
Qed.

(** A cancellation reported while SYNC_CANCELLED is set only clears the
    flag. *)
Lemma cancellation_silent p st :
  CInt.test (flags (deref st p)) USBI_TRANSFER_SYNC_CANCELLED = true ->
  usbi_handle_transfer_cancellation p st
  = store p (set_flags
               (CInt.clear (flags (deref st p)) USBI_TRANSFER_SYNC_CANCELLED)
               (deref st p)) st /\
  CInt.test (flags (deref (usbi_handle_transfer_cancellation p st) p))
    USBI_TRANSFER_SYNC_CANCELLED = false /\
  trace (usbi_handle_transfer_cancellation p st) = trace st.
Proof.
  unfold usbi_handle_transfer_cancellation. intros ->.
  rewrite completion_silent, deref_store_same. simpl.
  split; [reflexivity|]. split; [|reflexivity].
  apply CIntFacts.test_clear_same.
Qed.

End Handlers.

(** C4. A completion the backend reports as COMPLETED, for a transfer with
    SHORT_NOT_OK whose observed byte count is below the requested length (the
    buffer length, less the 8-byte setup header for a control transfer), is
    published as ERROR: the callback, when there is one, is invoked with
    status ERROR and with the observed byte count as actual length, and the
    transfer (unless it is freed on completion) holds both values. *)
Theorem short_transfer_is_error
    {hdr : libusb_headers} (p : nat) (st : io_state) :
  CInt.test (pub_flags (deref st p)) LIBUSB_TRANSFER_SHORT_NOT_OK = true ->
  - 2 ^ 31 <= transferred (deref st p) < 2 ^ 31 ->
  - 2 ^ 31 <= pub_length (deref st p) < 2 ^ 31 ->
  transferred (deref st p) < requested_length (deref st p) ->
  trace (usbi_handle_transfer_completion p LIBUSB_TRANSFER_COMPLETED st)
  = trace st
      ++ (if pub_callback (deref st p)
          then [EvCallback p LIBUSB_TRANSFER_ERROR (transferred (deref st p))]
          else [])
      ++ free_events p (deref st p) /\
  (CInt.test (pub_flags (deref st p)) LIBUSB_TRANSFER_FREE_TRANSFER = false ->
   pub_status
     (deref (usbi_handle_transfer_completion p LIBUSB_TRANSFER_COMPLETED st) p)
   = LIBUSB_TRANSFER_ERROR /\
   pub_actual_length
     (deref (usbi_handle_transfer_completion p LIBUSB_TRANSFER_COMPLETED st) p)
   = transferred (deref st p)).
Proof.
  intros Hflag Ht Hl Hshort.
  rewrite completion_publishes by discriminate.
  rewrite (completion_status_short _ Hflag Ht Hl Hshort).
  split; [reflexivity|].
  intros Hfree. rewrite Hfree.
  set (t := deref st p). unfold deref; simpl.
  rewrite lookup_insert_eq. simpl. split; reflexivity.
Qed.

(** Scenario S4: bulk-IN of 512 bytes with SHORT_NOT_OK, 200 bytes seen. *)
Lemma short_transfer_is_error_witness :
  trace (usbi_handle_transfer_completion (hdr := lp64_headers) 1
           LIBUSB_TRANSFER_COMPLETED
           (mk_io {[ 1%nat := mk_transfer 1 LIBUSB_ENDPOINT_TYPE_BULK 0 512
                              LIBUSB_TRANSFER_COMPLETED 0 true timerclear 200 0 ]}
              [1%nat] [] []))
  = [EvCallback 1 LIBUSB_TRANSFER_ERROR 200].
Proof.
  pose proof (short_transfer_is_error (hdr := lp64_headers) 1
    (mk_io {[ 1%nat := mk_transfer 1 LIBUSB_ENDPOINT_TYPE_BULK 0 512
                       LIBUSB_TRANSFER_COMPLETED 0 true timerclear 200 0 ]}
       [1%nat] [] [])) as H.
  apply H; vm_compute; first [reflexivity | split; congruence | congruence].
Defined.

(** C5. What a cancellation reported by the backend delivers is decided by
    the engine flags, in this order: with SYNC_CANCELLED set, the flag is
    cleared and nothing else happens (a silent completion: no callback, no
    status published, the status field keeps its value); otherwise with
    TIMED_OUT latched the completion is published with status TIMED_OUT;
    otherwise with status CANCELLED. In the last two cases the callback,
    when there is one, is invoked with that status, and the transfer
    itself (unless it is freed on completion) holds that status in its
    status field and the byte count as its actual length. *)
Theorem cancellation_outcome
    {hdr : libusb_headers} (p : nat) (st : io_state) :
  (CInt.test (flags (deref st p)) USBI_TRANSFER_SYNC_CANCELLED = true ->
   usbi_handle_transfer_cancellation p st
   = store p (set_flags
                (CInt.clear (flags (deref st p)) USBI_TRANSFER_SYNC_CANCELLED)
                (deref st p)) st /\
   CInt.test (flags (deref (usbi_handle_transfer_cancellation p st) p))
     USBI_TRANSFER_SYNC_CANCELLED = false /\
   trace (usbi_handle_transfer_cancellation p st) = trace st /\
   pub_status (deref (usbi_handle_transfer_cancellation p st) p)
   = pub_status (deref st p) /\
   pub_actual_length (deref (usbi_handle_transfer_cancellation p st) p)
   = pub_actual_length (deref st p)) /\
  (CInt.test (flags (deref st p)) USBI_TRANSFER_SYNC_CANCELLED = false ->
   CInt.test (flags (deref st p)) USBI_TRANSFER_TIMED_OUT = true ->
   usbi_handle_transfer_cancellation p st
   = usbi_handle_transfer_completion p LIBUSB_TRANSFER_TIMED_OUT st /\
   trace (usbi_handle_transfer_cancellation p st)
   = trace st
       ++ (if pub_callback (deref st p)
           then [EvCallback p LIBUSB_TRANSFER_TIMED_OUT
                   (transferred (deref st p))]
           else [])
       ++ free_events p (deref st p) /\
   (CInt.test (pub_flags (deref st p)) LIBUSB_TRANSFER_FREE_TRANSFER = false ->
    pub_status (deref (usbi_handle_transfer_cancellation p st) p)
    = LIBUSB_TRANSFER_TIMED_OUT /\
    pub_actual_length (deref (usbi_handle_transfer_cancellation p st) p)
    = transferred (deref st p))) /\
  (CInt.test (flags (deref st p)) USBI_TRANSFER_SYNC_CANCELLED = false ->
   CInt.test (flags (deref st p)) USBI_TRANSFER_TIMED_OUT = false ->
   usbi_handle_transfer_cancellation p st
   = usbi_handle_transfer_completion p LIBUSB_TRANSFER_CANCELLED st /\
   trace (usbi_handle_transfer_cancellation p st)
   = trace st
       ++ (if pub_callback (deref st p)
           then [EvCallback p LIBUSB_TRANSFER_CANCELLED
                   (transferred (deref st p))]
           else [])
       ++ free_events p (deref st p) /\
   (CInt.test (pub_flags (deref st p)) LIBUSB_TRANSFER_FREE_TRANSFER = false ->
    pub_status (deref (usbi_handle_transfer_cancellation p st) p)
    = LIBUSB_TRANSFER_CANCELLED /\
    pub_actual_length (deref (usbi_handle_transfer_cancellation p st) p)
    = transferred (deref st p))).
Proof.
  assert (Hdeliver : forall status,
            status <> LIBUSB_TRANSFER_SILENT_COMPLETION ->
            status <> LIBUSB_TRANSFER_COMPLETED ->
            CInt.test (pub_flags (deref st p)) LIBUSB_TRANSFER_FREE_TRANSFER
            = false ->
            pub_status (deref (usbi_handle_transfer_completion p status st) p)
            = status /\
            pub_actual_length
              (deref (usbi_handle_transfer_completion p status st) p)
            = transferred (deref st p)).
  { intros status Hsilent Hcompleted Hfree.
    rewrite completion_publishes by assumption.
    rewrite Hfree, completion_status_other by assumption.
    set (t := deref st p). unfold deref; simpl.
    rewrite lookup_insert_eq. simpl. split; reflexivity. }
  split.
  { intros Hsync.
    destruct (cancellation_silent p st Hsync) as (Heq & Hflag & Htrace).
    split; [exact Heq|]. split; [exact Hflag|]. split; [exact Htrace|].
    rewrite Heq, deref_store_same. split; reflexivity. }
  unfold usbi_handle_transfer_cancellation.
  split.
  - intros -> ->. split; [reflexivity|].
    split.
    + rewrite completion_publishes by discriminate.
      rewrite completion_status_other by discriminate. reflexivity.
    + apply Hdeliver; discriminate.
  - intros -> ->. split; [reflexivity|].
    split.
    + rewrite completion_publishes by discriminate.
      rewrite completion_status_other by discriminate. reflexivity.
    + apply Hdeliver; discriminate.
Qed.

(** Scenario S2, the end of it: the cancellation of a transfer latched
    TIMED_OUT reaches the callback as TIMED_OUT, and the transfer holds that
    status. *)
Lemma cancellation_outcome_witness :
  trace (usbi_handle_transfer_cancellation (hdr := lp64_headers) 1
           (mk_io {[ 1%nat := a_transfer 100 (mk_timeval 5 0) 2 ]}
              [] [] []))
  = [EvCallback 1 LIBUSB_TRANSFER_TIMED_OUT 0] /\
  pub_status
    (deref (usbi_handle_transfer_cancellation (hdr := lp64_headers) 1
              (mk_io {[ 1%nat := a_transfer 100 (mk_timeval 5 0) 2 ]}
                 [] [] [])) 1)
  = LIBUSB_TRANSFER_TIMED_OUT.
Proof.
  destruct (cancellation_outcome (hdr := lp64_headers) 1
              (mk_io {[ 1%nat := a_transfer 100 (mk_timeval 5 0) 2 ]}
                 [] [] [])) as (_ & Htimed & _).
  destruct Htimed as (_ & Htrace & Hheld); [reflexivity | reflexivity |].
  split; [rewrite Htrace; reflexivity|].
  apply Hheld. reflexivity.
Defined.

(** ** The in-flight scheduler *)

Lemma timerisset_false tv : timerisset tv = false -> tv = timerclear.
Proof.
  unfold timerisset, timerclear. destruct tv as [s u]; simpl.
  rewrite orb_false_iff, !negb_false_iff, !Z.eqb_eq. intros [-> ->].
  reflexivity.
Qed.

Lemma deadline_le_trans a b c :
  deadline_le a b = true -> deadline_le b c = true -> deadline_le a c = true.
Proof.
  unfold deadline_le. intros Hab Hbc.
  destruct (timerisset c); simpl in *; [|reflexivity].
  apply andb_true_iff in Hbc as [Hb Hbc]. rewrite Hb in Hab. simpl in Hab.
  apply andb_true_iff in Hab as [Ha Hab]. rewrite Ha. simpl.
  apply negb_true_iff in Hab, Hbc. apply negb_true_iff.
  eapply tv_not_after_trans; eassumption.
Qed.

Lemma sorted_deadlines_cons a l :
  sorted_deadlines (a :: l) = true ->
  Forall (fun b => deadline_le a b = true) l /\ sorted_deadlines l = true.
Proof.
  revert a. induction l as [|b l IH]; intros a H.
  - split; [constructor | reflexivity].
  - simpl in H. apply andb_true_iff in H as [Hab Hl].
    destruct (IH b Hl) as [Hall _]. split; [|exact Hl].
    constructor; [exact Hab|].
    eapply Forall_impl; [exact Hall|].
    intros c Hbc. simpl in Hbc. eapply deadline_le_trans; eassumption.
Qed.

Lemma sorted_deadlines_tail a l :
  sorted_deadlines (a :: l) = true -> sorted_deadlines l = true.
Proof. intros H. apply (sorted_deadlines_cons a l H). Qed.

Lemma sorted_deadlines_cons_intro a l :
  Forall (fun b => deadline_le a b = true) l ->
  sorted_deadlines l = true -> sorted_deadlines (a :: l) = true.
Proof.
  intros Hall Hl. destruct l as [|b l]; [reflexivity|].
  simpl. apply andb_true_iff. split; [|exact Hl].
  by inversion Hall.
Qed.

Lemma sorted_deadlines_app_unset l :
  sorted_deadlines l = true -> sorted_deadlines (l ++ [timerclear]) = true.
Proof.
  induction l as [|a l IH]; intros H; [reflexivity|].
  destruct (sorted_deadlines_cons a l H) as [Hall Hl].
  simpl app. apply sorted_deadlines_cons_intro; [|by apply IH].
  apply Forall_app. split; [exact Hall|].
  constructor; [reflexivity | constructor].
Qed.

(** Deadlines ordered field by field are ordered in time, as long as their
    microseconds do not exceed one second. *)
Lemma ordered_deadlines_in_time l :
  Forall (fun a => 0 <= tv_usec a <= 1000000) l ->
  ForallOrdPairs (fun a b => tv_after a b = false) l ->
  ForallOrdPairs (fun a b => tv_micros a <= tv_micros b) l.
Proof.
  intros Hb Ho. induction Ho as [|a l Ha Ho IH]; [constructor|].
  apply Forall_cons in Hb as [Hba Hbl].
  constructor; [|by apply IH].
  rewrite !List.Forall_forall in *. intros b Hin.
  apply tv_not_after_micros; auto.
Qed.

(** What the order means: the set deadlines come first, none of them after
    a later one, and the unset deadlines form the rest of the list. *)
Lemma sorted_deadlines_split l :
  sorted_deadlines l = true ->
  exists pre suf,
    l = pre ++ suf /\
    Forall (fun a => timerisset a = true) pre /\
    Forall (fun a => timerisset a = false) suf /\
    ForallOrdPairs (fun a b => tv_after a b = false) pre.
Proof.
  induction l as [|a l IH]; intros H.
  - exists [], []. repeat split; constructor.
  - destruct (sorted_deadlines_cons a l H) as [Hall Hl].
    destruct (IH Hl) as (pre & suf & -> & Hpre & Hsuf & Hord).
    destruct (timerisset a) eqn:Ha.
    + exists (a :: pre), suf. repeat split; try assumption.
      * constructor; assumption.
      * constructor; [|exact Hord].
        apply Forall_app in Hall as [Hall _].
        rewrite !List.Forall_forall in *. intros b Hb.
        specialize (Hall b Hb). specialize (Hpre b Hb). simpl in *.
        unfold deadline_le in Hall. rewrite Hpre, Ha in Hall. simpl in Hall.
        by apply negb_true_iff.
    + exists [], (a :: pre ++ suf). repeat split; try constructor; try assumption.
      apply Forall_app in Hall as [Hall1 Hall2].
      apply Forall_app. split.
      * rewrite !List.Forall_forall in *. intros b Hb.
        specialize (Hall1 b Hb). simpl in Hall1.
        unfold deadline_le in Hall1. rewrite Ha in Hall1. simpl in Hall1.
        rewrite orb_false_r in Hall1. by apply negb_true_iff.
      * exact Hsuf.
Qed.

Section SchedulerFacts.
Context {hdr : libusb_headers} {env : environment}.

Lemma map_deadline_ext st st' (l : list nat) :
  (forall q, In q l -> deadline st' q = deadline st q) ->
  map (deadline st') l = map (deadline st) l.
Proof. intros H. apply map_ext_in. exact H. Qed.

Lemma list_del_incl p l q : In q (list_del p l) -> In q l.
Proof.
  induction l as [|x l IH]; simpl; [tauto|].
  destruct (decide (x = p)); simpl; intuition.
Qed.

Lemma list_del_sorted st p l :
  sorted_deadlines (map (deadline st) l) = true ->
  sorted_deadlines (map (deadline st) (list_del p l)) = true.
Proof.
  induction l as [|x l IH]; intros H; [reflexivity|].
  simpl in H. destruct (sorted_deadlines_cons _ _ H) as [Hall Hl].
  simpl. destruct (decide (x = p)); [exact Hl|].
  simpl. apply sorted_deadlines_cons_intro; [|by apply IH].
  rewrite !List.Forall_forall in *. intros b Hb.
  apply Hall. apply in_map_iff in Hb as (q & <- & Hq).
  apply in_map. eapply list_del_incl; eassumption.
Qed.

Lemma list_del_NoDup p l : NoDup l -> NoDup (list_del p l).
Proof.
  induction l as [|x l IH]; intros H; [constructor|].
  apply NoDup_cons in H as [Hx Hl]. simpl.
  destruct (decide (x = p)); [exact Hl|].
  apply NoDup_cons. split; [|by apply IH].
  rewrite list_elem_of_In in *. intros Hin. apply Hx.
  eapply list_del_incl; eassumption.
Qed.

(** The walk of [add_to_flying_list] is the insertion of the design
    document. *)
Lemma insert_by_timeout_spec st p l :
  timerisset (deadline st p) = true ->
  insert_by_timeout st p (deadline st p) l = spec_insert st p l.
Proof.
  intros Hset. induction l as [|cur rest IH]; [reflexivity|].
  simpl. unfold unset_or_later. rewrite Hset. simpl.
  fold (deadline st cur). unfold tv_after. rewrite <- orb_assoc.
  destruct (negb (timerisset (deadline st cur))
            || ((tv_sec (deadline st cur) >? tv_sec (deadline st p))
                || (tv_sec (deadline st cur) =? tv_sec (deadline st p))
                   && (tv_usec (deadline st cur) >? tv_usec (deadline st p))));
    [reflexivity | by rewrite IH].
Qed.

Lemma spec_insert_sorted st p l :
  sorted_deadlines (map (deadline st) l) = true ->
  sorted_deadlines (map (deadline st) (spec_insert st p l)) = true.
Proof.
  induction l as [|cur rest IH]; intros H; [reflexivity|].
  simpl in H. destruct (sorted_deadlines_cons _ _ H) as [Hall Hrest].
  simpl. destruct (unset_or_later st p cur) eqn:Hc.
  - (* before [cur] *)
    change (sorted_deadlines
              (deadline st p :: map (deadline st) (cur :: rest)) = true).
    simpl. apply andb_true_iff. split; [|exact H].
    unfold unset_or_later in Hc. unfold deadline_le.
    destruct (timerisset (deadline st cur)); simpl in *; [|reflexivity].
    apply andb_true_iff in Hc as [-> Hafter]. simpl.
    apply negb_true_iff. apply tv_after_false.
    apply tv_after_spec in Hafter. lia.
  - (* after [cur] *)
    simpl. apply sorted_deadlines_cons_intro; [|by apply IH].
    unfold unset_or_later in Hc. apply orb_false_iff in Hc as [Hcur Hc].
    apply negb_false_iff in Hcur.
    rewrite !List.Forall_forall in *. intros b Hb.
    apply in_map_iff in Hb as (q & <- & Hq).
    assert (Hq' : q = p \/ In q rest).
    { clear -Hq. induction rest as [|x rest IH]; simpl in *.
      - intuition.
      - destruct (unset_or_later st p x); simpl in *; intuition. }
    destruct Hq' as [->|Hq'].
    + unfold deadline_le. rewrite Hcur. simpl.
      destruct (timerisset (deadline st p)); simpl in *; [|reflexivity].
      by rewrite Hc.
    + apply Hall. by apply in_map.
Qed.

Lemma add_to_flying_list_heap p st :
  heap (add_to_flying_list p st) = heap st.
Proof.
  unfold add_to_flying_list.
  destruct (flying_transfers st); [reflexivity|].
  destruct (negb (timerisset (timeout (deref st p)))); reflexivity.
Qed.

Lemma add_to_flying_list_set p st :
  timerisset (deadline st p) = true ->
  flying_transfers (add_to_flying_list p st)
  = spec_insert st p (flying_transfers st).
Proof.
  intros Hset. unfold add_to_flying_list.
  destruct (flying_transfers st) as [|x l] eqn:E; [reflexivity|].
  fold (deadline st p). rewrite Hset. simpl negb. cbv iota.
  unfold set_flying. cbn [flying_transfers].
  exact (insert_by_timeout_spec st p (x :: l) Hset).
Qed.

Lemma add_to_flying_list_unset p st :
  timerisset (deadline st p) = false ->
  flying_transfers (add_to_flying_list p st) = flying_transfers st ++ [p].
Proof.
  intros Hset. unfold add_to_flying_list.
  destruct (flying_transfers st) as [|x l] eqn:E; [reflexivity|].
  fold (deadline st p). rewrite Hset. reflexivity.
Qed.

Lemma add_to_flying_list_sorted p st :
  flying_sorted st = true -> flying_sorted (add_to_flying_list p st) = true.
Proof.
  unfold flying_sorted. intros H.
  assert (Hd : forall l, map (deadline (add_to_flying_list p st)) l
                         = map (deadline st) l).
  { intros l. apply map_ext. intros q. unfold deadline, deref.
    by rewrite add_to_flying_list_heap. }
  rewrite Hd.
  destruct (timerisset (deadline st p)) eqn:Hset.
  - rewrite add_to_flying_list_set by assumption.
    by apply spec_insert_sorted.
  - rewrite add_to_flying_list_unset by assumption.
    rewrite map_app. simpl map.
    rewrite (timerisset_false _ Hset).
    by apply sorted_deadlines_app_unset.
Qed.

(** On deadlines alone the code and the design document agree: they
    differ only in where an unset deadline goes among the unset ones. *)
Lemma spec_insert_unset_deadlines st p l :
  timerisset (deadline st p) = false ->
  sorted_deadlines (map (deadline st) l) = true ->
  map (deadline st) (spec_insert st p l) = map (deadline st) (l ++ [p]).
Proof.
  intros Hp. induction l as [|cur rest IH]; intros H; [reflexivity|].
  simpl in H. destruct (sorted_deadlines_cons _ _ H) as [Hall Hrest].
  simpl. unfold unset_or_later. rewrite Hp. simpl. rewrite orb_false_r.
  destruct (timerisset (deadline st cur)) eqn:Hcur; simpl.
  - f_equal. by apply IH.
  - (* everything from [cur] on is unset *)
    rewrite map_app. simpl map.
    rewrite (timerisset_false _ Hp), (timerisset_false _ Hcur).
    f_equal.
    assert (Hz : Forall (fun b => b = timerclear) (map (deadline st) rest)).
    { eapply Forall_impl; [exact Hall|]. intros b Hb. simpl in Hb.
      unfold deadline_le in Hb. rewrite Hcur in Hb. simpl in Hb.
      rewrite orb_false_r in Hb. apply negb_true_iff in Hb.
      by apply timerisset_false. }
    clear -Hz. induction (map (deadline st) rest) as [|b m IHm];
      [reflexivity|].
    inversion Hz; subst. simpl. f_equal. by apply IHm.
Qed.

Lemma calculate_timeout_frame p st q :
  q <> p -> deref (snd (calculate_timeout p st)) q = deref st q.
Proof.
  intros Hne. unfold calculate_timeout.
  destruct (pub_timeout (deref st p) =? 0); [reflexivity|].
  destruct (clock_gettime st) as [r ts].
  destruct (r <? 0); simpl; [reflexivity|].
  rewrite deref_store_other by congruence. reflexivity.
Qed.

Lemma calculate_timeout_flying p st :
  flying_transfers (snd (calculate_timeout p st)) = flying_transfers st.
Proof.
  unfold calculate_timeout.
  destruct (pub_timeout (deref st p) =? 0); [reflexivity|].
  destruct (clock_gettime st) as [r ts].
  destruct (r <? 0); reflexivity.
Qed.

Lemma libusb_submit_transfer_sorted p st :
  ~ In p (flying_transfers st) ->
  flying_sorted st = true ->
  flying_sorted (snd (libusb_submit_transfer p st)) = true.
Proof.
  intros Hp H. unfold libusb_submit_transfer.
  set (st1 := store p (set_transferred 0 (deref st p)) st).
  assert (H1 : flying_sorted (snd (calculate_timeout p st1)) = true).
  { unfold flying_sorted. rewrite calculate_timeout_flying.
    subst st1. simpl flying_transfers.
    erewrite map_deadline_ext; [exact H|].
    intros q Hq. unfold deadline.
    rewrite calculate_timeout_frame by congruence.
    rewrite deref_store_other by congruence. reflexivity. }
  destruct (calculate_timeout p st1) as [r st2]. simpl in H1.
  destruct (r <? 0); [exact H1|].
  unfold submit_transfer.
  destruct (backend_submit_transfer st2 p <? 0); simpl; [exact H1|].
  apply add_to_flying_list_sorted. exact H1.
Qed.

Lemma run_sched_op_sorted op st :
  match op with
  | OpSubmit p => ~ In p (flying_transfers st)
  | OpDelink _ => True
  end ->
  flying_sorted st = true -> flying_sorted (run_sched_op op st) = true.
Proof.
  destruct op as [p|p]; simpl; intros Hv H.
  - by apply libusb_submit_transfer_sorted.
  - unfold flying_sorted in *. simpl. by apply list_del_sorted.
Qed.

Lemma run_sched_ops_sorted ops st :
  sched_ops_valid ops st ->
  flying_sorted st = true -> flying_sorted (run_sched_ops ops st) = true.
Proof.
  revert st. induction ops as [|op ops IH]; intros st Hv H; [exact H|].
  destruct Hv as [Hop Hv]. simpl. apply IH; [exact Hv|].
  by apply run_sched_op_sorted.
Qed.

End SchedulerFacts.

(** C1 (amended). Start from an empty scheduler and let transfers be
    submitted (each one while it is not in flight) and delinked, in any
    order. In the state reached, the deadlines read from the head of the
    in-flight list are: first the set ones, none of them after a later one,
    then the unset ones. In that state, inserting a transfer whose deadline
    is set places it before the first element whose deadline is unset or
    strictly greater, and appends it when there is none; inserting a transfer
    whose deadline is unset appends it at the tail. On deadlines alone the
    result is always the one of the design document's insertion. *)
Theorem scheduler_order
    {env : environment} (ops : list sched_op) (st0 st : io_state) (p : nat) :
  flying_transfers st0 = [] ->
  sched_ops_valid ops st0 ->
  st = run_sched_ops ops st0 ->
  (exists pre suf,
     map (deadline st) (flying_transfers st) = pre ++ suf /\
     Forall (fun a => timerisset a = true) pre /\
     Forall (fun a => timerisset a = false) suf /\
     ForallOrdPairs (fun a b => tv_after a b = false) pre) /\
  (timerisset (deadline st p) = true ->
   flying_transfers (add_to_flying_list p st)
   = spec_insert st p (flying_transfers st)) /\
  (timerisset (deadline st p) = false ->
   flying_transfers (add_to_flying_list p st) = flying_transfers st ++ [p]) /\
  map (deadline st) (flying_transfers (add_to_flying_list p st))
  = map (deadline st) (spec_insert st p (flying_transfers st)).
Proof.
  intros Hempty Hvalid ->.
  assert (Hsorted : flying_sorted (run_sched_ops ops st0) = true).
  { apply run_sched_ops_sorted; [exact Hvalid|].
    unfold flying_sorted. by rewrite Hempty. }
  set (st := run_sched_ops ops st0) in *.
  split; [by apply sorted_deadlines_split|].
  split; [by apply add_to_flying_list_set|].
  split; [by apply add_to_flying_list_unset|].
  destruct (timerisset (deadline st p)) eqn:Hset.
  - by rewrite add_to_flying_list_set.
  - rewrite add_to_flying_list_unset by assumption.
    symmetry. by apply spec_insert_unset_deadlines.
Qed.

(** Scenario S5: T1 (200 ms), T2 (no timeout) and T3 (50 ms), submitted in
    this order, are held in the order T3, T1, T2. *)
Example scenario_S5 :
  flying_transfers
    (run_sched_ops (env := S5_env) S5_ops S5_state)
  = [3%nat; 1%nat; 2%nat].
Proof. vm_compute. reflexivity. Qed.

Lemma scheduler_order_witness :
  flying_transfers
    (add_to_flying_list 4
       (run_sched_ops (env := S5_env) S5_ops S5_state))
  = [3%nat; 1%nat; 2%nat; 4%nat].
Proof.
  pose proof (scheduler_order (env := S5_env) S5_ops S5_state
                (run_sched_ops (env := S5_env) S5_ops S5_state) 4%nat
                eq_refl) as H.
  destruct H as (_ & _ & Happend & _).
  - vm_compute. intuition discriminate.
  - reflexivity.
  - rewrite Happend; vm_compute; reflexivity.
Defined.

(** C1 as stated fails: with one unset-deadline transfer in flight, a second
    unset-deadline transfer is appended after it, not inserted before it
    (the first element whose deadline is unset). *)
Lemma insertion_of_unset_deadline_appends :
  flying_transfers
    (add_to_flying_list 2
       (mk_io {[ 1%nat := a_transfer 0 timerclear 0;
                 2%nat := a_transfer 0 timerclear 0 ]} [1%nat] [] []))
  = [1%nat; 2%nat] /\
  flying_transfers
    (spec_add_to_flying_list 2
       (mk_io {[ 1%nat := a_transfer 0 timerclear 0;
                 2%nat := a_transfer 0 timerclear 0 ]} [1%nat] [] []))
  = [2%nat; 1%nat] /\
  flying_transfers
    (add_to_flying_list 2
       (mk_io {[ 1%nat := a_transfer 0 timerclear 0;
                 2%nat := a_transfer 0 timerclear 0 ]} [1%nat] [] []))
  <> flying_transfers
       (spec_add_to_flying_list 2
          (mk_io {[ 1%nat := a_transfer 0 timerclear 0;
                    2%nat := a_transfer 0 timerclear 0 ]} [1%nat] [] [])).
Proof.
  repeat split; try (vm_compute; reflexivity).
  vm_compute. discriminate.
Qed.

(** ** The timeout sweep *)

Section Sweep.
Context {hdr : libusb_headers} {env : environment}.

Lemma handle_timeout_eq p st :
  handle_timeout p st
  = emit (EvCancel p)
      (store p (set_flags (CInt.set (flags (deref st p))
                             USBI_TRANSFER_TIMED_OUT) (deref st p)) st).
Proof. reflexivity. Qed.

Lemma deadline_handle_timeout p st q :
  deadline (handle_timeout p st) q = deadline st q.
Proof.
  rewrite handle_timeout_eq. unfold deadline at 1. rewrite deref_emit.
  apply deadline_store_flags.
Qed.

(** Entries that are unset or still in the future end the walk or are
    skipped: nothing happens. *)
Lemma handle_timeouts_loop_future now l st :
  Forall (fun q => timerisset (deadline st q) = false
                   \/ tv_after (deadline st q) now = true) l ->
  handle_timeouts_loop now l st = st.
Proof.
  induction l as [|p rest IH]; intros H; [reflexivity|].
  apply Forall_cons in H as [Hp Hrest]. simpl.
  fold (deadline st p).
  destruct (timerisset (deadline st p)) eqn:Hset; simpl; [|reflexivity].
  destruct Hp as [Hp|Hp]; [congruence|].
  destruct (CInt.test (flags (deref st p)) USBI_TRANSFER_TIMED_OUT);
    [by apply IH|].
  unfold tv_after in Hp. by rewrite Hp.
Qed.

Lemma sorted_after_now st now p rest :
  sorted_deadlines (map (deadline st) (p :: rest)) = true ->
  timerisset (deadline st p) = false
  \/ tv_after (deadline st p) now = true ->
  Forall (fun q => timerisset (deadline st q) = false
                   \/ tv_after (deadline st q) now = true) rest.
Proof.
  intros Hs Hp. simpl in Hs.
  destruct (sorted_deadlines_cons _ _ Hs) as [Hall _].
  rewrite !List.Forall_forall in *. intros q Hq.
  specialize (Hall (deadline st q) (in_map _ _ _ Hq)). simpl in Hall.
  unfold deadline_le in Hall.
  destruct (timerisset (deadline st q)); simpl in Hall; [|by left].
  right. apply andb_true_iff in Hall as [Hset Hle].
  destruct Hp as [Hp|Hp]; [congruence|].
  apply negb_true_iff in Hle. eapply tv_after_trans_le; eassumption.
Qed.

(** On an ordered scheduler the loop of [handle_timeouts] is the walk of
    the design document. *)
Lemma handle_timeouts_loop_spec now l st :
  sorted_deadlines (map (deadline st) l) = true ->
  handle_timeouts_loop now l st = spec_sweep_timeouts now l st.
Proof.
  revert st. induction l as [|p rest IH]; intros st Hs; [reflexivity|].
  pose proof (sorted_deadlines_tail _ _ Hs) as Hrest.
  simpl. fold (deadline st p). fold (latched st p).
  destruct (timerisset (deadline st p)) eqn:Hset; simpl; [|reflexivity].
  destruct (tv_after (deadline st p) now) eqn:Hafter.
  - (* not yet expired: the document stops here *)
    destruct (latched st p).
    + apply handle_timeouts_loop_future.
      eapply sorted_after_now; [exact Hs | by right].
    + unfold tv_after in Hafter. by rewrite Hafter.
  - destruct (latched st p); [by apply IH|].
    unfold tv_after in Hafter. rewrite Hafter.
    rewrite handle_timeout_eq. apply IH.
    erewrite map_ext; [exact Hrest|].
    intros q. simpl. unfold deadline at 1. rewrite deref_emit.
    apply deadline_store_flags.
Qed.

Lemma due_future now st l :
  Forall (fun q => timerisset (deadline st q) = false
                   \/ tv_after (deadline st q) now = true) l ->
  List.filter (due now st) l = [].
Proof.
  induction l as [|p rest IH]; intros H; [reflexivity|].
  apply Forall_cons in H as [Hp Hrest]. simpl.
  rewrite (IH Hrest).
  unfold due, expired.
  destruct Hp as [-> | ->]; simpl; [reflexivity|].
  by rewrite andb_false_r.
Qed.

Lemma due_latch_other now st p f q :
  q <> p ->
  due now (emit (EvCancel p) (store p (set_flags f (deref st p)) st)) q
  = due now st q.
Proof.
  intros Hne. unfold due, latched, deadline.
  rewrite !deref_emit, !deref_store_other by congruence. reflexivity.
Qed.

(** What the walk of the design document does on an ordered scheduler
    without repeated entries: exactly the due entries are latched and
    cancelled, in list order. *)
Lemma spec_sweep_effect now l st :
  NoDup l ->
  sorted_deadlines (map (deadline st) l) = true ->
  flying_transfers (spec_sweep_timeouts now l st) = flying_transfers st /\
  pollfds (spec_sweep_timeouts now l st) = pollfds st /\
  trace (spec_sweep_timeouts now l st)
  = trace st ++ map EvCancel (List.filter (due now st) l) /\
  (forall q, In q (List.filter (due now st) l) ->
     deref (spec_sweep_timeouts now l st) q
     = set_flags (CInt.set (flags (deref st q)) USBI_TRANSFER_TIMED_OUT)
         (deref st q)) /\
  (forall q, ~ In q (List.filter (due now st) l) ->
     heap (spec_sweep_timeouts now l st) !! q = heap st !! q).
Proof.
  revert st. induction l as [|p rest IH]; intros st Hnd Hs.
  - simpl. rewrite app_nil_r.
    repeat split; try reflexivity; intros q Hq;
      solve [destruct Hq | reflexivity].
  - pose proof (sorted_deadlines_tail _ _ Hs) as Hrest.
    apply NoDup_cons in Hnd as [Hp Hnd]. rewrite list_elem_of_In in Hp.
    simpl spec_sweep_timeouts.
    destruct (negb (timerisset (deadline st p))
              || tv_after (deadline st p) now) eqn:Hstop.
    + (* the walk stops: nothing is due from here on *)
      assert (Hfut : Forall (fun q => timerisset (deadline st q) = false
                               \/ tv_after (deadline st q) now = true)
                       (p :: rest)).
      { apply orb_true_iff in Hstop.
        assert (Hp' : timerisset (deadline st p) = false
                      \/ tv_after (deadline st p) now = true).
        { destruct Hstop as [H|H]; [left; by apply negb_true_iff | by right]. }
        constructor; [exact Hp'|].
        eapply sorted_after_now; eassumption. }
      rewrite (due_future _ _ _ Hfut). simpl. rewrite app_nil_r.
      repeat split; try reflexivity; intros q Hq;
        solve [destruct Hq | reflexivity].
    + apply orb_false_iff in Hstop as [Hset Hafter].
      apply negb_false_iff in Hset.
      assert (Hdue : due now st p = negb (latched st p)).
      { unfold due, expired. by rewrite Hset, Hafter. }
      simpl List.filter. rewrite Hdue.
      destruct (latched st p) eqn:Hl; simpl.
      * exact (IH st Hnd Hrest).
      * set (st1 := emit (EvCancel p)
                      (store p (set_flags
                                  (CInt.set (flags (deref st p))
                                     USBI_TRANSFER_TIMED_OUT) (deref st p))
                         st)).
        assert (Hs1 : sorted_deadlines (map (deadline st1) rest) = true).
        { erewrite map_ext; [exact Hrest|].
          intros q. subst st1. unfold deadline at 1. rewrite deref_emit.
          apply deadline_store_flags. }
        assert (Hf : List.filter (due now st1) rest
                     = List.filter (due now st) rest).
        { apply filter_ext_in. intros q Hq. subst st1.
          apply due_latch_other. intros ->. contradiction. }
        destruct (IH st1 Hnd Hs1) as (Hfly & Hpoll & Htr & Hin & Hout).
        rewrite Hf in *.
        split; [exact Hfly|]. split; [exact Hpoll|].
        split.
        { rewrite Htr. subst st1. simpl. by rewrite <- app_assoc. }
        split.
        { intros q [<-|Hq].
          - unfold deref at 1. rewrite Hout.
            + subst st1. simpl. by rewrite lookup_insert_eq.
            + intros Hq. apply filter_In in Hq as [Hq _]. contradiction.
          - rewrite (Hin q Hq). subst st1. rewrite !deref_emit.
            assert (q <> p).
            { intros ->. apply filter_In in Hq as [Hq _]. contradiction. }
            by rewrite !deref_store_other by congruence. }
        { intros q Hq. rewrite Hout by tauto.
          subst st1. simpl. rewrite lookup_insert_ne; [reflexivity|].
          intros <-. apply Hq. by left. }
Qed.

End Sweep.

(** C2. With the clock read successfully, on a scheduler that is ordered
    and holds no transfer twice, the timeout sweep returns 0 and is the walk
    of the design document: from the head, stopping at the first entry whose
    deadline is unset or strictly after the current time, skipping latched
    entries, latching and cancelling every other entry. Its whole effect:
    the in-flight list is unchanged (nothing is delinked); the log grows by
    the clock reading and one backend cancel for each entry that was due
    (deadline set, not after now, not latched), in list order, so no
    callback is invoked; each due entry gets the TIMED_OUT latch and is
    otherwise unchanged, status included; nothing else in the heap changes.
    Afterwards every due entry has the bits of TIMED_OUT set in its flags
    and tests as latched, and every other transfer is latched exactly if it
    was before. *)
Theorem timeout_sweep
    {hdr : libusb_headers} {env : environment}
    (st : io_state) (r : Z) (ts : timespec) :
  clock_gettime st = (r, ts) ->
  0 <= r ->
  flying_transfers st <> [] ->
  NoDup (flying_transfers st) ->
  flying_sorted st = true ->
  exists st',
    handle_timeouts st = (0, st') /\
    st' = spec_sweep_timeouts (TIMESPEC_TO_TIMEVAL ts) (flying_transfers st)
            (emit EvClock st) /\
    flying_transfers st' = flying_transfers st /\
    trace st'
    = trace st ++ EvClock
        :: map EvCancel
             (List.filter (due (TIMESPEC_TO_TIMEVAL ts) st)
                (flying_transfers st)) /\
    (forall q,
       In q (List.filter (due (TIMESPEC_TO_TIMEVAL ts) st)
               (flying_transfers st)) ->
       deref st' q
       = set_flags (CInt.set (flags (deref st q)) USBI_TRANSFER_TIMED_OUT)
           (deref st q)) /\
    (forall q,
       ~ In q (List.filter (due (TIMESPEC_TO_TIMEVAL ts) st)
                 (flying_transfers st)) ->
       heap st' !! q = heap st !! q) /\
    (forall q,
       In q (List.filter (due (TIMESPEC_TO_TIMEVAL ts) st)
               (flying_transfers st)) ->
       flags (deref st' q)
       = Z.lor (flags (deref st q)) USBI_TRANSFER_TIMED_OUT /\
       Z.land (flags (deref st' q)) USBI_TRANSFER_TIMED_OUT
       = USBI_TRANSFER_TIMED_OUT /\
       latched st' q = true) /\
    (forall q,
       ~ In q (List.filter (due (TIMESPEC_TO_TIMEVAL ts) st)
                 (flying_transfers st)) ->
       latched st' q = latched st q).
Proof.
  intros Hclock Hr Hne Hnd Hs.
  unfold handle_timeouts. rewrite Hclock.
  destruct (flying_transfers st) as [|x l] eqn:Hfl; [congruence|].
  replace (r <? 0) with false by (symmetry; apply Z.ltb_ge; lia).
  eexists. split; [reflexivity|].
  change (flying_transfers (emit EvClock st)) with (flying_transfers st).
  rewrite Hfl.
  assert (Hs' : sorted_deadlines
                  (map (deadline (emit EvClock st)) (x :: l)) = true).
  { unfold flying_sorted in Hs. rewrite Hfl in Hs. exact Hs. }
  rewrite (handle_timeouts_loop_spec _ _ _ Hs').
  split; [reflexivity|].
  destruct (spec_sweep_effect (TIMESPEC_TO_TIMEVAL ts) (x :: l)
              (emit EvClock st) Hnd Hs') as (Hfly & _ & Htr & Hin & Hout).
  split; [rewrite Hfly; exact Hfl|].
  split; [rewrite Htr; simpl; by rewrite <- app_assoc|].
  split; [exact Hin|]. split; [exact Hout|]. split.
  - intros q Hq. unfold latched. rewrite (Hin q Hq).
    cbn [flags set_flags]. rewrite deref_emit.
    split; [reflexivity|]. split.
    + unfold CInt.set. apply Z.bits_inj'. intros n _.
      rewrite Z.land_spec, Z.lor_spec.
      destruct (Z.testbit (flags (deref st q)) n),
               (Z.testbit USBI_TRANSFER_TIMED_OUT n); reflexivity.
    + apply CIntFacts.test_set_same, TIMED_OUT_nonzero.
  - intros q Hq. unfold latched, deref. rewrite (Hout q Hq). reflexivity.
Qed.

Lemma timeout_sweep_witness :
  trace (snd (handle_timeouts (hdr := lp64_headers) (env := S5_env) sweep_state))
  = [EvClock; EvCancel 2; EvCancel 3] /\
  map (latched (hdr := lp64_headers)
         (snd (handle_timeouts (hdr := lp64_headers) (env := S5_env)
                 sweep_state)))
    [1; 2; 3; 4]%nat
  = [true; true; true; false].
Proof.
  destruct (timeout_sweep (hdr := lp64_headers) (env := S5_env) sweep_state
              0 (mk_timespec 100 0))
    as (st' & Heq & _ & _ & Htr & _ & _ & Hlatch & Hkeep).
  - reflexivity.
  - lia.
  - discriminate.
  - solve_NoDup.
  - vm_compute. reflexivity.
  - rewrite Heq. cbn [snd]. split; [rewrite Htr; vm_compute; reflexivity|].
    cbn [map].
    destruct (Hlatch 2%nat) as (_ & _ & ->); [vm_compute; tauto|].
    destruct (Hlatch 3%nat) as (_ & _ & ->); [vm_compute; tauto|].
    rewrite (Hkeep 1%nat), (Hkeep 4%nat);
      [reflexivity | |];
      vm_compute; intros [H|[H|[]]]; discriminate.
Defined.

(** ** What the functions log *)

Section Log.
Context {hdr : libusb_headers} {env : environment}.

Lemma log_grows_refl P st : log_grows P st st.
Proof. exists []. by rewrite app_nil_r. Qed.

Lemma log_grows_trans P st1 st2 st3 :
  log_grows P st1 st2 -> log_grows P st2 st3 -> log_grows P st1 st3.
Proof.
  intros (e1 & H1 & F1) (e2 & H2 & F2). exists (e1 ++ e2).
  rewrite H2, H1, <- app_assoc. split; [reflexivity|].
  rewrite forallb_app. by rewrite F1, F2.
Qed.

Lemma log_grows_emit P e st : P e = true -> log_grows P st (emit e st).
Proof. intros H. exists [e]. simpl. by rewrite H. Qed.

Lemma log_grows_same P st st' : trace st' = trace st -> log_grows P st st'.
Proof. intros H. exists []. by rewrite app_nil_r. Qed.

Lemma log_grows_handle_timeout P p st :
  P (EvCancel p) = true -> log_grows P st (handle_timeout p st).
Proof.
  intros H. rewrite handle_timeout_eq.
  eapply log_grows_trans; [|by apply log_grows_emit].
  by apply log_grows_same.
Qed.

Lemma log_grows_handle_timeouts_loop P now l st :
  (forall p, P (EvCancel p) = true) ->
  log_grows P st (handle_timeouts_loop now l st).
Proof.
  intros HP. revert st. induction l as [|p rest IH]; intros st; simpl.
  - apply log_grows_refl.
  - destruct (negb (timerisset (timeout (deref st p))));
      [apply log_grows_refl|].
    destruct (CInt.test (flags (deref st p)) USBI_TRANSFER_TIMED_OUT);
      [apply IH|].
    destruct ((tv_sec (timeout (deref st p)) >? tv_sec now)
              || (tv_sec (timeout (deref st p)) =? tv_sec now)
                 && (tv_usec (timeout (deref st p)) >? tv_usec now));
      [apply log_grows_refl|].
    eapply log_grows_trans; [|apply IH].
    apply log_grows_handle_timeout, HP.
Qed.

Lemma log_grows_handle_timeouts P st :
  P EvClock = true -> (forall p, P (EvCancel p) = true) ->
  log_grows P st (snd (handle_timeouts st)).
Proof.
  intros Hc HP. unfold handle_timeouts.
  destruct (flying_transfers st) eqn:E; [apply log_grows_refl|].
  destruct (clock_gettime st) as [r ts].
  destruct (r <? 0); simpl.
  - by apply log_grows_emit.
  - eapply log_grows_trans; [by apply log_grows_emit|].
    by apply log_grows_handle_timeouts_loop.
Qed.

Lemma log_grows_completion P p status st :
  (forall s n, P (EvCallback p s n) = true) ->
  P (EvFreeBuffer p) = true -> P (EvFree p) = true ->
  log_grows P st (usbi_handle_transfer_completion p status st).
Proof.
  intros Hcb Hfb Hf.
  destruct (decide (status = LIBUSB_TRANSFER_SILENT_COMPLETION)) as [->|Hs].
  - rewrite completion_silent. apply log_grows_refl.
  - rewrite completion_publishes by assumption.
    eexists. split; [reflexivity|].
    rewrite forallb_app. unfold callback_events, free_events.
    destruct (pub_callback (deref st p));
      destruct (CInt.test (pub_flags (deref st p))
                  LIBUSB_TRANSFER_FREE_TRANSFER);
      destruct (CInt.test (pub_flags (deref st p))
                  LIBUSB_TRANSFER_FREE_BUFFER);
      simpl; rewrite ?Hcb, ?Hfb, ?Hf; reflexivity.
Qed.

Lemma log_grows_cancellation P p st :
  (forall s n, P (EvCallback p s n) = true) ->
  P (EvFreeBuffer p) = true -> P (EvFree p) = true ->
  log_grows P st (usbi_handle_transfer_cancellation p st).
Proof.
  intros Hcb Hfb Hf. unfold usbi_handle_transfer_cancellation.
  destruct (CInt.test (flags (deref st p)) USBI_TRANSFER_SYNC_CANCELLED).
  - rewrite completion_silent. by apply log_grows_same.
  - destruct (CInt.test (flags (deref st p)) USBI_TRANSFER_TIMED_OUT);
      by apply log_grows_completion.
Qed.

Lemma log_grows_backend_actions P l st :
  (forall p s n, P (EvCallback p s n) = true) ->
  (forall p, P (EvFreeBuffer p) = true) -> (forall p, P (EvFree p) = true) ->
  log_grows P st (run_backend_actions l st).
Proof.
  intros Hcb Hfb Hf. revert st.
  induction l as [|a l IH]; intros st; [apply log_grows_refl|].
  simpl. eapply log_grows_trans; [|apply IH].
  destruct a as [p n|p|p s|p]; simpl.
  - by apply log_grows_same.
  - by apply log_grows_same.
  - by apply log_grows_completion.
  - by apply log_grows_cancellation.
Qed.

End Log.

(** ** The event loop *)

Section EventLoop.
Context {hdr : libusb_headers} {env : environment}.

Lemma get_next_timeout_none st :
  nearest_deadline st = None ->
  libusb_get_next_timeout st = (0, None, st).
Proof.
  unfold nearest_deadline, libusb_get_next_timeout, latched, deadline.
  destruct (flying_transfers st) as [|x l]; [reflexivity|].
  destruct (List.find _ (x :: l)) as [p|]; [|reflexivity].
  destruct (timerisset (timeout (deref st p))); [discriminate|reflexivity].
Qed.

Lemma get_next_timeout_some st d r ts :
  nearest_deadline st = Some d ->
  clock_gettime st = (r, ts) -> 0 <= r ->
  libusb_get_next_timeout st
  = (1,
     Some (if timercmp_ge (TIMESPEC_TO_TIMEVAL ts) d then timerclear
           else timersub d (TIMESPEC_TO_TIMEVAL ts)),
     emit EvClock st).
Proof.
  unfold nearest_deadline, libusb_get_next_timeout, latched, deadline.
  intros Hd Hc Hr.
  destruct (flying_transfers st) as [|x l]; [discriminate|].
  destruct (List.find _ (x :: l)) as [p|]; [|discriminate].
  destruct (timerisset (timeout (deref st p))); [|discriminate].
  injection Hd as <-. simpl. rewrite Hc.
  replace (r <? 0) with false by (symmetry; apply Z.ltb_ge; lia).
  destruct (timercmp_ge (TIMESPEC_TO_TIMEVAL ts) (timeout (deref st p)));
    reflexivity.
Qed.

(** The time left until a deadline that has not expired is not zero. *)
Lemma timersub_set d now :
  tv_normalized now -> 0 <= tv_usec d ->
  timercmp_ge now d = false -> timerisset (timersub d now) = true.
Proof.
  unfold tv_normalized, timercmp_ge, timersub, timerisset.
  intros Hn Hd Hge.
  destruct (tv_sec now =? tv_sec d) eqn:Hs.
  - apply Z.eqb_eq in Hs.
    assert (tv_usec now < tv_usec d) by lia.
    replace (tv_usec d - tv_usec now <? 0) with false by (symmetry; lia).
    simpl. apply orb_true_iff. right.
    apply negb_true_iff, Z.eqb_neq. lia.
  - apply Z.eqb_neq in Hs.
    assert (tv_sec now < tv_sec d) by lia.
    destruct (tv_usec d - tv_usec now <? 0) eqn:Hu; simpl;
      apply orb_true_iff.
    + right. apply negb_true_iff, Z.eqb_neq. lia.
    + left. apply negb_true_iff, Z.eqb_neq. lia.
Qed.

Lemma new_events_app st st' evs :
  trace st' = trace st ++ evs -> new_events st st' = evs.
Proof. intros H. unfold new_events. rewrite H. apply drop_app_length. Qed.

Lemma select_calls_none st st' :
  log_grows not_select st st' -> select_calls st st' = [].
Proof.
  intros (evs & Ht & Hf). unfold select_calls.
  rewrite (new_events_app _ _ _ Ht). clear Ht.
  induction evs as [|e evs IH]; [reflexivity|].
  simpl in Hf. apply andb_true_iff in Hf as [He Hf].
  destruct e; simpl in *; try discriminate; by apply IH.
Qed.

Lemma select_calls_once st st1 st' nfds rd wr tv :
  trace st1 = trace st ->
  log_grows not_select (emit (EvSelect nfds rd wr tv) st1) st' ->
  select_calls st st' = [tv].
Proof.
  intros H1 (evs & Ht & Hf). unfold select_calls.
  simpl in Ht. rewrite H1, <- app_assoc in Ht.
  rewrite (new_events_app _ _ _ Ht). simpl. f_equal.
  clear Ht. induction evs as [|e evs IH]; [reflexivity|].
  simpl in Hf. apply andb_true_iff in Hf as [He Hf].
  destruct e; simpl in *; try discriminate; by apply IH.
Qed.

(** From the call of [select] on, the iteration logs the call and, after
    it, no further call of [select]. *)
Lemma poll_io_select_log tv sel_tv st :
  exists nfds rd wr,
    log_grows not_select (emit (EvSelect nfds rd wr sel_tv) st)
      (snd (poll_io_select tv sel_tv st)).
Proof.
  unfold poll_io_select.
  destruct (build_fdsets (pollfds st)) as [[maxfd rd] wr].
  destruct (select st (maxfd + 1) rd wr sel_tv)
    as [[r errno] [[rd' wr'] remaining]].
  exists (maxfd + 1), rd, wr.
  set (st1 := emit (EvSelect (maxfd + 1) rd wr sel_tv) st).
  destruct (r =? 0).
  { pose proof (log_grows_handle_timeouts not_select st1 eq_refl
                  (fun _ => eq_refl)) as H.
    destruct (handle_timeouts st1) as [r' st2]. exact H. }
  destruct ((r =? -1) && (errno =? EINTR)); [apply log_grows_refl|].
  destruct (r <? 0); [apply log_grows_refl|].
  destruct (backend_handle_events st1 _ _) as [actions r'].
  match goal with
  | |- context [run_backend_actions actions (emit ?e st1)] =>
      set (st2 := run_backend_actions actions (emit e st1));
      assert (H2 : log_grows not_select st1 st2)
        by (apply (log_grows_trans _ _ (emit e st1));
            [apply log_grows_emit; reflexivity
            | apply log_grows_backend_actions; reflexivity])
  end.
  destruct (r' <? 0); [exact H2|].
  pose proof (log_grows_handle_timeouts not_select st2 eq_refl
                (fun _ => eq_refl)) as H.
  destruct (handle_timeouts st2) as [r'' st3].
  eapply log_grows_trans; eassumption.
Qed.

(** When [select] returns zero, the sweep runs and the iteration returns
    its result, with the remaining time stored through [tv]. *)
Lemma poll_io_select_timed_out tv sel_tv st maxfd rd wr errno rd' wr' rem :
  build_fdsets (pollfds st) = (maxfd, rd, wr) ->
  select st (maxfd + 1) rd wr sel_tv = (0, errno, (rd', wr', rem)) ->
  poll_io_select tv sel_tv st
  = (fst (handle_timeouts (emit (EvSelect (maxfd + 1) rd wr sel_tv) st)),
     rem,
     snd (handle_timeouts (emit (EvSelect (maxfd + 1) rd wr sel_tv) st))).
Proof.
  intros Hb Hs. unfold poll_io_select. rewrite Hb, Hs. simpl.
  destruct (handle_timeouts _) as [r st']. reflexivity.
Qed.

End EventLoop.

(** C6 (amended). One iteration of the event loop with the caller's timeout
    [tv], the clock being readable. When the scheduler has no nearest
    deadline, [select] is called once, with [tv]. When the nearest deadline
    has not expired, [select] is called once, with the smaller of the time
    remaining until that deadline and [tv]. When the nearest deadline has
    already expired, [select] is not called at all: the timeout sweep runs
    at once and the iteration returns its result. And whenever [select]
    returns zero, the timeout sweep runs and the iteration returns its
    result. *)
Theorem event_loop_select_timeout
    {hdr : libusb_headers} {env : environment}
    (tv : timeval) (st : io_state) (r : Z) (ts : timespec) :
  clock_gettime st = (r, ts) ->
  0 <= r ->
  ts_normalized ts ->
  (forall d, nearest_deadline st = Some d -> 0 <= tv_usec d) ->
  (nearest_deadline st = None ->
   poll_io tv st = poll_io_select tv tv st /\
   select_calls st (snd (poll_io tv st)) = [tv]) /\
  (forall d,
     nearest_deadline st = Some d ->
     timercmp_ge (TIMESPEC_TO_TIMEVAL ts) d = false ->
     poll_io tv st
     = poll_io_select tv (tv_min (timersub d (TIMESPEC_TO_TIMEVAL ts)) tv)
         (emit EvClock st) /\
     select_calls st (snd (poll_io tv st))
     = [tv_min (timersub d (TIMESPEC_TO_TIMEVAL ts)) tv]) /\
  (forall d,
     nearest_deadline st = Some d ->
     timercmp_ge (TIMESPEC_TO_TIMEVAL ts) d = true ->
     poll_io tv st
     = (fst (handle_timeouts (emit EvClock st)), tv,
        snd (handle_timeouts (emit EvClock st))) /\
     select_calls st (snd (poll_io tv st)) = []) /\
  (forall sel_tv st1 maxfd rd wr errno rd' wr' rem,
     build_fdsets (pollfds st1) = (maxfd, rd, wr) ->
     select st1 (maxfd + 1) rd wr sel_tv = (0, errno, (rd', wr', rem)) ->
     poll_io_select tv sel_tv st1
     = (fst (handle_timeouts (emit (EvSelect (maxfd + 1) rd wr sel_tv) st1)),
        rem,
        snd (handle_timeouts (emit (EvSelect (maxfd + 1) rd wr sel_tv) st1)))).
Proof.
  intros Hclock Hr Hts Hd.
  split; [|split; [|split]].
  - intros Hnone.
    assert (E : poll_io tv st = poll_io_select tv tv st).
    { unfold poll_io. by rewrite (get_next_timeout_none _ Hnone). }
    split; [exact E|]. rewrite E.
    destruct (poll_io_select_log tv tv st) as (nfds & rd & wr & Hlog).
    eapply select_calls_once; [reflexivity | exact Hlog].
  - intros d Hsome Hge.
    assert (Hset : timerisset (timersub d (TIMESPEC_TO_TIMEVAL ts)) = true).
    { apply timersub_set; [by apply TIMESPEC_TO_TIMEVAL_normalized | | exact Hge].
      by apply Hd. }
    assert (E : poll_io tv st
                = poll_io_select tv
                    (tv_min (timersub d (TIMESPEC_TO_TIMEVAL ts)) tv)
                    (emit EvClock st)).
    { unfold poll_io.
      rewrite (get_next_timeout_some _ _ _ _ Hsome Hclock Hr), Hge.
      simpl. rewrite Hset. simpl. unfold tv_min.
      destruct (timercmp_lt (timersub d (TIMESPEC_TO_TIMEVAL ts)) tv);
        reflexivity. }
    split; [exact E|]. rewrite E.
    destruct (poll_io_select_log tv
                (tv_min (timersub d (TIMESPEC_TO_TIMEVAL ts)) tv)
                (emit EvClock st)) as (nfds & rd & wr & Hlog).
    destruct Hlog as (evs & Ht & Hf). unfold select_calls.
    simpl in Ht. rewrite <- !app_assoc in Ht. simpl in Ht.
    rewrite (new_events_app _ _ _ Ht). simpl. f_equal.
    clear Ht. induction evs as [|e evs IH]; [reflexivity|].
    simpl in Hf. apply andb_true_iff in Hf as [He Hf].
    destruct e; simpl in *; try discriminate; by apply IH.
  - intros d Hsome Hge.
    assert (E : poll_io tv st
                = (fst (handle_timeouts (emit EvClock st)), tv,
                   snd (handle_timeouts (emit EvClock st)))).
    { unfold poll_io.
      rewrite (get_next_timeout_some _ _ _ _ Hsome Hclock Hr), Hge.
      simpl. destruct (handle_timeouts (emit EvClock st)); reflexivity. }
    split; [exact E|]. rewrite E. simpl.
    apply select_calls_none.
    apply (log_grows_trans _ _ (emit EvClock st));
      [by apply log_grows_emit|].
    by apply log_grows_handle_timeouts.
  - intros. by eapply poll_io_select_timed_out.
Qed.

Lemma event_loop_select_timeout_witness :
  select_calls pending_state
    (snd (poll_io (hdr := lp64_headers) (env := S5_env) (mk_timeval 2 0)
            pending_state))
  = [mk_timeval 0 500000].
Proof.
  destruct (event_loop_select_timeout (hdr := lp64_headers) (env := S5_env)
              (mk_timeval 2 0) pending_state 0 (mk_timespec 100 0))
    as (_ & Hpending & _).
  - reflexivity.
  - lia.
  - unfold ts_normalized; simpl; lia.
  - intros d Hd. vm_compute in Hd. injection Hd as <-. simpl. lia.
  - destruct (Hpending (mk_timeval 100 500000)) as [_ Hcalls].
    + vm_compute. reflexivity.
    + reflexivity.
    + rewrite Hcalls. reflexivity.
Defined.

(** C6 as stated fails: with the nearest deadline already expired, the
    iteration does not call [select] (with a zero timeout or otherwise); it
    reads the clock, sweeps, and returns. *)
Lemma expired_deadline_skips_select :
  select_calls expired_state
    (snd (poll_io (hdr := lp64_headers) (env := S5_env) (mk_timeval 2 0)
            expired_state))
  = [] /\
  trace (snd (poll_io (hdr := lp64_headers) (env := S5_env) (mk_timeval 2 0)
                expired_state))
  = [EvClock; EvClock; EvCancel 1].
Proof. split; vm_compute; reflexivity. Qed.

(** ** Synchronous cancellation *)

Section SyncCancel.
Context {hdr : libusb_headers} {env : environment}.











Lemma get_next_timeout_heap st :
  heap (snd (libusb_get_next_timeout st)) = heap st.
Proof.
  unfold libusb_get_next_timeout.
  destruct (flying_transfers st); [reflexivity|].
  destruct (List.find _ _) as [q|]; [|reflexivity].
  destruct (negb (timerisset (timeout (deref st q)))); [reflexivity|].
  destruct (clock_gettime st) as [r ts].
  destruct (r <? 0); [reflexivity|].
  destruct (timercmp_ge _ _); reflexivity.
Qed.

Section NoCancellationReported.
Variable p : nat.
Hypothesis never_reported :
  forall sx rd wr,
    ~ In (BA_cancellation p) (fst (backend_handle_events sx rd wr)).





End NoCancellationReported.

(** More fuel does not change a result. *)
Lemma cancel_sync_loop_mono fuel fuel' p st x :
  (fuel <= fuel')%nat ->
  cancel_sync_loop fuel p st = Some x ->
  cancel_sync_loop fuel' p st = Some x.
Proof.
  revert fuel' st. induction fuel as [|fuel IH]; intros fuel' st Hle H.
  - destruct fuel'; simpl in *;
      destruct (CInt.test (flags (deref st p)) USBI_TRANSFER_SYNC_CANCELLED);
      congruence.
  - destruct fuel' as [|fuel']; [lia|]. simpl in *.
    destruct (CInt.test (flags (deref st p)) USBI_TRANSFER_SYNC_CANCELLED);
      [|exact H].
    destruct (libusb_poll st) as [r st1].
    destruct (r <? 0); [exact H|].
    apply IH; [lia | exact H].
Qed.




End SyncCancel.

(** ** A transfer freed while its synchronous cancel waits *)

Section FreedWhileWaiting.
Context {hdr : libusb_headers} {env : environment}.

Lemma log_grows_any P st st' :
  log_grows P st st' -> log_grows (fun _ => true) st st'.
Proof.
  intros (evs & Ht & _). exists evs. split; [exact Ht|].
  by apply forallb_forall.
Qed.












Section NoCancellationReported.
Variable p : nat.
Hypothesis never_reported :
  forall sx rd wr,
    ~ In (BA_cancellation p) (fst (backend_handle_events sx rd wr)).






End NoCancellationReported.

End FreedWhileWaiting.




(** ** The device registry *)

Section Registry.
Context {cenv : core_environment}.

Lemma list_del_not_in d l : NoDup l -> ~ In d (list_del d l).
Proof.
  induction l as [|x l IH]; intros Hnd; [tauto|].
  apply NoDup_cons in Hnd as [Hx Hl]. rewrite list_elem_of_In in Hx.
  simpl. destruct (decide (x = d)) as [->|Hne]; [exact Hx|].
  simpl. intros [H|H]; [congruence | by apply IH].
Qed.

Lemma registry_ok_insert d x st :
  1 <= refcnt x -> registry_ok st -> registry_ok (set_device d x st).
Proof.
  intros Hx [Hnd Hall]. split; [exact Hnd|].
  intros e He. simpl. destruct (decide (d = e)) as [->|Hne].
  - exists x. by rewrite lookup_insert_eq.
  - rewrite lookup_insert_ne by assumption. by apply Hall.
Qed.

Lemma unref_last d x st :
  devices st !! d = Some x -> refcnt x = 1 ->
  libusb_unref_device (Some d) st
  = mk_core (delete d (devices st)) (list_del d (usb_devs st)) (handles st)
      (core_trace st
         ++ (if backend_has_destroy_device then [EvDestroyDevice d] else [])
         ++ [EvFreeDevice d]).
Proof.
  intros Hd Hr. unfold libusb_unref_device, get_device. rewrite Hd. simpl.
  rewrite Hr. simpl.
  unfold free_device, core_emit, set_usb_devs, set_device; simpl.
  destruct backend_has_destroy_device; simpl;
    rewrite delete_insert_eq, <- ?app_assoc; reflexivity.
Qed.

Lemma unref_other d x st :
  devices st !! d = Some x -> 1 < refcnt x <= INT_MAX ->
  libusb_unref_device (Some d) st
  = set_device d (mk_device (refcnt x - 1) (session_data x)) st.
Proof.
  intros Hd Hr. unfold INT_MAX in Hr.
  unfold libusb_unref_device, get_device. rewrite Hd. simpl.
  rewrite CIntFacts.to_int_id by lia.
  replace (refcnt x - 1 =? 0) with false by (symmetry; lia).
  reflexivity.
Qed.

Lemma unref_registry_ok d x st :
  devices st !! d = Some x -> 1 <= refcnt x <= INT_MAX ->
  registry_ok st -> registry_ok (libusb_unref_device (Some d) st).
Proof.
  intros Hd Hr Hok.
  destruct (decide (refcnt x = 1)) as [H1|H1].
  - rewrite (unref_last d x st Hd H1). destruct Hok as [Hnd Hall].
    split; simpl; [by apply list_del_NoDup|].
    intros e He.
    assert (e <> d).
    { intros ->. by apply (list_del_not_in d (usb_devs st)). }
    rewrite lookup_delete_ne by congruence.
    apply Hall. eapply list_del_incl. exact He.
  - rewrite (unref_other d x st Hd) by lia.
    apply registry_ok_insert; [simpl; lia | exact Hok].
Qed.

Lemma alloc_registry_ok session_id d st st' :
  usbi_alloc_device session_id st = (Some d, st') ->
  registry_ok st ->
  registry_ok st' /\
  devices st' !! d = Some (mk_device 1 session_id) /\
  usb_devs st' = d :: usb_devs st.
Proof.
  unfold usbi_alloc_device. intros H [Hnd Hall].
  destruct (malloc st) as [d'|] eqn:Hm; [|discriminate].
  destruct (negb (pthread_mutex_init st =? 0)); [discriminate|].
  injection H as <- <-. simpl.
  pose proof (malloc_fresh st d' Hm) as Hfresh.
  split; [|split; [by rewrite lookup_insert_eq | reflexivity]].
  split; simpl.
  - apply NoDup_cons. split; [|exact Hnd].
    rewrite list_elem_of_In. intros Hin.
    destruct (Hall d' Hin) as (x & Hx & _). congruence.
  - intros e [<-|He].
    + eexists. rewrite lookup_insert_eq. split; [reflexivity|]. simpl. lia.
    + destruct (Hall e He) as (x & Hx & Hr). exists x.
      rewrite lookup_insert_ne; [by split|]. congruence.
Qed.

Lemma ref_registry_ok d x st :
  devices st !! d = Some x -> 1 <= refcnt x < INT_MAX ->
  registry_ok st -> registry_ok (libusb_ref_device d st).
Proof.
  intros Hd Hr Hok. unfold INT_MAX in Hr.
  unfold libusb_ref_device, get_device. rewrite Hd. simpl.
  rewrite CIntFacts.to_int_id by lia.
  apply registry_ok_insert; [simpl; lia | exact Hok].
Qed.

End Registry.

(** C8. Dropping a reference to an allocated device whose count is at least
    1. When the count was 1, the device is destroyed: the backend's destroy
    hook, if there is one, is invoked once, the device is delinked from the
    registry and its storage is freed, in this order, and a registry without
    repeated entries no longer holds it. When the count was above 1, it is
    decremented and nothing else happens: the device stays where it was and
    no hook is invoked. Either way a registry whose devices are all
    allocated with a count of at least 1 stays so; and so it does when
    [usbi_alloc_device] publishes a new device, whose count is 1. *)
Theorem unref_device_lifecycle
    {cenv : core_environment} (d : nat) (x : libusb_device) (st : core_state) :
  devices st !! d = Some x ->
  1 <= refcnt x <= INT_MAX ->
  (refcnt x = 1 ->
   libusb_unref_device (Some d) st
   = mk_core (delete d (devices st)) (list_del d (usb_devs st)) (handles st)
       (core_trace st
          ++ (if backend_has_destroy_device then [EvDestroyDevice d] else [])
          ++ [EvFreeDevice d]) /\
   (NoDup (usb_devs st) ->
    ~ In d (usb_devs (libusb_unref_device (Some d) st)))) /\
  (1 < refcnt x ->
   libusb_unref_device (Some d) st
   = mk_core (<[d := mk_device (refcnt x - 1) (session_data x)]> (devices st))
       (usb_devs st) (handles st) (core_trace st)) /\
  (registry_ok st -> registry_ok (libusb_unref_device (Some d) st)) /\
  (forall session_id d' st',
     usbi_alloc_device session_id st = (Some d', st') ->
     registry_ok st ->
     registry_ok st' /\
     devices st' !! d' = Some (mk_device 1 session_id) /\
     usb_devs st' = d' :: usb_devs st).
Proof.
  intros Hd Hr. split; [|split; [|split]].
  - intros H1. split; [exact (unref_last d x st Hd H1)|].
    intros Hnd. rewrite (unref_last d x st Hd H1). simpl.
    by apply list_del_not_in.
  - intros H1. rewrite (unref_other d x st Hd) by lia. reflexivity.
  - by apply (unref_registry_ok d x).
  - intros session_id d' st'. apply alloc_registry_ok.
Qed.

(** Scenario S1, the end of it: the last reference to device 11 goes. *)
Lemma unref_device_lifecycle_witness :
  libusb_unref_device (cenv := accepting_core_env) (Some 11%nat) core_example
  = mk_core {[ 10%nat := mk_device 3 100 ]} [10%nat]
      {[ 20%nat := mk_handle 8 10 ]}
      [EvDestroyDevice 11; EvFreeDevice 11].
Proof.
  destruct (unref_device_lifecycle (cenv := accepting_core_env) 11%nat
              (mk_device 1 101) core_example) as ([Hlast _] & _).
  - reflexivity.
  - unfold INT_MAX. simpl. lia.
  - reflexivity.
  - rewrite Hlast. reflexivity.
Defined.

(** ** Claimed interfaces *)

Section Interfaces.
Context {hdr : libusb_headers} {cenv : core_environment}.

Lemma size_t_modulus : 2 ^ 32 <= 2 ^ size_t_bits.
Proof. apply Z.pow_le_mono_r; [lia | apply size_t_bits_range]. Qed.

(** The guard rejects exactly the interface numbers outside the bitmap;
    a negative [int] becomes a huge [size_t]. *)
Lemma interface_out_of_range_spec n :
  - 2 ^ 31 <= n < 2 ^ 31 ->
  interface_out_of_range n = true <-> n < 0 \/ claimed_interfaces_bits <= n.
Proof.
  intros Hn. unfold interface_out_of_range, CInt.to_unsigned.
  pose proof size_t_modulus as Hs.
  pose proof claimed_interfaces_bits_range as Hw.
  rewrite Z.geb_le.
  destruct (Z.lt_ge_cases n 0) as [Hneg|Hpos].
  - rewrite <- (Z_mod_plus_full n 1 (2 ^ size_t_bits)).
    rewrite Z.mod_small by lia. lia.
  - rewrite Z.mod_small by lia. lia.
Qed.

Lemma interface_in_range_spec n :
  - 2 ^ 31 <= n < 2 ^ 31 ->
  interface_out_of_range n = false <-> 0 <= n < claimed_interfaces_bits.
Proof.
  intros Hn. rewrite <- not_true_iff_false, interface_out_of_range_spec
    by assumption. lia.
Qed.

Lemma claim_logs h n st r st' :
  interface_out_of_range n = false ->
  libusb_claim_interface h n st = Some (r, st') ->
  (length (core_trace st) < length (core_trace st'))%nat.
Proof.
  intros Hg. unfold libusb_claim_interface. rewrite Hg.
  destruct (interface_bit n) as [bit|]; [|discriminate].
  destruct (negb _).
  - intros [= <- <-]. simpl. rewrite !length_app. simpl. lia.
  - destruct (_ =? 0); intros [= <- <-]; simpl;
      rewrite !length_app; simpl; lia.
Qed.

Lemma release_logs h n st r st' :
  interface_out_of_range n = false ->
  libusb_release_interface h n st = Some (r, st') ->
  (length (core_trace st) < length (core_trace st'))%nat.
Proof.
  intros Hg. unfold libusb_release_interface. rewrite Hg.
  destruct (interface_bit n) as [bit|]; [|discriminate].
  destruct (Z.land _ _ =? 0).
  - intros [= <- <-]. simpl. rewrite !length_app. simpl. lia.
  - destruct (_ =? 0); intros [= <- <-]; simpl;
      rewrite !length_app; simpl; lia.
Qed.

Lemma set_alt_logs h n alt st r st' :
  interface_out_of_range n = false ->
  libusb_set_interface_alt_setting h n alt st = Some (r, st') ->
  (length (core_trace st) < length (core_trace st'))%nat.
Proof.
  intros Hg. unfold libusb_set_interface_alt_setting. rewrite Hg.
  destruct (interface_bit n) as [bit|]; [|discriminate].
  destruct (Z.land _ _ =? 0); intros [= <- <-]; simpl;
    rewrite !length_app; simpl; lia.
Qed.

(** *** The mask *)

Lemma land_pow2 a n :
  0 <= n -> Z.land a (2 ^ n) = if Z.testbit a n then 2 ^ n else 0.
Proof.
  intros Hn. apply Z.bits_inj'. intros m Hm.
  rewrite Z.land_spec, Z.pow2_bits_eqb by assumption.
  destruct (Z.eqb_spec n m) as [->|Hne].
  - destruct (Z.testbit a m) eqn:E; simpl.
    + by rewrite Z.pow2_bits_true.
    + by rewrite Z.bits_0.
  - rewrite andb_false_r.
    destruct (Z.testbit a n); [|by rewrite Z.bits_0].
    rewrite Z.pow2_bits_false; [reflexivity | congruence].
Qed.

Lemma land_pow2_eqb a n :
  0 <= n -> (Z.land a (2 ^ n) =? 0) = negb (Z.testbit a n).
Proof.
  intros Hn. rewrite land_pow2 by assumption.
  destruct (Z.testbit a n); simpl; [|reflexivity].
  apply Z.eqb_neq. pose proof (Z.pow_pos_nonneg 2 n). lia.
Qed.

Lemma lor_pow2 a n : 0 <= n -> Z.lor a (2 ^ n) = Z.setbit a n.
Proof. intros Hn. unfold Z.setbit. by rewrite Z.shiftl_1_l. Qed.

Lemma testbit_above a w m :
  0 <= a < 2 ^ w -> w <= m -> Z.testbit a m = false.
Proof.
  intros Ha Hm. destruct (Z.eq_dec a 0) as [->|Hnz]; [apply Z.bits_0|].
  apply Z.bits_above_log2; [lia|].
  assert (0 <= w).
  { destruct (Z.lt_ge_cases w 0) as [Hw|Hw]; [|exact Hw].
    rewrite Z.pow_neg_r in Ha by assumption. lia. }
  assert (Z.log2 a < w) by (apply Z.log2_lt_pow2; lia). lia.
Qed.

(** Clearing bit [n] of a [w]-bit value with the mask that has every bit
    below [w] set, but bit [n]. *)
Lemma land_clear_mask a w n :
  0 <= a < 2 ^ w -> 0 <= n < w ->
  Z.land a (2 ^ w - 1 - 2 ^ n) = Z.clearbit a n.
Proof.
  intros Ha Hn.
  assert (Hmask : 2 ^ w - 1 - 2 ^ n = Z.ldiff (Z.ones w) (2 ^ n)).
  { replace (2 ^ w - 1) with (Z.ones w) by (rewrite Z.ones_equiv; lia).
    apply Z.sub_nocarry_ldiff.
    apply Z.bits_inj'. intros m Hm.
    rewrite Z.ldiff_spec, Z.pow2_bits_eqb, Z.bits_0 by lia.
    destruct (Z.eqb_spec n m) as [<-|]; [|reflexivity].
    rewrite Z.ones_spec_low by lia. reflexivity. }
  rewrite Hmask. unfold Z.clearbit. rewrite Z.shiftl_1_l.
  apply Z.bits_inj'. intros m Hm.
  rewrite Z.land_spec, !Z.ldiff_spec.
  destruct (Z.lt_ge_cases m w) as [Hlt|Hge].
  - rewrite Z.ones_spec_low by lia. reflexivity.
  - rewrite (testbit_above a w m) by assumption. reflexivity.
Qed.

(** Where the mask is exact, it is bit [n], and its complement is every
    other bit of the bitmap. *)
Lemma interface_bit_exact n :
  0 <= n < claimed_interfaces_bits -> mask_exact n ->
  exists bit,
    interface_bit n = Some bit /\
    to_bitmap bit = 2 ^ n /\
    to_bitmap (Z.lnot bit) = 2 ^ claimed_interfaces_bits - 1 - 2 ^ n.
Proof.
  intros Hn Hex. unfold mask_exact, CInt.int_bits in Hex.
  pose proof claimed_interfaces_bits_range as Hw.
  unfold interface_bit, to_bitmap, CInt.to_unsigned, CInt.int_bits.
  assert (Hlt : n < 32) by lia.
  replace ((0 <=? n) && (n <? 32)) with true
    by (symmetry; apply andb_true_iff; split; lia).
  eexists. split; [reflexivity|].
  rewrite Z.shiftl_1_l.
  assert (H32 : 2 ^ 32 <= 2 ^ claimed_interfaces_bits)
    by (apply Z.pow_le_mono_r; lia).
  destruct (Z.eq_dec n 31) as [->|Hne].
  - assert (Hw32 : claimed_interfaces_bits = 32) by lia.
    rewrite Hw32. split; reflexivity.
  - assert (Hp : 0 < 2 ^ n <= 2 ^ 30).
    { split; [apply Z.pow_pos_nonneg; lia|].
      apply Z.pow_le_mono_r; lia. }
    rewrite CIntFacts.to_int_id by lia.
    split.
    + apply Z.mod_small. lia.
    + unfold Z.lnot, Z.pred.
      rewrite <- (Z_mod_plus_full _ 1 (2 ^ claimed_interfaces_bits)).
      rewrite Z.mod_small by lia. lia.
Qed.

End Interfaces.

(** C10. For an interface number [n] (an [int]), each of
    [libusb_claim_interface], [libusb_release_interface] and
    [libusb_set_interface_alt_setting] returns LIBUSB_ERROR_INVALID_PARAM
    with the state untouched (no lock taken, so the bitmap is neither read
    nor written, and no backend call logged) if and only if [n] is outside
    [0 <= n < width of the bitmap]; in particular for every negative [n]. *)
Theorem interface_number_guard
    {hdr : libusb_headers} {cenv : core_environment}
    (h : nat) (n alt : Z) (st : core_state) :
  - 2 ^ 31 <= n < 2 ^ 31 ->
  (libusb_claim_interface h n st = Some (LIBUSB_ERROR_INVALID_PARAM, st)
   <-> n < 0 \/ claimed_interfaces_bits <= n) /\
  (libusb_release_interface h n st = Some (LIBUSB_ERROR_INVALID_PARAM, st)
   <-> n < 0 \/ claimed_interfaces_bits <= n) /\
  (libusb_set_interface_alt_setting h n alt st
   = Some (LIBUSB_ERROR_INVALID_PARAM, st)
   <-> n < 0 \/ claimed_interfaces_bits <= n) /\
  (n < 0 ->
   libusb_claim_interface h n st = Some (LIBUSB_ERROR_INVALID_PARAM, st) /\
   libusb_release_interface h n st = Some (LIBUSB_ERROR_INVALID_PARAM, st) /\
   libusb_set_interface_alt_setting h n alt st
   = Some (LIBUSB_ERROR_INVALID_PARAM, st)).
Proof.
  intros Hn.
  pose proof (interface_out_of_range_spec n Hn) as Hspec.
  assert (Hc : libusb_claim_interface h n st
               = Some (LIBUSB_ERROR_INVALID_PARAM, st)
               <-> n < 0 \/ claimed_interfaces_bits <= n).
  { rewrite <- Hspec. split.
    - intros H. destruct (interface_out_of_range n) eqn:Hg; [reflexivity|].
      pose proof (claim_logs _ _ _ _ _ Hg H). lia.
    - intros Hg. unfold libusb_claim_interface. by rewrite Hg. }
  assert (Hr : libusb_release_interface h n st
               = Some (LIBUSB_ERROR_INVALID_PARAM, st)
               <-> n < 0 \/ claimed_interfaces_bits <= n).
  { rewrite <- Hspec. split.
    - intros H. destruct (interface_out_of_range n) eqn:Hg; [reflexivity|].
      pose proof (release_logs _ _ _ _ _ Hg H). lia.
    - intros Hg. unfold libusb_release_interface. by rewrite Hg. }
  assert (Ha : libusb_set_interface_alt_setting h n alt st
               = Some (LIBUSB_ERROR_INVALID_PARAM, st)
               <-> n < 0 \/ claimed_interfaces_bits <= n).
  { rewrite <- Hspec. split.
    - intros H. destruct (interface_out_of_range n) eqn:Hg; [reflexivity|].
      pose proof (set_alt_logs _ _ _ _ _ _ Hg H). lia.
    - intros Hg. unfold libusb_set_interface_alt_setting. by rewrite Hg. }
  split; [exact Hc|]. split; [exact Hr|]. split; [exact Ha|].
  intros Hneg. split; [apply Hc; by left|].
  split; [apply Hr; by left | apply Ha; by left].
Qed.

Lemma interface_number_guard_witness :
  libusb_claim_interface (hdr := lp64_headers) (cenv := accepting_core_env)
    20 (-1) core_example
  = Some (-2, core_example).
Proof.
  destruct (interface_number_guard (hdr := lp64_headers)
              (cenv := accepting_core_env) 20%nat (-1) 0 core_example)
    as (_ & _ & _ & Hneg).
  - lia.
  - destruct Hneg as [Hclaim _]; [lia|]. exact Hclaim.
Defined.

(** X22. Where the mask [1 << n] is exact, the bitmap follows the backend. For
    an interface number [n] within the bitmap, on a handle whose bitmap fits
    its type: [libusb_claim_interface] with bit [n] set returns 0 having only
    taken and released the lock (no backend call, bitmap unchanged); with bit
    [n] clear it calls the backend once, returns the backend's code, and
    leaves the bitmap with bit [n] set when that code is 0 and unchanged
    otherwise, so bit [n] ends up set exactly when the backend succeeded.
    [libusb_release_interface] with bit [n] clear returns
    LIBUSB_ERROR_NOT_FOUND without calling the backend; with bit [n] set it
    calls the backend once, returns its code, and leaves the bitmap with bit
    [n] cleared when that code is 0 and unchanged otherwise. *)
Theorem claimed_interface_bitmap
    {hdr : libusb_headers} {cenv : core_environment}
    (h : nat) (n : Z) (st : core_state) :
  0 <= n < claimed_interfaces_bits ->
  mask_exact n ->
  0 <= claimed_interfaces (get_handle st h) < 2 ^ claimed_interfaces_bits ->
  (claimed st h n = true ->
   libusb_claim_interface h n st
   = Some (0, core_emit (EvUnlock h) (core_emit (EvLock h) st))) /\
  (claimed st h n = false ->
   exists st',
     libusb_claim_interface h n st
     = Some (backend_claim_interface (core_emit (EvLock h) st) h n, st') /\
     core_trace st'
     = core_trace st ++ [EvLock h; EvClaimInterface h n; EvUnlock h] /\
     claimed_interfaces (get_handle st' h)
     = (if backend_claim_interface (core_emit (EvLock h) st) h n =? 0
        then Z.setbit (claimed_interfaces (get_handle st h)) n
        else claimed_interfaces (get_handle st h)) /\
     (claimed st' h n = true
      <-> backend_claim_interface (core_emit (EvLock h) st) h n = 0)) /\
  (claimed st h n = false ->
   libusb_release_interface h n st
   = Some (LIBUSB_ERROR_NOT_FOUND,
           core_emit (EvUnlock h) (core_emit (EvLock h) st))) /\
  (claimed st h n = true ->
   exists st',
     libusb_release_interface h n st
     = Some (backend_release_interface (core_emit (EvLock h) st) h n, st') /\
     core_trace st'
     = core_trace st ++ [EvLock h; EvReleaseInterface h n; EvUnlock h] /\
     claimed_interfaces (get_handle st' h)
     = (if backend_release_interface (core_emit (EvLock h) st) h n =? 0
        then Z.clearbit (claimed_interfaces (get_handle st h)) n
        else claimed_interfaces (get_handle st h)) /\
     (claimed st' h n = false
      <-> backend_release_interface (core_emit (EvLock h) st) h n = 0)).
Proof.
  intros Hn Hex Hbits.
  destruct (interface_bit_exact n Hn Hex) as (bit & Hbit & Hmask & Hcompl).
  assert (Hint : - 2 ^ 31 <= n < 2 ^ 31).
  { pose proof claimed_interfaces_bits_range. lia. }
  assert (Hg : interface_out_of_range n = false)
    by (by apply interface_in_range_spec).
  unfold claimed.
  set (bits := claimed_interfaces (get_handle st h)) in *.
  assert (Hread : claimed_interfaces (get_handle (core_emit (EvLock h) st) h)
                  = bits) by reflexivity.
  split; [|split; [|split]].
  - intros Hset. unfold libusb_claim_interface.
    rewrite Hg, Hbit, Hread, Hmask, land_pow2_eqb, Hset by lia. reflexivity.
  - intros Hclear. unfold libusb_claim_interface.
    rewrite Hg, Hbit, Hread, Hmask, land_pow2_eqb, Hclear by lia. simpl.
    set (r := backend_claim_interface (core_emit (EvLock h) st) h n).
    eexists. split; [reflexivity|].
    rewrite lor_pow2 by lia.
    destruct (r =? 0) eqn:Hr; simpl.
    + split; [by rewrite <- !app_assoc|].
      unfold get_handle; simpl. rewrite lookup_insert_eq. simpl.
      split; [reflexivity|].
      rewrite Z.setbit_eq by lia. apply Z.eqb_eq in Hr. tauto.
    + split; [by rewrite <- !app_assoc|].
      split; [reflexivity|].
      apply Z.eqb_neq in Hr. split; [|contradiction].
      intros Hb. change (Z.testbit bits n = true) in Hb. congruence.
  - intros Hclear. unfold libusb_release_interface.
    rewrite Hg, Hbit, Hread, Hmask, land_pow2_eqb, Hclear by lia. reflexivity.
  - intros Hset. unfold libusb_release_interface.
    rewrite Hg, Hbit, Hread, Hmask, Hcompl, land_pow2_eqb, Hset by lia. simpl.
    set (r := backend_release_interface (core_emit (EvLock h) st) h n).
    eexists. split; [reflexivity|].
    rewrite land_clear_mask by assumption.
    destruct (r =? 0) eqn:Hr; simpl.
    + split; [by rewrite <- !app_assoc|].
      unfold get_handle; simpl. rewrite lookup_insert_eq. simpl.
      split; [reflexivity|].
      rewrite Z.clearbit_eq by lia. apply Z.eqb_eq in Hr. tauto.
    + split; [by rewrite <- !app_assoc|].
      split; [reflexivity|].
      apply Z.eqb_neq in Hr. split; [|contradiction].
      intros Hb. change (Z.testbit bits n = false) in Hb. congruence.
Qed.

(** On a 32-bit bitmap holding interface 3, claiming interface 31 sets the
    top bit. *)
Lemma claimed_interface_bitmap_witness :
  exists st',
    libusb_claim_interface (hdr := ilp32_headers) (cenv := accepting_core_env)
      20 31 core_example = Some (0, st') /\
    claimed_interfaces (get_handle st' 20) = 2147483656.
Proof.
  destruct (claimed_interface_bitmap (hdr := ilp32_headers)
              (cenv := accepting_core_env) 20%nat 31 core_example)
    as (_ & Hclaim & _).
  - simpl. lia.
  - right. reflexivity.
  - vm_compute. split; congruence.
  - destruct Hclaim as (st' & Heq & _ & Hbits & _); [reflexivity|].
    exists st'. split; [exact Heq|]. rewrite Hbits. reflexivity.
Defined.

(** C7. The bitmap does not follow the backend for every interface number
    the guard lets through. The guard takes the width of the bitmap from
    [sizeof], the mask is the [int] expression [1 << n]: on a 64-bit bitmap
    interface number 40 passes the guard, [1 << 40] has no defined value,
    and claiming interface 40 has no defined outcome (bit 40 is neither the
    bit tested nor the bit set). *)
Remark wide_bitmap_shift_undefined :
  interface_out_of_range (hdr := lp64_headers) 40 = false /\
  interface_bit 40 = None /\
  libusb_claim_interface (hdr := lp64_headers) (cenv := accepting_core_env)
    20 40 core_example = None.
Proof. repeat split. Qed.

(* ===================================================================== *)
(** * Further properties of libusb/io.c *)

(** ** Deadlines *)

Section DeadlineInstant.
Context {env : environment}.

Lemma add_timeout_micros now ms :
  ts_normalized now -> 0 <= ms ->
  tv_micros (TIMESPEC_TO_TIMEVAL (add_timeout now ms))
  = tv_micros (TIMESPEC_TO_TIMEVAL now) + ms * 1000.
Proof.
  unfold ts_normalized. intros Hn Hms.
  pose proof (Z.mod_pos_bound ms 1000 ltac:(lia)) as Hm.
  pose proof (Z.div_mod ms 1000 ltac:(lia)) as Hdm.
  unfold add_timeout, TIMESPEC_TO_TIMEVAL, tv_micros.
  destruct (ts_nsec now + ms mod 1000 * 1000000 >? 1000000000) eqn:E;
    simpl; rewrite !Z.quot_div_nonneg by lia.
  - replace (ts_nsec now + ms mod 1000 * 1000000 - 1000000000)
      with (ts_nsec now + (ms mod 1000 * 1000 - 1000000) * 1000) by lia.
    rewrite Z.div_add by lia. lia.
  - replace (ts_nsec now + ms mod 1000 * 1000000)
      with (ts_nsec now + (ms mod 1000 * 1000) * 1000) by lia.
    rewrite Z.div_add by lia. lia.
Qed.

Lemma add_timeout_set now ms :
  ts_normalized now -> 0 <= ts_sec now -> 0 < ms ->
  timerisset (TIMESPEC_TO_TIMEVAL (add_timeout now ms)) = true.
Proof.
  intros Hn Hs Hms.
  pose proof (add_timeout_micros now ms Hn ltac:(lia)) as Hmic.
  pose proof (add_timeout_usec now ms Hn ltac:(lia)) as Hu.
  assert (0 <= tv_micros (TIMESPEC_TO_TIMEVAL now)).
  { unfold tv_micros, TIMESPEC_TO_TIMEVAL; simpl.
    unfold ts_normalized in Hn. rewrite Z.quot_div_nonneg by lia.
    pose proof (Z.div_pos (ts_nsec now) 1000 ltac:(lia) ltac:(lia)). lia. }
  destruct (timerisset _) eqn:E; [reflexivity|].
  apply timerisset_false in E. rewrite E in Hmic.
  unfold tv_micros at 1, timerclear in Hmic. simpl in Hmic. lia.
Qed.

End DeadlineInstant.

(** X1. The deadline [calculate_timeout] stores for a non-zero timeout is
    the clock reading plus the timeout, to the microsecond, whether or not
    it comes out normalised; it is a set deadline; nothing else of the
    transfer changes, and no other transfer, not the in-flight list and not
    the poll-fd registry is touched; the clock is read once. For a zero
    timeout the clock is not read and nothing changes at all. *)
Theorem calculate_timeout_instant
    {env : environment} (p : nat) (st : io_state) (r : Z) (ts : timespec) :
  clock_gettime st = (r, ts) ->
  0 <= r ->
  ts_normalized ts ->
  0 <= ts_sec ts ->
  0 <= pub_timeout (deref st p) ->
  (0 < pub_timeout (deref st p) ->
   fst (calculate_timeout p st) = 0 /\
   tv_micros (deadline (snd (calculate_timeout p st)) p)
   = tv_micros (TIMESPEC_TO_TIMEVAL ts) + pub_timeout (deref st p) * 1000 /\
   timerisset (deadline (snd (calculate_timeout p st)) p) = true /\
   deref (snd (calculate_timeout p st)) p
   = set_timeout (deadline (snd (calculate_timeout p st)) p) (deref st p) /\
   flying_transfers (snd (calculate_timeout p st)) = flying_transfers st /\
   trace (snd (calculate_timeout p st)) = trace st ++ [EvClock] /\
   pollfds (snd (calculate_timeout p st)) = pollfds st /\
   (forall q, q <> p ->
      heap (snd (calculate_timeout p st)) !! q = heap st !! q)) /\
  (pub_timeout (deref st p) = 0 -> calculate_timeout p st = (0, st)).
Proof.
  intros Hc Hr Hn Hs Hms. split.
  - intros Hpos. unfold calculate_timeout. rewrite Hc.
    replace (pub_timeout (deref st p) =? 0) with false by (symmetry; lia).
    replace (r <? 0) with false by (symmetry; lia).
    simpl. unfold deadline. rewrite deref_store_same. simpl.
    rewrite add_timeout_micros by (assumption || lia).
    rewrite add_timeout_set by assumption.
    repeat split; try reflexivity.
    intros q Hq. by rewrite lookup_insert_ne.
  - intros H0. unfold calculate_timeout. by rewrite H0.
Qed.

(** The failing input of the normalisation: the instant is still right. *)
Lemma calculate_timeout_instant_witness :
  tv_micros
    (deadline
       (snd (calculate_timeout
               (env := scripted_env (fun _ => (0, mk_timespec 10 500000000))
                         (fun _ => (0, 0, (∅, ∅, timerclear)))
                         (fun _ => 0) (fun _ => 0) (fun _ => ([], 0)))
               1 (mk_io {[ 1%nat := a_transfer 500 timerclear 0 ]} [] [] [])))
       1)
  = 11000000.
Proof.
  destruct (calculate_timeout_instant
              (env := scripted_env (fun _ => (0, mk_timespec 10 500000000))
                        (fun _ => (0, 0, (∅, ∅, timerclear)))
                        (fun _ => 0) (fun _ => 0) (fun _ => ([], 0)))
              1%nat (mk_io {[ 1%nat := a_transfer 500 timerclear 0 ]} [] [] [])
              0 (mk_timespec 10 500000000)) as [Hpos _].
  - reflexivity.
  - lia.
  - unfold ts_normalized; simpl; lia.
  - simpl; lia.
  - vm_compute; congruence.
  - destruct Hpos as (_ & Hmic & _); [vm_compute; reflexivity|].
    rewrite Hmic. reflexivity.
Defined.

(** ** Submission *)

Section Submission.
Context {env : environment}.

Lemma insert_by_timeout_splits st p tv l :
  exists pre post,
    l = pre ++ post /\ insert_by_timeout st p tv l = pre ++ p :: post.
Proof.
  induction l as [|cur rest (pre & post & Hl & Hi)]; simpl.
  - by exists [], [].
  - destruct (_ || _).
    + by exists [], (cur :: rest).
    + exists (cur :: pre), post. simpl. by rewrite Hi, <- Hl.
Qed.

Lemma add_to_flying_list_splits p st :
  exists pre post,
    flying_transfers st = pre ++ post /\
    flying_transfers (add_to_flying_list p st) = pre ++ p :: post.
Proof.
  unfold add_to_flying_list.
  destruct (flying_transfers st) as [|x l] eqn:E.
  - by exists [], [].
  - destruct (negb (timerisset (timeout (deref st p)))).
    + exists (x :: l), []. simpl. by rewrite app_nil_r.
    + apply insert_by_timeout_splits.
Qed.

Lemma calculate_timeout_code p st : fst (calculate_timeout p st) <= 0.
Proof.
  unfold calculate_timeout.
  destruct (pub_timeout (deref st p) =? 0); [simpl; lia|].
  destruct (clock_gettime st) as [r ts].
  destruct (r <? 0) eqn:E; simpl; lia.
Qed.

End Submission.

(** X2. What [libusb_submit_transfer] does to the scheduler and to the
    transfer, for a transfer that is not in flight (a transfer still linked
    must not be submitted: the list node would be linked twice). It returns
    0 or a negative code. On 0 the transfer has been inserted once, the
    transfers already in flight keeping their places, so that a list
    without repeated entries stays one; on a negative code the in-flight
    list is as before. Either way the byte count of the transfer is reset
    to 0 while its engine flags and its user fields stay as they were (a
    TIMED_OUT latch from an earlier run survives resubmission), and no
    other transfer is touched. *)
Theorem submit_transfer_outcome
    {env : environment} (p : nat) (st : io_state) :
  ~ In p (flying_transfers st) ->
  fst (libusb_submit_transfer p st) <= 0 /\
  (fst (libusb_submit_transfer p st) = 0 ->
   exists pre post,
     flying_transfers st = pre ++ post /\
     flying_transfers (snd (libusb_submit_transfer p st)) = pre ++ p :: post /\
     ~ In p pre /\ ~ In p post /\
     (NoDup (flying_transfers st) ->
      NoDup (flying_transfers (snd (libusb_submit_transfer p st))))) /\
  (fst (libusb_submit_transfer p st) < 0 ->
   flying_transfers (snd (libusb_submit_transfer p st)) = flying_transfers st) /\
  transferred (deref (snd (libusb_submit_transfer p st)) p) = 0 /\
  flags (deref (snd (libusb_submit_transfer p st)) p) = flags (deref st p) /\
  pub_flags (deref (snd (libusb_submit_transfer p st)) p)
  = pub_flags (deref st p) /\
  pub_timeout (deref (snd (libusb_submit_transfer p st)) p)
  = pub_timeout (deref st p) /\
  pub_status (deref (snd (libusb_submit_transfer p st)) p)
  = pub_status (deref st p) /\
  (forall q, q <> p ->
     heap (snd (libusb_submit_transfer p st)) !! q = heap st !! q).
Proof.
  intros Hnotin.
  assert (Hlinked : forall pre post l',
            flying_transfers st = pre ++ post -> l' = pre ++ p :: post ->
            ~ In p pre /\ ~ In p post /\
            (NoDup (flying_transfers st) -> NoDup l')).
  { intros pre post l' Hs ->. rewrite Hs in Hnotin.
    assert (Hpre : ~ In p pre)
      by (intros H; apply Hnotin, in_app_iff; by left).
    assert (Hpost : ~ In p post)
      by (intros H; apply Hnotin, in_app_iff; by right).
    split; [exact Hpre|]. split; [exact Hpost|].
    rewrite Hs. intros Hnd. apply NoDup_app in Hnd as (Hn1 & Hn2 & Hn3).
    apply NoDup_app. split; [exact Hn1|]. split.
    - intros x Hx Hin. apply elem_of_cons in Hin as [->|Hin].
      + apply Hpre. by apply list_elem_of_In.
      + by apply (Hn2 x).
    - apply NoDup_cons. split; [|exact Hn3].
      intros Hin. apply Hpost. by apply list_elem_of_In. }
  unfold libusb_submit_transfer.
  set (st0 := store p (set_transferred 0 (deref st p)) st).
  assert (Hfly0 : flying_transfers st0 = flying_transfers st) by reflexivity.
  pose proof (calculate_timeout_code p st0) as Hcode.
  pose proof (calculate_timeout_flying p st0) as Hfly1.
  assert (Hobj : exists tv,
             deref (snd (calculate_timeout p st0)) p
             = set_timeout tv (set_transferred 0 (deref st p))).
  { unfold calculate_timeout.
    destruct (pub_timeout (deref st0 p) =? 0).
    - exists (timeout (deref st p)). simpl. subst st0.
      rewrite deref_store_same. by destruct (deref st p).
    - destruct (clock_gettime st0) as [r ts].
      destruct (r <? 0); simpl.
      + exists (timeout (deref st p)). subst st0.
        rewrite deref_emit, deref_store_same. by destruct (deref st p).
      + eexists. rewrite deref_store_same. subst st0.
        rewrite deref_emit, deref_store_same. reflexivity. }
  assert (Hother : forall q, q <> p ->
             heap (snd (calculate_timeout p st0)) !! q = heap st !! q).
  { intros q Hq. unfold calculate_timeout.
    destruct (pub_timeout (deref st0 p) =? 0).
    - simpl. by rewrite lookup_insert_ne.
    - destruct (clock_gettime st0) as [r ts].
      destruct (r <? 0); simpl; by rewrite ?lookup_insert_ne. }
  destruct (calculate_timeout p st0) as [r st1]. simpl in *.
  destruct Hobj as [tv Hobj].
  destruct (r <? 0) eqn:Hr.
  - simpl. rewrite Hobj. simpl.
    split; [lia|]. split; [intros ->; discriminate|].
    split; [intros _; congruence|].
    repeat split; try reflexivity. exact Hother.
  - assert (r = 0) by lia. subst r.
    unfold submit_transfer.
    destruct (backend_submit_transfer st1 p <? 0) eqn:Hb; simpl.
    + split; [lia|]. split; [lia|].
      split; [intros _; congruence|].
      rewrite deref_emit, Hobj. simpl.
      repeat split; try reflexivity. exact Hother.
    + split; [lia|].
      split.
      { intros _.
        destruct (add_to_flying_list_splits p (emit (EvSubmit p) st1))
          as (pre & post & Hs & Hi).
        exists pre, post.
        assert (Hs' : flying_transfers st = pre ++ post)
          by (simpl in Hs; congruence).
        split; [exact Hs'|]. split; [exact Hi|].
        by apply (Hlinked pre post). }
      split; [lia|].
      assert (Hd : forall q,
                 deref (add_to_flying_list p (emit (EvSubmit p) st1)) q
                 = deref st1 q).
      { intros q. unfold deref. by rewrite add_to_flying_list_heap. }
      rewrite Hd, Hobj. simpl.
      repeat split; try reflexivity.
      intros q Hq. rewrite add_to_flying_list_heap. simpl. by apply Hother.
Qed.

(** Transfer 1 of scenario S5 is submitted with nothing in flight. *)
Lemma submit_transfer_outcome_witness :
  flying_transfers (snd (libusb_submit_transfer (env := S5_env) 1 S5_state))
  = [1%nat].
Proof.
  destruct (submit_transfer_outcome (env := S5_env) 1%nat S5_state)
    as (_ & Hlink & _).
  - simpl. tauto.
  - destruct Hlink as (pre & post & Hs & -> & _); [reflexivity|].
    simpl in Hs. symmetry in Hs. apply app_eq_nil in Hs as [-> ->].
    reflexivity.
Defined.


(** ** The sweep and the latch *)

Section Latch.
Context {hdr : libusb_headers} {env : environment}.

Lemma latched_handle_timeout_same p st : latched (handle_timeout p st) p = true.
Proof.
  rewrite handle_timeout_eq. unfold latched.
  rewrite deref_emit, deref_store_same. simpl.
  apply CIntFacts.test_set_same, TIMED_OUT_nonzero.
Qed.

Lemma latched_handle_timeout_other p q st :
  q <> p -> latched (handle_timeout p st) q = latched st q.
Proof.
  intros Hne. rewrite handle_timeout_eq. unfold latched.
  by rewrite deref_emit, deref_store_other by congruence.
Qed.

Lemma latched_handle_timeout_keeps p q st :
  latched st q = true -> latched (handle_timeout p st) q = true.
Proof.
  intros H. destruct (decide (q = p)) as [->|Hne].
  - apply latched_handle_timeout_same.
  - by rewrite latched_handle_timeout_other.
Qed.

Lemma handle_timeouts_loop_cancels now l st q :
  exists evs,
    trace (handle_timeouts_loop now l st) = trace st ++ evs /\
    (cancel_count q evs <= 1)%nat /\
    (latched st q = true -> cancel_count q evs = 0%nat) /\
    (latched st q = true ->
     latched (handle_timeouts_loop now l st) q = true).
Proof.
  revert st. induction l as [|p rest IH]; intros st.
  { exists []. simpl. rewrite app_nil_r. repeat split; auto. }
  simpl. fold (latched st p).
  destruct (negb (timerisset (timeout (deref st p)))).
  { exists []. rewrite app_nil_r. repeat split; auto. }
  destruct (latched st p) eqn:Hp; [apply IH|].
  destruct (_ || _).
  { exists []. rewrite app_nil_r. repeat split; auto. }
  destruct (IH (handle_timeout p st)) as (evs & Ht & Hle & Hzero & Hkeep).
  exists (EvCancel p :: evs).
  split.
  { rewrite Ht, handle_timeout_eq. simpl. by rewrite <- app_assoc. }
  unfold cancel_count in *.
  destruct (decide (p = q)) as [->|Hne].
  - rewrite count_occ_cons_eq by reflexivity.
    rewrite (Hzero (latched_handle_timeout_same q st)).
    split; [lia|]. split; [congruence|].
    intros _. apply Hkeep, latched_handle_timeout_same.
  - rewrite count_occ_cons_neq by congruence.
    split; [exact Hle|].
    split; intros Hq; [apply Hzero | apply Hkeep];
      by apply latched_handle_timeout_keeps.
Qed.

Lemma due_handle_timeout_other now p q st :
  q <> p -> due now (handle_timeout p st) q = due now st q.
Proof.
  intros Hne. unfold due, deadline.
  rewrite latched_handle_timeout_other by assumption.
  rewrite handle_timeout_eq, deref_emit.
  by rewrite deref_store_other by congruence.
Qed.

(** On a list without repeated entries the loop cancels due entries
    only. *)
Lemma handle_timeouts_loop_sound now l st :
  NoDup l ->
  exists evs,
    trace (handle_timeouts_loop now l st) = trace st ++ evs /\
    forall e, In e evs ->
      exists q, e = EvCancel q /\ In q l /\ due now st q = true.
Proof.
  revert st. induction l as [|p rest IH]; intros st Hnd.
  { exists []. simpl. rewrite app_nil_r. split; [reflexivity|].
    intros e []. }
  apply NoDup_cons in Hnd as [Hp Hnd]. rewrite list_elem_of_In in Hp.
  simpl. fold (latched st p).
  destruct (negb (timerisset (timeout (deref st p)))) eqn:Hset.
  { exists []. rewrite app_nil_r. split; [reflexivity|]. intros e []. }
  destruct (latched st p) eqn:Hl.
  { destruct (IH st Hnd) as (evs & Ht & Hs). exists evs.
    split; [exact Ht|]. intros e He.
    destruct (Hs e He) as (q & -> & Hq & Hdue).
    exists q. split; [reflexivity|]. split; [by right | exact Hdue]. }
  destruct (_ || _) eqn:Hafter.
  { exists []. rewrite app_nil_r. split; [reflexivity|]. intros e []. }
  destruct (IH (handle_timeout p st) Hnd) as (evs & Ht & Hs).
  exists (EvCancel p :: evs).
  split.
  { rewrite Ht, handle_timeout_eq. simpl. by rewrite <- app_assoc. }
  intros e [<-|He].
  - exists p. split; [reflexivity|]. split; [by left|].
    unfold due, expired, tv_after, deadline. rewrite Hl, Hafter.
    apply negb_false_iff in Hset. by rewrite Hset.
  - destruct (Hs e He) as (q & -> & Hq & Hdue).
    exists q. split; [reflexivity|]. split; [by right|].
    rewrite due_handle_timeout_other in Hdue; [exact Hdue|].
    intros ->. contradiction.
Qed.

End Latch.

(** X3. In one timeout sweep over an in-flight list without repeated
    entries (ordered or not), the backend is asked to cancel any given
    transfer at most once, and never a transfer that is already latched
    TIMED_OUT; a latch that is set stays set. Every transfer it is asked to
    cancel is in flight and was due at the time the clock showed: deadline
    set, not after that time, not latched. *)
Theorem sweep_cancels_at_most_once
    {hdr : libusb_headers} {env : environment} (st : io_state) (q : nat) :
  NoDup (flying_transfers st) ->
  (cancel_count q (new_events st (snd (handle_timeouts st))) <= 1)%nat /\
  (latched st q = true ->
   cancel_count q (new_events st (snd (handle_timeouts st))) = 0%nat) /\
  (latched st q = true -> latched (snd (handle_timeouts st)) q = true) /\
  (In (EvCancel q) (new_events st (snd (handle_timeouts st))) ->
   In q (flying_transfers st) /\
   due (TIMESPEC_TO_TIMEVAL (snd (clock_gettime st))) st q = true).
Proof.
  intros Hnd. unfold handle_timeouts.
  destruct (flying_transfers st) as [|x l] eqn:Hfl.
  { cbn [snd]. unfold new_events. rewrite drop_all.
    split; [unfold cancel_count; simpl; lia|].
    split; [auto|]. split; [auto|]. intros []. }
  destruct (clock_gettime st) as [r ts].
  destruct (r <? 0); cbn [snd].
  { rewrite (new_events_app st _ [EvClock]) by reflexivity.
    split; [unfold cancel_count; simpl; lia|].
    split; [auto|]. split; [auto|].
    intros [H|[]]. discriminate. }
  destruct (handle_timeouts_loop_cancels (TIMESPEC_TO_TIMEVAL ts)
              (flying_transfers (emit EvClock st))
              (emit EvClock st) q) as (evs & Ht & Hle & Hzero & Hkeep).
  destruct (handle_timeouts_loop_sound (TIMESPEC_TO_TIMEVAL ts)
              (flying_transfers (emit EvClock st)) (emit EvClock st))
    as (evs' & Ht' & Hsound).
  { cbn [flying_transfers emit]. by rewrite Hfl. }
  assert (evs' = evs) as -> by (rewrite Ht in Ht'; by apply app_inv_head in Ht').
  cbn [trace emit] in Ht. rewrite <- app_assoc in Ht. cbn [app] in Ht.
  rewrite (new_events_app _ _ _ Ht).
  unfold cancel_count in *.
  rewrite count_occ_cons_neq by discriminate.
  split; [exact Hle|]. split; [exact Hzero|]. split; [exact Hkeep|].
  intros [H|Hin]; [discriminate|].
  destruct (Hsound _ Hin) as (q' & [= <-] & Hq & Hdue).
  cbn [flying_transfers emit] in Hq. rewrite Hfl in Hq.
  split; [exact Hq | exact Hdue].
Qed.

(** The sweep of the four transfers at 100 s: transfer 1, latched and long
    overdue, is left alone; transfer 2 is cancelled once. *)
Lemma sweep_cancels_at_most_once_witness :
  cancel_count 1
    (new_events sweep_state
       (snd (handle_timeouts (hdr := lp64_headers) (env := S5_env)
               sweep_state)))
  = 0%nat.
Proof.
  apply (sweep_cancels_at_most_once (hdr := lp64_headers) (env := S5_env)
           sweep_state 1%nat).
  - simpl. solve_NoDup.
  - reflexivity.
Defined.

(** ** The next timeout *)

Lemma timercmp_ge_micros a b :
  tv_normalized a -> tv_normalized b ->
  timercmp_ge a b = true <-> tv_micros b <= tv_micros a.
Proof.
  unfold tv_normalized, timercmp_ge, tv_micros. intros Ha Hb.
  destruct (tv_sec a =? tv_sec b) eqn:E.
  - apply Z.eqb_eq in E. rewrite Z.geb_le. lia.
  - apply Z.eqb_neq in E. rewrite Z.geb_le. lia.
Qed.

(** X4. With a nearest deadline [d] in the scheduler and the clock readable,
    [libusb_get_next_timeout] returns 1 and writes the time left until [d]:
    a normalised timeval worth exactly [d - now] microseconds, or zero when
    [d] has passed. Without a nearest deadline (nothing in flight, every
    transfer latched, or the first unlatched one without deadline) it returns
    0, writes nothing and does not read the clock. *)
Theorem next_timeout_remaining
    {hdr : libusb_headers} {env : environment}
    (st : io_state) (d : timeval) (r : Z) (ts : timespec) :
  clock_gettime st = (r, ts) ->
  0 <= r ->
  ts_normalized ts ->
  (nearest_deadline st = Some d ->
   tv_normalized d ->
   exists tv,
     libusb_get_next_timeout st = (1, Some tv, emit EvClock st) /\
     tv_normalized tv /\
     tv_micros tv
     = Z.max 0 (tv_micros d - tv_micros (TIMESPEC_TO_TIMEVAL ts)) /\
     (timerisset tv = false
      <-> tv_micros d <= tv_micros (TIMESPEC_TO_TIMEVAL ts))) /\
  (nearest_deadline st = None ->
   libusb_get_next_timeout st = (0, None, st)).
Proof.
  intros Hc Hr Hts. split; [|apply get_next_timeout_none].
  intros Hd Hdn.
  pose proof (TIMESPEC_TO_TIMEVAL_normalized ts Hts) as Hnow.
  rewrite (get_next_timeout_some st d r ts Hd Hc Hr).
  pose proof (timercmp_ge_micros _ _ Hnow Hdn) as Hge.
  destruct (timercmp_ge (TIMESPEC_TO_TIMEVAL ts) d) eqn:E.
  - exists timerclear. split; [reflexivity|].
    assert (tv_micros d <= tv_micros (TIMESPEC_TO_TIMEVAL ts)) by (by apply Hge).
    split; [unfold tv_normalized; simpl; lia|].
    split; [unfold tv_micros at 1; simpl; lia|].
    split; [by intros _ | reflexivity].
  - exists (timersub d (TIMESPEC_TO_TIMEVAL ts)). split; [reflexivity|].
    assert (~ tv_micros d <= tv_micros (TIMESPEC_TO_TIMEVAL ts)).
    { intros H. apply Hge in H. congruence. }
    split; [by apply timersub_normalized|].
    split; [rewrite timersub_micros; lia|].
    rewrite timersub_set; [| exact Hnow | unfold tv_normalized in Hdn; lia
                           | exact E].
    split; [discriminate | contradiction].
Qed.

Lemma next_timeout_remaining_witness :
  libusb_get_next_timeout (hdr := lp64_headers) (env := S5_env) pending_state
  = (1, Some (mk_timeval 0 500000), emit EvClock pending_state).
Proof.
  destruct (next_timeout_remaining (hdr := lp64_headers) (env := S5_env)
              pending_state (mk_timeval 100 500000) 0 (mk_timespec 100 0))
    as [Hsome _].
  - reflexivity.
  - lia.
  - unfold ts_normalized; simpl; lia.
  - destruct Hsome as (tv & Heq & _).
    + vm_compute. reflexivity.
    + unfold tv_normalized; simpl; lia.
    + rewrite Heq. vm_compute in Heq. congruence.
Defined.

(** ** Return codes and what the event loop logs *)

Section LoopCodes.
Context {hdr : libusb_headers} {env : environment}.

Lemma handle_timeouts_code st : fst (handle_timeouts st) <= 0.
Proof.
  unfold handle_timeouts.
  destruct (flying_transfers st); [simpl; lia|].
  destruct (clock_gettime st) as [r ts].
  destruct (r <? 0) eqn:E; simpl; lia.
Qed.

Lemma poll_io_select_code tv sel_tv st :
  fst (fst (poll_io_select tv sel_tv st)) <= 0.
Proof.
  unfold poll_io_select.
  destruct (build_fdsets (pollfds st)) as [[maxfd rd] wr].
  destruct (select st (maxfd + 1) rd wr sel_tv)
    as [[r errno] [[rd' wr'] remaining]].
  destruct (r =? 0).
  { match goal with
    | |- context [handle_timeouts ?s] =>
        pose proof (handle_timeouts_code s) as H;
        destruct (handle_timeouts s) as [r' st2]
    end. exact H. }
  destruct ((r =? -1) && (errno =? EINTR)); [simpl; lia|].
  destruct (r <? 0) eqn:Hr; [simpl; lia|].
  destruct (backend_handle_events _ _ _) as [actions r'].
  destruct (r' <? 0) eqn:Hr'; [simpl; lia|].
  match goal with
  | |- context [handle_timeouts ?s] =>
      pose proof (handle_timeouts_code s) as H;
      destruct (handle_timeouts s) as [r'' st3]
  end. exact H.
Qed.

Lemma poll_io_code tv st : fst (fst (poll_io tv st)) <= 0.
Proof.
  unfold poll_io.
  destruct (libusb_get_next_timeout st) as [[r written] st1].
  destruct (negb (r =? 0)); [|apply poll_io_select_code].
  destruct (negb (timerisset _)).
  - pose proof (handle_timeouts_code st1) as H.
    destruct (handle_timeouts st1) as [r' st2]. exact H.
  - destruct (timercmp_lt _ tv); apply poll_io_select_code.
Qed.

Lemma libusb_poll_code st : fst (libusb_poll st) <= 0.
Proof.
  unfold libusb_poll. pose proof (poll_io_code (mk_timeval 2 0) st) as H.
  destruct (poll_io (mk_timeval 2 0) st) as [[r tv'] st']. exact H.
Qed.

Lemma cancel_sync_loop_code fuel p st r st' :
  cancel_sync_loop fuel p st = Some (r, st') -> r <= 0.
Proof.
  revert st. induction fuel as [|fuel IH]; intros st; simpl;
    destruct (CInt.test _ _); try discriminate;
    try (intros [= <- _]; lia).
  pose proof (libusb_poll_code st) as Hp.
  destruct (libusb_poll st) as [r1 st1]. simpl in Hp.
  destruct (r1 <? 0) eqn:E; [|apply IH].
  intros [= <- _]. lia.
Qed.

(** What the event loop logs, given what the backend may report. *)
Lemma log_grows_backend_actions_within P l st :
  Forall (action_logs_within P) l ->
  log_grows P st (run_backend_actions l st).
Proof.
  revert st. induction l as [|a l IH]; intros st Hl;
    [apply log_grows_refl|].
  apply Forall_cons in Hl as [Ha Hl].
  simpl. eapply log_grows_trans; [|by apply IH].
  destruct a as [p n|p|p s|p]; simpl in *.
  - by apply log_grows_same.
  - by apply log_grows_same.
  - destruct Ha as (Hcb & Hfb & Hf). by apply log_grows_completion.
  - destruct Ha as (Hcb & Hfb & Hf). by apply log_grows_cancellation.
Qed.

Lemma log_grows_poll_io_select P tv sel_tv st :
  P EvClock = true -> (forall p, P (EvCancel p) = true) ->
  (forall n rd wr t, P (EvSelect n rd wr t) = true) ->
  (forall rd wr, P (EvHandleEvents rd wr) = true) ->
  (forall sx rd wr,
     Forall (action_logs_within P) (fst (backend_handle_events sx rd wr))) ->
  log_grows P st (snd (poll_io_select tv sel_tv st)).
Proof.
  intros Hclock Hcancel Hsel Hhe Hact. unfold poll_io_select.
  destruct (build_fdsets (pollfds st)) as [[maxfd rd] wr].
  destruct (select st (maxfd + 1) rd wr sel_tv)
    as [[r errno] [[rd' wr'] remaining]].
  match goal with
  | |- context [handle_timeouts (emit ?e st)] =>
      set (st1 := emit e st);
      assert (H1 : log_grows P st st1) by (apply log_grows_emit, Hsel)
  end.
  destruct (r =? 0).
  { pose proof (log_grows_handle_timeouts P st1 Hclock Hcancel) as H.
    destruct (handle_timeouts st1) as [r' st2].
    eapply log_grows_trans; eassumption. }
  destruct ((r =? -1) && (errno =? EINTR)); [exact H1|].
  destruct (r <? 0); [exact H1|].
  pose proof (Hact st1
                match rd with Some _ => Some rd' | None => None end
                match wr with Some _ => Some wr' | None => None end) as Ha.
  destruct (backend_handle_events st1 _ _) as [actions r'].
  simpl in Ha.
  match goal with
  | |- context [run_backend_actions actions (emit ?e st1)] =>
      set (st2 := run_backend_actions actions (emit e st1));
      assert (H2 : log_grows P st st2)
        by (apply (log_grows_trans _ _ st1); [exact H1|];
            apply (log_grows_trans _ _ (emit e st1));
            [apply log_grows_emit, Hhe
            | by apply log_grows_backend_actions_within])
  end.
  destruct (r' <? 0); [exact H2|].
  pose proof (log_grows_handle_timeouts P st2 Hclock Hcancel) as H.
  destruct (handle_timeouts st2) as [r'' st3].
  eapply log_grows_trans; eassumption.
Qed.

Lemma log_grows_get_next_timeout P st :
  P EvClock = true -> log_grows P st (snd (libusb_get_next_timeout st)).
Proof.
  intros Hclock. unfold libusb_get_next_timeout.
  destruct (flying_transfers st); [apply log_grows_refl|].
  destruct (List.find _ _) as [q|]; [|apply log_grows_refl].
  destruct (negb (timerisset (timeout (deref st q))));
    [apply log_grows_refl|].
  destruct (clock_gettime st) as [r ts].
  destruct (r <? 0); [by apply log_grows_emit|].
  destruct (timercmp_ge _ _); by apply log_grows_emit.
Qed.

Lemma log_grows_poll_io P tv st :
  P EvClock = true -> (forall p, P (EvCancel p) = true) ->
  (forall n rd wr t, P (EvSelect n rd wr t) = true) ->
  (forall rd wr, P (EvHandleEvents rd wr) = true) ->
  (forall sx rd wr,
     Forall (action_logs_within P) (fst (backend_handle_events sx rd wr))) ->
  log_grows P st (snd (poll_io tv st)).
Proof.
  intros Hclock Hcancel Hsel Hhe Hact. unfold poll_io.
  pose proof (log_grows_get_next_timeout P st Hclock) as H0.
  destruct (libusb_get_next_timeout st) as [[r written] st1].
  simpl in H0.
  assert (Hs : forall t, log_grows P st (snd (poll_io_select tv t st1))).
  { intros t. eapply log_grows_trans; [exact H0|].
    by apply log_grows_poll_io_select. }
  destruct (negb (r =? 0)); [|apply Hs].
  destruct (negb (timerisset _)).
  - pose proof (log_grows_handle_timeouts P st1 Hclock Hcancel) as H.
    destruct (handle_timeouts st1) as [r' st2].
    eapply log_grows_trans; eassumption.
  - destruct (timercmp_lt _ tv); apply Hs.
Qed.

End LoopCodes.

(** X5. One round of the event loop never returns a positive code: 0, or
    the negative code of the clock, of [select] or of the backend's event
    handler. The same holds for [libusb_poll] and for whatever
    [libusb_cancel_transfer_sync] returns. *)
Theorem event_loop_codes
    {hdr : libusb_headers} {env : environment}
    (tv : timeval) (st : io_state) (fuel p : nat) :
  fst (fst (poll_io tv st)) <= 0 /\
  fst (libusb_poll st) <= 0 /\
  (forall r st',
     libusb_cancel_transfer_sync fuel p st = Some (r, st') -> r <= 0).
Proof.
  split; [apply poll_io_code|]. split; [apply libusb_poll_code|].
  intros r st'. unfold libusb_cancel_transfer_sync.
  destruct (backend_cancel_transfer st p <? 0) eqn:E.
  - intros [= <- _]. lia.
  - apply cancel_sync_loop_code.
Qed.

(** ** Who links and who delinks *)

Section Linkage.
Context {hdr : libusb_headers} {env : environment}.

Lemma completion_flying p status st :
  flying_transfers (usbi_handle_transfer_completion p status st)
  = flying_transfers st.
Proof.
  destruct (decide (status = LIBUSB_TRANSFER_SILENT_COMPLETION)) as [->|Hs].
  - by rewrite completion_silent.
  - by rewrite completion_publishes.
Qed.

Lemma cancellation_flying p st :
  flying_transfers (usbi_handle_transfer_cancellation p st)
  = flying_transfers st.
Proof.
  unfold usbi_handle_transfer_cancellation.
  destruct (CInt.test (flags (deref st p)) USBI_TRANSFER_SYNC_CANCELLED).
  - by rewrite completion_flying.
  - destruct (CInt.test (flags (deref st p)) USBI_TRANSFER_TIMED_OUT);
      by rewrite completion_flying.
Qed.

Lemma handle_timeouts_loop_flying now l st :
  flying_transfers (handle_timeouts_loop now l st) = flying_transfers st.
Proof.
  revert st. induction l as [|p rest IH]; intros st; [reflexivity|].
  simpl. destruct (negb _); [reflexivity|].
  destruct (CInt.test _ _); [apply IH|].
  destruct (_ || _); [reflexivity|].
  rewrite IH. reflexivity.
Qed.

Lemma handle_timeouts_flying st :
  flying_transfers (snd (handle_timeouts st)) = flying_transfers st.
Proof.
  unfold handle_timeouts.
  destruct (flying_transfers st) eqn:E; [exact E|].
  destruct (clock_gettime st) as [r ts].
  destruct (r <? 0); cbn [snd]; [exact E|].
  rewrite handle_timeouts_loop_flying. exact E.
Qed.

Lemma get_next_timeout_flying st :
  flying_transfers (snd (libusb_get_next_timeout st)) = flying_transfers st.
Proof.
  unfold libusb_get_next_timeout.
  destruct (flying_transfers st) eqn:E; [exact E|].
  destruct (List.find _ _) as [q|]; [|exact E].
  destruct (negb (timerisset (timeout (deref st q)))); [exact E|].
  destruct (clock_gettime st) as [r ts].
  destruct (r <? 0); [exact E|].
  destruct (timercmp_ge _ _); exact E.
Qed.

Lemma list_del_keeps p q l : q <> p -> In p l -> In p (list_del q l).
Proof.
  intros Hne. induction l as [|x l IH]; simpl; [tauto|].
  destruct (decide (x = q)) as [->|Hx]; simpl; intuition congruence.
Qed.

(** The backend's actions only ever shorten the list, and only by
    [list_del]. *)
Lemma backend_actions_flying l st :
  (forall q, In q (flying_transfers (run_backend_actions l st)) ->
     In q (flying_transfers st)) /\
  (forall p, forallb (fun a => negb (delinks p a)) l = true ->
     In p (flying_transfers st) ->
     In p (flying_transfers (run_backend_actions l st))).
Proof.
  revert st. induction l as [|a l IH]; intros st; [by split|].
  simpl. destruct (IH (run_backend_action a st)) as [Hsub Hkeep].
  assert (Ha : (forall q, In q (flying_transfers (run_backend_action a st)) ->
                  In q (flying_transfers st)) /\
               (forall p, negb (delinks p a) = true ->
                  In p (flying_transfers st) ->
                  In p (flying_transfers (run_backend_action a st)))).
  { destruct a as [q n|q|q s|q]; simpl.
    - by split.
    - split; [intros x; apply list_del_incl|].
      intros p Hp. apply list_del_keeps.
      apply negb_true_iff, bool_decide_eq_false in Hp. congruence.
    - rewrite completion_flying. by split.
    - rewrite cancellation_flying. by split. }
  destruct Ha as [Ha1 Ha2]. split.
  - intros q Hq. by apply Ha1, Hsub.
  - intros p Hp Hin. apply andb_true_iff in Hp as [Hp1 Hp2].
    apply Hkeep; [exact Hp2|]. by apply Ha2.
Qed.

End Linkage.

(** ** A round and the report of the backend *)

Section Round.
Context {hdr : libusb_headers} {env : environment}.

Lemma log_grows_weaken (P Q : event -> bool) st st' :
  (forall e, P e = true -> Q e = true) ->
  log_grows P st st' -> log_grows Q st st'.
Proof.
  intros HPQ (evs & Ht & Hall). exists evs. split; [exact Ht|].
  rewrite forallb_forall in *. intros e He. by apply HPQ, Hall.
Qed.

(** [poll_io_select] reads the clock and calls [select]; then either it
    calls the backend's event handler, runs the report and perhaps
    sweeps, or it only sweeps, or it stops. *)
Lemma select_reaches_spec tv sel_tv st :
  exists s0,
    log_grows clock_or_select st s0 /\ heap s0 = heap st /\
    flying_transfers s0 = flying_transfers st /\
    match select_reaches sel_tv st with
    | Some (sx, rd, wr) =>
        sx = s0 /\
        (snd (poll_io_select tv sel_tv st) = after_report sx rd wr \/
         snd (poll_io_select tv sel_tv st)
         = snd (handle_timeouts (after_report sx rd wr)))
    | None =>
        snd (poll_io_select tv sel_tv st) = s0 \/
        snd (poll_io_select tv sel_tv st) = snd (handle_timeouts s0)
    end.
Proof.
  unfold select_reaches, poll_io_select, after_report.
  destruct (build_fdsets (pollfds st)) as [[maxfd rd] wr].
  destruct (select st (maxfd + 1) rd wr sel_tv)
    as [[r errno] [[rd' wr'] remaining]].
  match goal with
  | |- context [handle_timeouts (emit ?e st)] => set (s0 := emit e st)
  end.
  exists s0. split; [by apply log_grows_emit|].
  split; [reflexivity|]. split; [reflexivity|].
  destruct (r =? 0).
  { right. by destruct (handle_timeouts s0). }
  destruct ((r =? -1) && (errno =? EINTR)); [by left|].
  destruct (r <? 0); [by left|].
  split; [reflexivity|].
  destruct (backend_handle_events s0 _ _) as [actions r']. cbn [fst].
  destruct (r' <? 0); [by left|].
  right. by destruct (handle_timeouts _).
Qed.

Lemma handle_events_call_spec tv st :
  exists s0,
    log_grows clock_or_select st s0 /\ heap s0 = heap st /\
    flying_transfers s0 = flying_transfers st /\
    match handle_events_call tv st with
    | Some (sx, rd, wr) =>
        sx = s0 /\
        (snd (poll_io tv st) = after_report sx rd wr \/
         snd (poll_io tv st) = snd (handle_timeouts (after_report sx rd wr)))
    | None =>
        snd (poll_io tv st) = s0 \/
        snd (poll_io tv st) = snd (handle_timeouts s0)
    end.
Proof.
  unfold handle_events_call, poll_io.
  pose proof (log_grows_get_next_timeout clock_or_select st eq_refl) as Hg.
  pose proof (get_next_timeout_heap st) as Hh.
  pose proof (get_next_timeout_flying st) as Hf.
  destruct (libusb_get_next_timeout st) as [[r written] st1].
  cbn [snd] in Hg, Hh, Hf.
  assert (Hs : forall t,
            exists s0,
              log_grows clock_or_select st s0 /\ heap s0 = heap st /\
              flying_transfers s0 = flying_transfers st /\
              match select_reaches t st1 with
              | Some (sx, rd, wr) =>
                  sx = s0 /\
                  (snd (poll_io_select tv t st1) = after_report sx rd wr \/
                   snd (poll_io_select tv t st1)
                   = snd (handle_timeouts (after_report sx rd wr)))
              | None =>
                  snd (poll_io_select tv t st1) = s0 \/
                  snd (poll_io_select tv t st1) = snd (handle_timeouts s0)
              end).
  { intros t. destruct (select_reaches_spec tv t st1)
      as (s0 & Hl & Hh0 & Hf0 & Hm).
    exists s0. split; [by eapply log_grows_trans|].
    split; [congruence|]. split; [congruence|]. exact Hm. }
  destruct (negb (r =? 0)); [|apply Hs].
  destruct (negb (timerisset _)).
  - exists st1. split; [exact Hg|]. split; [exact Hh|]. split; [exact Hf|].
    right. by destruct (handle_timeouts st1).
  - destruct (timercmp_lt _ tv); apply Hs.
Qed.

(** Any report logs nothing but callbacks and releases. *)
Lemma action_logs_within_deliveries P l :
  (forall e, delivery_event e = true -> P e = true) ->
  Forall (action_logs_within P) l.
Proof.
  intros HP. apply List.Forall_forall. intros a _.
  destruct a as [q n|q|q s|q]; simpl; try exact I;
    repeat split; intros; by apply HP.
Qed.

Lemma no_delivery_logs_within P l :
  forallb (fun a => negb (delivers a)) l = true ->
  Forall (action_logs_within P) l.
Proof.
  intros H. apply List.Forall_forall. intros a Ha.
  rewrite forallb_forall in H. specialize (H a Ha).
  by destruct a.
Qed.

(** What a round logs, given what the backend reports in it. *)
Lemma log_grows_round P tv st :
  P EvClock = true -> (forall p, P (EvCancel p) = true) ->
  (forall n rd wr t, P (EvSelect n rd wr t) = true) ->
  (forall rd wr, P (EvHandleEvents rd wr) = true) ->
  Forall (action_logs_within P) (round_report tv st) ->
  log_grows P st (snd (poll_io tv st)).
Proof.
  intros Hclock Hcancel Hsel Hhe Hact. unfold round_report in Hact.
  destruct (handle_events_call_spec tv st) as (s0 & Hl & _ & _ & Hm).
  assert (Hl' : log_grows P st s0).
  { revert Hl. apply log_grows_weaken. intros [] He; try discriminate;
      [exact Hclock | apply Hsel]. }
  assert (Hsweep : forall s, log_grows P st s ->
            log_grows P st (snd (handle_timeouts s))).
  { intros s Hs. eapply log_grows_trans; [exact Hs|].
    by apply log_grows_handle_timeouts. }
  destruct (handle_events_call tv st) as [[[sx rd] wr]|].
  - destruct Hm as [-> Hm].
    assert (Hr : log_grows P st (after_report s0 rd wr)).
    { eapply log_grows_trans; [exact Hl'|].
      eapply log_grows_trans; [apply log_grows_emit, Hhe|].
      by apply log_grows_backend_actions_within. }
    destruct Hm as [-> | ->]; [exact Hr | by apply Hsweep].
  - destruct Hm as [-> | ->]; [exact Hl' | by apply Hsweep].
Qed.

Lemma omap_none {A B} (f : A -> option B) (P : A -> bool) l :
  (forall a, P a = true -> f a = None) ->
  forallb P l = true -> omap f l = [].
Proof.
  intros Hf. induction l as [|a l IH]; [reflexivity|].
  simpl. intros H. apply andb_true_iff in H as [Ha Hl].
  rewrite (Hf a Ha). by apply IH.
Qed.

(** The backend's event handler is called at most once in a round, and
    then in the state and with the sets [handle_events_call] gives. *)
Lemma handle_events_calls_round tv st :
  handle_events_calls st (snd (poll_io tv st))
  = match handle_events_call tv st with
    | Some (_, rd, wr) => [(rd, wr)]
    | None => []
    end.
Proof.
  set (f := fun e => match e with
                     | EvHandleEvents rd wr => Some (rd, wr)
                     | _ => None
                     end).
  set (Q := fun e => negb (is_handle_events e)).
  assert (HQ : forall e, Q e = true -> f e = None) by (by intros []).
  assert (Hsweep : forall s, log_grows Q s (snd (handle_timeouts s)))
    by (intros s; by apply log_grows_handle_timeouts).
  destruct (handle_events_call_spec tv st) as (s0 & Hl & _ & _ & Hm).
  assert (Hl' : log_grows Q st s0).
  { revert Hl. apply log_grows_weaken. by intros []. }
  unfold handle_events_calls. fold f.
  destruct (handle_events_call tv st) as [[[sx rd] wr]|].
  - destruct Hm as [-> Hm].
    assert (Hr : log_grows Q (emit (EvHandleEvents rd wr) s0)
                   (after_report s0 rd wr)).
    { apply log_grows_backend_actions_within.
      apply action_logs_within_deliveries. by intros []. }
    assert (Hpost : log_grows Q (emit (EvHandleEvents rd wr) s0)
                      (snd (poll_io tv st))).
    { destruct Hm as [-> | ->]; [exact Hr|].
      eapply log_grows_trans; [exact Hr | apply Hsweep]. }
    destruct Hl' as (pre & Hpre & Hallpre).
    destruct Hpost as (post & Hpost & Hallpost).
    rewrite (new_events_app st _ (pre ++ EvHandleEvents rd wr :: post)).
    + rewrite omap_app. cbn [omap list_omap].
      rewrite (omap_none f Q pre HQ Hallpre).
      simpl. by rewrite (omap_none f Q post HQ Hallpost).
    + rewrite Hpost. cbn [trace emit]. rewrite Hpre.
      by rewrite <- !app_assoc.
  - assert (Hall : log_grows Q st (snd (poll_io tv st))).
    { destruct Hm as [-> | ->]; [exact Hl'|].
      eapply log_grows_trans; [exact Hl' | apply Hsweep]. }
    destruct Hall as (evs & Ht & Hall).
    rewrite (new_events_app st _ evs Ht).
    by apply (omap_none f Q).
Qed.

(** What leaves the published fields alone. *)
Lemma keeps_published_refl st : keeps_published st st.
Proof. intros q. by repeat split. Qed.

Lemma keeps_published_trans st1 st2 st3 :
  keeps_published st1 st2 -> keeps_published st2 st3 ->
  keeps_published st1 st3.
Proof.
  intros H12 H23 q. destruct (H12 q) as (Ha & Hb & Hc).
  destruct (H23 q) as (Ha' & Hb' & Hc').
  split; [auto|]. split; congruence.
Qed.

Lemma keeps_published_heap st st' :
  heap st' = heap st -> keeps_published st st'.
Proof. intros H q. unfold deref. rewrite H. by repeat split. Qed.

Lemma keeps_published_store p t st :
  pub_status t = pub_status (deref st p) ->
  pub_actual_length t = pub_actual_length (deref st p) ->
  keeps_published st (store p t st).
Proof.
  intros Hs Ha q. destruct (decide (q = p)) as [->|Hne].
  - rewrite deref_store_same. split; [|by split].
    intros _. simpl. rewrite lookup_insert_eq. by eexists.
  - rewrite deref_store_other by congruence. split; [|by split].
    simpl. by rewrite lookup_insert_ne by congruence.
Qed.

Lemma keeps_published_handle_timeout p st :
  keeps_published st (handle_timeout p st).
Proof.
  unfold handle_timeout, libusb_cancel_transfer. cbn [snd].
  eapply keeps_published_trans;
    [|apply keeps_published_heap; reflexivity].
  by apply keeps_published_store.
Qed.

Lemma keeps_published_handle_timeouts_loop now l st :
  keeps_published st (handle_timeouts_loop now l st).
Proof.
  revert st. induction l as [|p rest IH]; intros st;
    [apply keeps_published_refl|].
  simpl. destruct (negb _); [apply keeps_published_refl|].
  destruct (CInt.test _ _); [apply IH|].
  destruct (_ || _); [apply keeps_published_refl|].
  eapply keeps_published_trans;
    [apply keeps_published_handle_timeout | apply IH].
Qed.

Lemma keeps_published_handle_timeouts st :
  keeps_published st (snd (handle_timeouts st)).
Proof.
  unfold handle_timeouts.
  destruct (flying_transfers st); [apply keeps_published_refl|].
  destruct (clock_gettime st) as [r ts].
  destruct (r <? 0); cbn [snd];
    [apply keeps_published_heap; reflexivity|].
  eapply keeps_published_trans;
    [|apply keeps_published_handle_timeouts_loop].
  apply keeps_published_heap. reflexivity.
Qed.

Lemma keeps_published_backend_actions l st :
  forallb (fun a => negb (delivers a)) l = true ->
  keeps_published st (run_backend_actions l st).
Proof.
  revert st. induction l as [|a l IH]; intros st H;
    [apply keeps_published_refl|].
  simpl in H. apply andb_true_iff in H as [Ha Hl].
  simpl. eapply keeps_published_trans; [|by apply IH].
  destruct a as [q n|q|q s|q]; try discriminate; simpl.
  - by apply keeps_published_store.
  - apply keeps_published_heap. reflexivity.
Qed.

(** The in-flight list after a report. *)
Lemma run_backend_actions_delinked l st :
  flying_transfers (run_backend_actions l st)
  = delinked l (flying_transfers st).
Proof.
  revert st. induction l as [|a l IH]; intros st; [reflexivity|].
  simpl. rewrite IH. f_equal.
  destruct a as [q n|q|q s|q]; simpl; try reflexivity.
  - apply completion_flying.
  - apply cancellation_flying.
Qed.

Lemma delinked_incl l fl q : In q (delinked l fl) -> In q fl.
Proof.
  revert fl. induction l as [|a l IH]; intros fl; [done|].
  simpl. intros H. apply IH in H.
  destruct a; try exact H. by apply list_del_incl in H.
Qed.

Lemma delinked_keeps l fl p :
  forallb (fun a => negb (delinks p a)) l = true ->
  In p fl -> In p (delinked l fl).
Proof.
  revert fl. induction l as [|a l IH]; intros fl H Hin; [done|].
  simpl in H. apply andb_true_iff in H as [Ha Hl].
  simpl. apply IH; [exact Hl|].
  destruct a as [q n|q|q s|q]; try exact Hin.
  simpl in Ha. apply negb_true_iff, bool_decide_eq_false in Ha.
  apply list_del_keeps; [congruence | exact Hin].
Qed.

Lemma round_list tv st :
  flying_transfers (snd (poll_io tv st))
  = delinked (round_report tv st) (flying_transfers st).
Proof.
  unfold round_report.
  destruct (handle_events_call_spec tv st) as (s0 & _ & _ & Hf & Hm).
  destruct (handle_events_call tv st) as [[[sx rd] wr]|].
  - destruct Hm as [-> Hm].
    assert (Hr : flying_transfers (after_report s0 rd wr)
                 = delinked (fst (backend_handle_events s0 rd wr))
                     (flying_transfers st)).
    { unfold after_report. rewrite run_backend_actions_delinked.
      cbn [flying_transfers emit]. by rewrite Hf. }
    destruct Hm as [-> | ->]; [exact Hr|].
    by rewrite handle_timeouts_flying.
  - simpl. destruct Hm as [-> | ->]; [exact Hf|].
    by rewrite handle_timeouts_flying.
Qed.

End Round.

(** X6. Without a report of the backend nothing is delivered. [poll_io]
    calls the backend's event handler at most once in a round; when that
    call reports neither a completion nor a cancellation (or is not made at
    all), the round invokes no callback, frees no transfer and no buffer,
    and leaves the status and the actual length of every transfer as they
    were: the clock, [select] and the timeout sweep by themselves deliver
    nothing. *)
Theorem no_callback_without_report
    {hdr : libusb_headers} {env : environment}
    (tv : timeval) (st : io_state) :
  forallb (fun a => negb (delivers a)) (round_report tv st) = true ->
  forallb (fun e => negb (delivery_event e))
    (new_events st (snd (poll_io tv st))) = true /\
  keeps_published st (snd (poll_io tv st)) /\
  handle_events_calls st (snd (poll_io tv st))
  = match handle_events_call tv st with
    | Some (_, rd, wr) => [(rd, wr)]
    | None => []
    end.
Proof.
  intros Hquiet.
  split; [|split; [|apply handle_events_calls_round]].
  - destruct (log_grows_round (fun e => negb (delivery_event e)) tv st)
      as (evs & Ht & Hall); try reflexivity.
    + by apply no_delivery_logs_within.
    + by rewrite (new_events_app _ _ _ Ht).
  - unfold round_report in Hquiet.
    destruct (handle_events_call_spec tv st) as (s0 & _ & Hh & _ & Hm).
    assert (H0 : keeps_published st s0) by by apply keeps_published_heap.
    assert (Hsweep : forall s, keeps_published st s ->
              keeps_published st (snd (handle_timeouts s))).
    { intros s Hs. eapply keeps_published_trans; [exact Hs|].
      apply keeps_published_handle_timeouts. }
    destruct (handle_events_call tv st) as [[[sx rd] wr]|].
    + destruct Hm as [-> Hm].
      assert (Hr : keeps_published st (after_report s0 rd wr)).
      { eapply keeps_published_trans; [exact H0|].
        eapply keeps_published_trans;
          [apply (keeps_published_heap s0 (emit (EvHandleEvents rd wr) s0));
           reflexivity|].
        by apply keeps_published_backend_actions. }
      destruct Hm as [-> | ->]; [exact Hr | by apply Hsweep].
    + destruct Hm as [-> | ->]; [exact H0 | by apply Hsweep].
Qed.

(** The backend reports progress on the transfer of scenario S3 and
    nothing else: the round logs the [select], the call of the handler and
    the reading of the clock by the sweep. *)
Lemma no_callback_without_report_witness :
  round_report (hdr := lp64_headers) (env := progress_env)
    (mk_timeval 2 0) S3_state = [BA_transferred 1 8] /\
  forallb (fun e => negb (delivery_event e))
    (new_events S3_state
       (snd (poll_io (hdr := lp64_headers) (env := progress_env)
               (mk_timeval 2 0) S3_state))) = true /\
  length (new_events S3_state
            (snd (poll_io (hdr := lp64_headers) (env := progress_env)
                    (mk_timeval 2 0) S3_state))) = 3%nat.
Proof.
  split; [vm_compute; reflexivity|].
  split; [|vm_compute; reflexivity].
  apply (no_callback_without_report (hdr := lp64_headers)
           (env := progress_env)).
  vm_compute. reflexivity.
Defined.

(** ** The descriptor sets handed to [select] *)

Section FdSets.
Context {hdr : libusb_headers}.

(** The accumulator of the loop over the registry, after the entries
    [l]. *)
Lemma build_fdsets_loop l :
  match
    fold_left
      (fun '(maxfd, have_readfds, readfds, have_writefds, writefds) pollfd =>
         let '(have_readfds, readfds) :=
           if CInt.test (events pollfd) POLLIN
           then (true, {[fd pollfd]} ∪ readfds)
           else (have_readfds, readfds) in
         let '(have_writefds, writefds) :=
           if CInt.test (events pollfd) POLLOUT
           then (true, {[fd pollfd]} ∪ writefds)
           else (have_writefds, writefds) in
         (if fd pollfd >? maxfd then fd pollfd else maxfd,
          have_readfds, readfds, have_writefds, writefds))
      l (0, false, (∅ : gset Z), false, (∅ : gset Z))
  with
  | (maxfd, have_readfds, readfds, have_writefds, writefds) =>
      (forall x, x ∈ readfds <->
         exists pf, In pf l /\ fd pf = x /\
                    CInt.test (events pf) POLLIN = true) /\
      (have_readfds = true <->
         exists pf, In pf l /\ CInt.test (events pf) POLLIN = true) /\
      (forall x, x ∈ writefds <->
         exists pf, In pf l /\ fd pf = x /\
                    CInt.test (events pf) POLLOUT = true) /\
      (have_writefds = true <->
         exists pf, In pf l /\ CInt.test (events pf) POLLOUT = true) /\
      0 <= maxfd /\
      (forall pf, In pf l -> fd pf <= maxfd) /\
      (maxfd = 0 \/ exists pf, In pf l /\ fd pf = maxfd)
  end.
Proof.
  induction l as [|pf l IH] using rev_ind.
  - simpl.
    split; [intros x; split;
            [intros H; apply elem_of_empty in H; destruct H
            | intros (pf & [] & _)]|].
    split; [split; [discriminate | intros (pf & [] & _)]|].
    split; [intros x; split;
            [intros H; apply elem_of_empty in H; destruct H
            | intros (pf & [] & _)]|].
    split; [split; [discriminate | intros (pf & [] & _)]|].
    split; [lia|]. split; [intros pf []|by left].
  - rewrite fold_left_app. simpl.
    match goal with
    | |- context [fold_left ?f l ?i] =>
        destruct (fold_left f l i) as [[[[m hr] r] hw] w]
    end.
    destruct IH as (Hr & Hhr & Hw & Hhw & Hm0 & Hmax & Hwit).
    assert (Hin : forall (Q : libusb_pollfd -> Prop),
               (exists q, In q (l ++ [pf]) /\ Q q)
               <-> (exists q, In q l /\ Q q) \/ Q pf).
    { intros Q. split.
      - intros (q & Hq & HQ). apply in_app_iff in Hq as [Hq|[<-|[]]];
          [left; eauto | by right].
      - intros [(q & Hq & HQ)|HQ].
        + exists q. split; [apply in_app_iff; by left | exact HQ].
        + exists pf. split; [apply in_app_iff; right; by left | exact HQ]. }
    assert (Hmax' : 0 <= (if fd pf >? m then fd pf else m) /\
              (forall q, In q (l ++ [pf]) ->
                 fd q <= (if fd pf >? m then fd pf else m)) /\
              ((if fd pf >? m then fd pf else m) = 0 \/
               exists q, In q (l ++ [pf]) /\
                         fd q = (if fd pf >? m then fd pf else m))).
    { destruct (fd pf >? m) eqn:Em.
      - split; [lia|]. split.
        + intros q Hq. apply in_app_iff in Hq as [Hq|[<-|[]]];
            [specialize (Hmax q Hq); lia | lia].
        + right. exists pf. split; [apply in_app_iff; right; by left|].
          reflexivity.
      - split; [lia|]. split.
        + intros q Hq. apply in_app_iff in Hq as [Hq|[<-|[]]];
            [by apply Hmax | lia].
        + destruct Hwit as [->|(q & Hq & <-)]; [by left|].
          right. exists q. split; [apply in_app_iff; by left | reflexivity]. }
    assert (Hset : forall (flag : Z) (h : bool) (s : gset Z),
               (forall x, x ∈ s <->
                  exists q, In q l /\ fd q = x /\
                            CInt.test (events q) flag = true) ->
               (h = true <->
                  exists q, In q l /\ CInt.test (events q) flag = true) ->
               match (if CInt.test (events pf) flag
                      then (true, {[fd pf]} ∪ s) else (h, s)) with
               | (h', s') =>
                   (forall x, x ∈ s' <->
                      exists q, In q (l ++ [pf]) /\ fd q = x /\
                                CInt.test (events q) flag = true) /\
                   (h' = true <->
                      exists q, In q (l ++ [pf]) /\
                                CInt.test (events q) flag = true)
               end).
    { intros flag h s Hs Hh.
      destruct (CInt.test (events pf) flag) eqn:E.
      - split.
        + intros x. rewrite (Hin (fun q => fd q = x /\
                                  CInt.test (events q) flag = true)), <- Hs.
          rewrite elem_of_union, elem_of_singleton. intuition congruence.
        + rewrite (Hin (fun q => CInt.test (events q) flag = true)).
          intuition congruence.
      - split.
        + intros x. rewrite (Hin (fun q => fd q = x /\
                                  CInt.test (events q) flag = true)), <- Hs.
          intuition congruence.
        + rewrite (Hin (fun q => CInt.test (events q) flag = true)), <- Hh.
          intuition congruence. }
    pose proof (Hset POLLIN hr r Hr Hhr) as H1.
    pose proof (Hset POLLOUT hw w Hw Hhw) as H2.
    destruct (CInt.test (events pf) POLLIN);
      destruct (CInt.test (events pf) POLLOUT);
      destruct H1 as [H1a H1b]; destruct H2 as [H2a H2b];
      destruct Hmax' as (Ha & Hb & Hc);
      repeat (split; [assumption|]); assumption.
Qed.

End FdSets.

(** X7. The arguments [poll_io] builds for [select] from a poll-fd
    registry whose descriptors all fit an [fd_set] (0 .. FD_SETSIZE - 1,
    the range in which FD_SET is defined). The read set holds exactly the
    descriptors registered with POLLIN, and is passed as NULL exactly when
    there is none; likewise the write set with POLLOUT. [maxfd] is the
    largest registered descriptor, or 0 for an empty registry, so that
    [nfds = maxfd + 1] lies above every registered descriptor and within
    FD_SETSIZE. *)
Theorem select_watches_the_registry
    {hdr : libusb_headers} {shdr : select_headers} (l : list libusb_pollfd)
    (maxfd : Z) (rd wr : option (gset Z)) :
  Forall fd_in_range l ->
  build_fdsets l = (maxfd, rd, wr) ->
  (forall x,
     (exists s, rd = Some s /\ x ∈ s) <->
     (exists pf, In pf l /\ fd pf = x /\
                 CInt.test (events pf) POLLIN = true)) /\
  (rd = None <->
   forall pf, In pf l -> CInt.test (events pf) POLLIN = false) /\
  (forall x,
     (exists s, wr = Some s /\ x ∈ s) <->
     (exists pf, In pf l /\ fd pf = x /\
                 CInt.test (events pf) POLLOUT = true)) /\
  (wr = None <->
   forall pf, In pf l -> CInt.test (events pf) POLLOUT = false) /\
  0 <= maxfd /\
  (forall pf, In pf l -> fd pf < maxfd + 1) /\
  (maxfd = 0 \/ exists pf, In pf l /\ fd pf = maxfd) /\
  maxfd + 1 <= FD_SETSIZE /\
  (forall s x, rd = Some s \/ wr = Some s -> x ∈ s -> 0 <= x < maxfd + 1).
Proof.
  intros Hrange. rewrite List.Forall_forall in Hrange.
  unfold build_fdsets. pose proof (build_fdsets_loop l) as H.
  match goal with
  | |- context [fold_left ?f l ?i] =>
      destruct (fold_left f l i) as [[[[m hr] r] hw] w]
  end.
  destruct H as (Hr & Hhr & Hw & Hhw & Hm0 & Hmax & Hwit).
  intros [= <- <- <-].
  assert (Hnone : forall (flag : Z) (h : bool),
            (h = true <->
             exists pf, In pf l /\ CInt.test (events pf) flag = true) ->
            (h = false <->
             forall pf, In pf l -> CInt.test (events pf) flag = false)).
  { intros flag h Hh. split.
    - intros -> pf Hpf.
      destruct (CInt.test (events pf) flag) eqn:E; [|reflexivity].
      assert (false = true) by (apply Hh; eauto). discriminate.
    - intros Hall. destruct h; [|reflexivity].
      destruct (proj1 Hh eq_refl) as (pf & Hpf & E).
      rewrite (Hall pf Hpf) in E. discriminate. }
  split.
  { intros x. rewrite <- Hr. split.
    - intros (s & Hs & Hx). destruct hr; [|discriminate]. by injection Hs as <-.
    - intros Hx. exists r. split; [|exact Hx].
      assert (hr = true) as ->; [|reflexivity].
      apply Hhr. apply Hr in Hx as (pf & Hpf & _ & E). eauto. }
  split.
  { rewrite <- (Hnone POLLIN hr Hhr). destruct hr; split; congruence. }
  split.
  { intros x. rewrite <- Hw. split.
    - intros (s & Hs & Hx). destruct hw; [|discriminate]. by injection Hs as <-.
    - intros Hx. exists w. split; [|exact Hx].
      assert (hw = true) as ->; [|reflexivity].
      apply Hhw. apply Hw in Hx as (pf & Hpf & _ & E). eauto. }
  split.
  { rewrite <- (Hnone POLLOUT hw Hhw). destruct hw; split; congruence. }
  split; [exact Hm0|].
  split; [intros pf Hpf; specialize (Hmax pf Hpf); lia|].
  split; [exact Hwit|].
  split.
  { pose proof FD_SETSIZE_positive.
    destruct Hwit as [->|(pf & Hpf & <-)]; [lia|].
    specialize (Hrange pf Hpf). unfold fd_in_range in Hrange. lia. }
  intros s x Hs Hx.
  assert (Hreg : exists pf, In pf l /\ fd pf = x).
  { destruct Hs as [Hs|Hs].
    - destruct hr; [|discriminate]. injection Hs as <-.
      apply Hr in Hx as (pf & Hpf & Hfd & _). eauto.
    - destruct hw; [|discriminate]. injection Hs as <-.
      apply Hw in Hx as (pf & Hpf & Hfd & _). eauto. }
  destruct Hreg as (pf & Hpf & <-).
  specialize (Hmax pf Hpf). specialize (Hrange pf Hpf).
  unfold fd_in_range in Hrange. lia.
Qed.

Lemma select_watches_the_registry_witness :
  build_fdsets (hdr := lp64_headers) [mk_pollfd 7 4; mk_pollfd 5 1]
  = (7, Some {[5]}, Some {[7]}) /\
  (forall pf, In pf [mk_pollfd 7 4; mk_pollfd 5 1] -> fd pf < 7 + 1).
Proof.
  split; [vm_compute; reflexivity|].
  destruct (select_watches_the_registry (hdr := lp64_headers)
              (shdr := linux_select_headers)
              [mk_pollfd 7 4; mk_pollfd 5 1] 7 (Some {[5]}) (Some {[7]}))
    as (_ & _ & _ & _ & _ & Hmax & _).
  - repeat constructor; unfold fd_in_range; simpl; lia.
  - vm_compute. reflexivity.
  - exact Hmax.
Defined.

(** ** Completion *)

(** X8. The status a completion is published with. With SHORT_NOT_OK, a
    transfer the backend reports as COMPLETED stays COMPLETED only when the
    byte count equals the requested length exactly: more bytes than
    requested make it an ERROR just as fewer do. Every other reported
    status, and every status of a transfer without the flag, is published
    as reported. *)
Theorem completion_status_exact
    {hdr : libusb_headers} (t : usbi_transfer) (s : libusb_transfer_status) :
  0 <= pub_length t < 2 ^ 31 ->
  (completion_status t s = LIBUSB_TRANSFER_ERROR <->
   s = LIBUSB_TRANSFER_ERROR \/
   (s = LIBUSB_TRANSFER_COMPLETED /\
    CInt.test (pub_flags t) LIBUSB_TRANSFER_SHORT_NOT_OK = true /\
    transferred t <> requested_length t)) /\
  (completion_status t s <> LIBUSB_TRANSFER_ERROR -> completion_status t s = s).
Proof.
  intros Hlen. unfold completion_status, requested_length.
  unfold LIBUSB_CONTROL_SETUP_SIZE.
  destruct (decide (s = LIBUSB_TRANSFER_COMPLETED)) as [->|Hs].
  - rewrite bool_decide_eq_true_2 by reflexivity. simpl.
    destruct (CInt.test (pub_flags t) LIBUSB_TRANSFER_SHORT_NOT_OK).
    + assert (Hw : CInt.to_int (pub_length t - 8) = pub_length t - 8)
        by (apply CIntFacts.to_int_id; lia).
      destruct (bool_decide (pub_endpoint_type t = LIBUSB_ENDPOINT_TYPE_CONTROL));
        rewrite ?Hw;
        match goal with
        | |- context [negb (?a =? ?b)] => destruct (Z.eqb_spec a b) as [E|E]
        end; simpl;
        (split; [split; [intros H; try discriminate; right; auto
                        | intros [H|(_ & _ & H)]; congruence]
                | intros H; congruence]).
    + split; [|reflexivity].
      split; [discriminate | intros [H|(_ & H & _)]; discriminate].
  - rewrite bool_decide_eq_false_2 by assumption. simpl.
    split; [|reflexivity].
    split; [by left | intros [H|(H & _)]; congruence].
Qed.

(** A bulk read of 64 bytes that delivers 65. *)
Lemma completion_status_exact_witness :
  completion_status (hdr := lp64_headers)
    (mk_transfer 1 LIBUSB_ENDPOINT_TYPE_BULK 0 64 LIBUSB_TRANSFER_COMPLETED 0
       true timerclear 65 0) LIBUSB_TRANSFER_COMPLETED
  = LIBUSB_TRANSFER_ERROR.
Proof.
  apply (completion_status_exact (hdr := lp64_headers)).
  - simpl. lia.
  - right. split; [reflexivity|]. split; [reflexivity|].
    vm_compute. discriminate.
Defined.

(** ** Who links and who delinks *)

(** X9. Who takes a transfer out of the scheduler in a round of the event
    loop in which no callback runs (a callback may itself submit or cancel
    transfers). Such a round puts no transfer into the scheduler, and takes
    one out only where the backend's event handler delinks it: the
    in-flight list after the round is the list before it with the delinks
    of the backend's report applied in order. So every transfer in flight
    after the round was in flight before, and a transfer in flight before
    is still in flight after unless the report delinks it. The timeout
    sweep leaves the in-flight list alone, and so do the completion and
    cancellation handlers when they deliver silently or to no callback. *)
Theorem event_loop_keeps_linkage
    {hdr : libusb_headers} {env : environment}
    (tv : timeval) (st : io_state) :
  forallb (fun e => negb (any_callback e))
    (new_events st (snd (poll_io tv st))) = true ->
  flying_transfers (snd (poll_io tv st))
  = delinked (round_report tv st) (flying_transfers st) /\
  (forall q, In q (flying_transfers (snd (poll_io tv st))) ->
     In q (flying_transfers st)) /\
  (forall p,
     forallb (fun a => negb (delinks p a)) (round_report tv st) = true ->
     In p (flying_transfers st) ->
     In p (flying_transfers (snd (poll_io tv st)))) /\
  handle_events_calls st (snd (poll_io tv st))
  = match handle_events_call tv st with
    | Some (_, rd, wr) => [(rd, wr)]
    | None => []
    end /\
  flying_transfers (snd (handle_timeouts st)) = flying_transfers st /\
  (forall p status,
     pub_callback (deref st p) = false \/
     status = LIBUSB_TRANSFER_SILENT_COMPLETION ->
     flying_transfers (usbi_handle_transfer_completion p status st)
     = flying_transfers st) /\
  (forall p,
     pub_callback (deref st p) = false \/
     CInt.test (flags (deref st p)) USBI_TRANSFER_SYNC_CANCELLED = true ->
     flying_transfers (usbi_handle_transfer_cancellation p st)
     = flying_transfers st).
Proof.
  intros _.
  pose proof (round_list tv st) as Hlist.
  split; [exact Hlist|].
  split; [intros q; rewrite Hlist; apply delinked_incl|].
  split; [intros p Hp Hin; rewrite Hlist; by apply delinked_keeps|].
  split; [apply handle_events_calls_round|].
  split; [apply handle_timeouts_flying|].
  split.
  - intros p status _. apply completion_flying.
  - intros p _. apply cancellation_flying.
Qed.

(** While a synchronous cancel is waiting in scenario S3 the backend
    delinks the transfer and reports its cancellation, which is delivered
    silently: no callback runs, and the scheduler is empty after the
    round. *)
Lemma event_loop_keeps_linkage_witness :
  round_report (hdr := lp64_headers) (env := S3_env) (mk_timeval 2 0)
    (S3_waiting_state (hdr := lp64_headers)) = [BA_list_del 1; BA_cancellation 1] /\
  flying_transfers
    (snd (poll_io (hdr := lp64_headers) (env := S3_env)
            (mk_timeval 2 0) (S3_waiting_state (hdr := lp64_headers)))) = [].
Proof.
  assert (Hr : round_report (hdr := lp64_headers) (env := S3_env)
                 (mk_timeval 2 0) (S3_waiting_state (hdr := lp64_headers))
               = [BA_list_del 1; BA_cancellation 1])
    by (vm_compute; reflexivity).
  split; [exact Hr|].
  destruct (event_loop_keeps_linkage (hdr := lp64_headers) (env := S3_env)
              (mk_timeval 2 0) (S3_waiting_state (hdr := lp64_headers))) as [Hlist _].
  - vm_compute. reflexivity.
  - rewrite Hlist, Hr. reflexivity.
Defined.

(** ** Interfaces: round trip and alternate settings *)

Section InterfaceRoundTrip.
Context {hdr : libusb_headers} {cenv : core_environment}.

Lemma clearbit_setbit a n :
  0 <= n -> Z.testbit a n = false -> Z.clearbit (Z.setbit a n) n = a.
Proof.
  intros Hn Ha. apply Z.bits_inj'. intros m Hm.
  destruct (Z.eq_dec m n) as [->|Hne].
  - rewrite Z.clearbit_eq by lia. by rewrite Ha.
  - rewrite Z.clearbit_neq, Z.setbit_neq by lia. reflexivity.
Qed.

Lemma setbit_range a w n :
  0 <= a < 2 ^ w -> 0 <= n < w -> 0 <= Z.setbit a n < 2 ^ w.
Proof.
  intros Ha Hn. split.
  - rewrite Z.setbit_spec'. apply Z.lor_nonneg. split; [lia|].
    apply Z.pow_nonneg. lia.
  - destruct (Z.eq_dec (Z.setbit a n) 0) as [->|Hnz];
      [apply Z.pow_pos_nonneg; lia|].
    assert (Hpos : 0 < Z.setbit a n).
    { assert (0 <= Z.setbit a n); [|lia].
      rewrite Z.setbit_spec'. apply Z.lor_nonneg. split; [lia|].
      apply Z.pow_nonneg. lia. }
    apply Z.log2_lt_pow2; [exact Hpos|].
    rewrite Z.setbit_spec', Z.log2_lor by (try apply Z.pow_nonneg; lia).
    rewrite Z.log2_pow2 by lia.
    destruct (Z.eq_dec a 0) as [->|Ha0]; [simpl; lia|].
    assert (Z.log2 a < w) by (apply Z.log2_lt_pow2; lia).
    lia.
Qed.

End InterfaceRoundTrip.

(** X10. Claim, then release. On a handle whose interface [n] is not
    claimed, a successful [libusb_claim_interface] followed by a successful
    [libusb_release_interface] of the same interface puts the handle back
    as it was: the bitmap is the one before the claim, the device of the
    handle, every other handle, the devices and the registry are untouched,
    and the backend was asked once to claim and once to release, each time
    under the lock. A release the backend refuses leaves the interface
    claimed. *)
Theorem claim_release_round_trip
    {hdr : libusb_headers} {cenv : core_environment}
    (h : nat) (n : Z) (st st1 st2 : core_state) (r : Z) :
  0 <= n < claimed_interfaces_bits ->
  mask_exact n ->
  0 <= claimed_interfaces (get_handle st h) < 2 ^ claimed_interfaces_bits ->
  claimed st h n = false ->
  libusb_claim_interface h n st = Some (0, st1) ->
  libusb_release_interface h n st1 = Some (r, st2) ->
  claimed st1 h n = true /\
  core_trace st2
  = core_trace st ++ [EvLock h; EvClaimInterface h n; EvUnlock h;
                       EvLock h; EvReleaseInterface h n; EvUnlock h] /\
  devices st2 = devices st /\
  usb_devs st2 = usb_devs st /\
  (forall h', h' <> h -> handles st2 !! h' = handles st !! h') /\
  (r = 0 -> get_handle st2 h = get_handle st h) /\
  (r <> 0 -> claimed st2 h n = true).
Proof.
  intros Hn Hex Hbits Hclear.
  destruct (interface_bit_exact n Hn Hex) as (bit & Hbit & Hmask & Hcompl).
  assert (Hint : - 2 ^ 31 <= n < 2 ^ 31).
  { pose proof claimed_interfaces_bits_range. lia. }
  assert (Hg : interface_out_of_range n = false)
    by (by apply interface_in_range_spec).
  unfold claimed in *.
  set (bits := claimed_interfaces (get_handle st h)) in *.
  assert (Hread : claimed_interfaces (get_handle (core_emit (EvLock h) st) h)
                  = bits) by reflexivity.
  unfold libusb_claim_interface.
  rewrite Hg, Hbit, Hread, Hmask, land_pow2_eqb, Hclear by lia. simpl.
  destruct (backend_claim_interface _ h n =? 0) eqn:Hr1.
  2: { intros [= Hr _]. rewrite Hr in Hr1. discriminate. }
  intros [= _ <-].
  rewrite lor_pow2 by lia.
  assert (Hset : Z.testbit (Z.setbit bits n) n = true)
    by (apply Z.setbit_eq; lia).
  unfold libusb_release_interface.
  rewrite Hg, Hbit, Hmask, Hcompl.
  match goal with
  | |- context [claimed_interfaces (get_handle ?s h)] =>
      assert (Hread1 : claimed_interfaces (get_handle s h) = Z.setbit bits n)
        by (unfold get_handle; simpl; rewrite lookup_insert_eq; reflexivity)
  end.
  rewrite Hread1, land_pow2_eqb, Hset by lia. simpl.
  rewrite land_clear_mask by (try apply setbit_range; assumption).
  rewrite clearbit_setbit by (lia || assumption).
  destruct (backend_release_interface _ h n =? 0) eqn:Hr2;
    intros [= <- <-]; simpl.
  - split; [unfold get_handle; simpl; by rewrite lookup_insert_eq|].
    split; [by rewrite <- !app_assoc|].
    split; [reflexivity|]. split; [reflexivity|].
    split; [intros h' Hh'; by rewrite !lookup_insert_ne|].
    split; [|intros Hne; apply Z.eqb_eq in Hr2; contradiction].
    intros _. subst bits.
    unfold get_handle, set_claimed_interfaces, core_emit, get_handle. simpl.
    repeat (rewrite lookup_insert_eq; simpl).
    destruct (handles st !! h) as [[b d]|]; reflexivity.
  - split; [unfold get_handle; simpl; by rewrite lookup_insert_eq|].
    split; [by rewrite <- !app_assoc|].
    split; [reflexivity|]. split; [reflexivity|].
    split; [intros h' Hh'; by rewrite !lookup_insert_ne|].
    split; [intros H0; apply Z.eqb_neq in Hr2; contradiction|].
    intros _. unfold get_handle; simpl. rewrite lookup_insert_eq. exact Hset.
Qed.

(** Interface 5 of the example handle, claimed and released again. *)
Lemma claim_release_round_trip_witness :
  exists st1 st2,
    libusb_claim_interface (hdr := lp64_headers) (cenv := accepting_core_env)
      20 5 core_example = Some (0, st1) /\
    libusb_release_interface (hdr := lp64_headers)
      (cenv := accepting_core_env) 20 5 st1 = Some (0, st2) /\
    get_handle st2 20 = get_handle core_example 20.
Proof.
  eexists. eexists.
  split; [reflexivity|]. split; [reflexivity|].
  refine (proj1 (proj2 (proj2 (proj2 (proj2 (proj2
    (claim_release_round_trip (hdr := lp64_headers)
       (cenv := accepting_core_env) 20%nat 5 core_example _ _ 0
       _ _ _ _ eq_refl eq_refl)))))) eq_refl).
  - simpl. lia.
  - left. lia.
  - vm_compute. split; congruence.
  - reflexivity.
Defined.

(** X11. An alternate setting can only be selected on a claimed interface.
    For an interface number within the bitmap, where the mask is exact:
    [libusb_set_interface_alt_setting] on an interface that is not claimed
    returns LIBUSB_ERROR_NOT_FOUND having only taken and released the lock;
    on a claimed interface it returns the backend's code, and the backend is
    asked after the lock has been released. In no case does it change the
    bitmap, a handle, a device or the registry. *)
Theorem alt_setting_needs_claim
    {hdr : libusb_headers} {cenv : core_environment}
    (h : nat) (n alt : Z) (st : core_state) :
  0 <= n < claimed_interfaces_bits ->
  mask_exact n ->
  exists r st',
    libusb_set_interface_alt_setting h n alt st = Some (r, st') /\
    handles st' = handles st /\
    devices st' = devices st /\
    usb_devs st' = usb_devs st /\
    (claimed st h n = false ->
     r = LIBUSB_ERROR_NOT_FOUND /\
     core_trace st' = core_trace st ++ [EvLock h; EvUnlock h]) /\
    (claimed st h n = true ->
     r = backend_set_interface_altsetting
           (core_emit (EvUnlock h) (core_emit (EvLock h) st)) h n alt /\
     core_trace st'
     = core_trace st ++ [EvLock h; EvUnlock h;
                          EvSetInterfaceAltsetting h n alt]).
Proof.
  intros Hn Hex.
  destruct (interface_bit_exact n Hn Hex) as (bit & Hbit & Hmask & _).
  assert (Hint : - 2 ^ 31 <= n < 2 ^ 31).
  { pose proof claimed_interfaces_bits_range. lia. }
  assert (Hg : interface_out_of_range n = false)
    by (by apply interface_in_range_spec).
  unfold claimed, libusb_set_interface_alt_setting.
  assert (Hread : claimed_interfaces (get_handle (core_emit (EvLock h) st) h)
                  = claimed_interfaces (get_handle st h)) by reflexivity.
  rewrite Hg, Hbit, Hread, Hmask, land_pow2_eqb by lia.
  destruct (Z.testbit (claimed_interfaces (get_handle st h)) n); simpl.
  - eexists. eexists. split; [reflexivity|]. simpl.
    split; [reflexivity|]. split; [reflexivity|]. split; [reflexivity|].
    split; [discriminate|]. intros _. split; [reflexivity|].
    by rewrite <- !app_assoc.
  - eexists. eexists. split; [reflexivity|]. simpl.
    split; [reflexivity|]. split; [reflexivity|]. split; [reflexivity|].
    split; [|discriminate]. intros _. split; [reflexivity|].
    by rewrite <- !app_assoc.
Qed.

(** Interface 3 of the example handle is claimed, interface 4 is not. *)
Lemma alt_setting_needs_claim_witness :
  exists r st',
    libusb_set_interface_alt_setting (hdr := lp64_headers)
      (cenv := accepting_core_env) 20 4 1 core_example = Some (r, st') /\
    r = @LIBUSB_ERROR_NOT_FOUND lp64_headers.
Proof.
  destruct (alt_setting_needs_claim (hdr := lp64_headers)
              (cenv := accepting_core_env) 20%nat 4 1 core_example)
    as (r & st' & Heq & _ & _ & _ & Hclear & _).
  - simpl. lia.
  - left. lia.
  - exists r, st'. split; [exact Heq|]. apply Hclear. reflexivity.
Defined.

(** ** References: round trip *)

Section References.
Context {cenv : core_environment}.

Lemma set_device_id d x st :
  devices st !! d = Some x -> set_device d x st = st.
Proof.
  intros Hd. destruct st as [ds us hs tr]. unfold set_device. simpl in *.
  by rewrite insert_id.
Qed.

Lemma set_device_twice d x y st :
  set_device d x (set_device d y st) = set_device d x st.
Proof. unfold set_device. simpl. by rewrite insert_insert_eq. Qed.

Lemma ref_device_eq d x st :
  devices st !! d = Some x -> refcnt x < INT_MAX ->
  - 2 ^ 31 <= refcnt x ->
  libusb_ref_device d st
  = set_device d (mk_device (refcnt x + 1) (session_data x)) st.
Proof.
  intros Hd Hr Hlo. unfold INT_MAX in Hr.
  unfold libusb_ref_device, get_device. rewrite Hd. simpl.
  rewrite CIntFacts.to_int_id by lia. reflexivity.
Qed.

Lemma ref_unref d x st :
  devices st !! d = Some x -> 1 <= refcnt x < INT_MAX ->
  libusb_unref_device (Some d) (libusb_ref_device d st) = st.
Proof.
  intros Hd Hr.
  rewrite (ref_device_eq d x st Hd) by (unfold INT_MAX in *; lia).
  rewrite (unref_other d (mk_device (refcnt x + 1) (session_data x))).
  - simpl. rewrite set_device_twice.
    replace (refcnt x + 1 - 1) with (refcnt x) by lia.
    apply set_device_id. by destruct x.
  - simpl. by rewrite lookup_insert_eq.
  - simpl. unfold INT_MAX in *. lia.
Qed.

Lemma iter_ref_device k d x st :
  devices st !! d = Some x -> 1 <= refcnt x ->
  refcnt x + Z.of_nat k <= INT_MAX ->
  Nat.iter k (libusb_ref_device d) st
  = set_device d (mk_device (refcnt x + Z.of_nat k) (session_data x)) st.
Proof.
  intros Hd Hlo. induction k as [|k IH]; intros Hk.
  - simpl. rewrite Z.add_0_r. symmetry. apply set_device_id. by destruct x.
  - rewrite Nat.iter_succ, IH by lia.
    rewrite (ref_device_eq d (mk_device (refcnt x + Z.of_nat k)
                                (session_data x)));
      simpl; [| by rewrite lookup_insert_eq | lia | unfold INT_MAX in *; lia].
    rewrite set_device_twice. f_equal. f_equal. lia.
Qed.

End References.

(** X12. References balance. On an allocated device holding at least one
    reference, [k] calls of [libusb_ref_device] followed by [k] calls of
    [libusb_unref_device] give back the state they started from, as long as
    the count stays within [int]: the count is the old one, the device is
    neither destroyed nor delinked nor freed, and nothing is logged. In
    between the count is the old one plus [k], and nothing but the count of
    that device has changed. Unreferencing NULL does nothing. *)
Theorem ref_unref_balance
    {cenv : core_environment}
    (k : nat) (d : nat) (x : libusb_device) (st : core_state) :
  devices st !! d = Some x ->
  1 <= refcnt x ->
  refcnt x + Z.of_nat k <= INT_MAX ->
  Nat.iter k (libusb_ref_device d) st
  = set_device d (mk_device (refcnt x + Z.of_nat k) (session_data x)) st /\
  Nat.iter k (libusb_unref_device (Some d)) (Nat.iter k (libusb_ref_device d) st)
  = st /\
  libusb_unref_device None st = st.
Proof.
  intros Hd Hlo Hk.
  split; [by apply iter_ref_device|]. split; [|reflexivity].
  revert x st Hd Hlo Hk.
  induction k as [|k IH]; intros x st Hd Hlo Hk; [reflexivity|].
  rewrite Nat.iter_succ_r, Nat.iter_succ.
  rewrite (iter_ref_device k d x st Hd Hlo) by lia.
  rewrite (ref_unref d (mk_device (refcnt x + Z.of_nat k) (session_data x)));
    [| simpl; by rewrite lookup_insert_eq | simpl; lia].
  rewrite <- (iter_ref_device k d x st Hd Hlo) by lia.
  apply (IH x); [assumption | assumption | lia].
Qed.

(** Two more references on the first device of the example, given back. *)
Lemma ref_unref_balance_witness :
  Nat.iter 2 (libusb_unref_device (cenv := accepting_core_env) (Some 10%nat))
    (Nat.iter 2 (libusb_ref_device 10) core_example)
  = core_example.
Proof.
  apply (ref_unref_balance (cenv := accepting_core_env) 2 10
           (mk_device 3 100) core_example).
  - reflexivity.
  - simpl. lia.
  - vm_compute. discriminate.
Defined.

(** ** The poll-fd registry *)

Section PollfdRegistry.

Lemma unlink_pollfd_none fd0 l :
  unlink_pollfd fd0 l = None <-> registrations fd0 l = 0%nat.
Proof.
  unfold registrations. induction l as [|pf l IH]; simpl; [tauto|].
  destruct (fd pf =? fd0); simpl; [split; discriminate|].
  destruct (unlink_pollfd fd0 l); [|tauto].
  split; [discriminate|]. intros H. apply IH in H. discriminate.
Qed.

Lemma unlink_pollfd_some fd0 l l' :
  unlink_pollfd fd0 l = Some l' ->
  exists pre ev post,
    l = pre ++ mk_pollfd fd0 ev :: post /\ l' = pre ++ post /\
    registrations fd0 pre = 0%nat.
Proof.
  revert l'. induction l as [|pf l IH]; intros l'; simpl; [discriminate|].
  destruct (Z.eqb_spec (fd pf) fd0) as [E|E].
  - intros [= <-]. exists [], (events pf), l. destruct pf; simpl in *.
    by subst.
  - destruct (unlink_pollfd fd0 l) as [r|]; [|discriminate].
    intros [= <-]. destruct (IH r eq_refl) as (pre & ev & post & -> & -> & Hp).
    exists (pf :: pre), ev, post. split; [reflexivity|].
    split; [reflexivity|].
    unfold registrations in *. simpl.
    destruct (Z.eqb_spec (fd pf) fd0); [contradiction | exact Hp].
Qed.

Lemma registrations_app fd0 l1 l2 :
  registrations fd0 (l1 ++ l2)
  = (registrations fd0 l1 + registrations fd0 l2)%nat.
Proof. unfold registrations. by rewrite List.filter_app, length_app. Qed.

Lemma registrations_cons fd0 pf l :
  registrations fd0 (pf :: l)
  = ((if (fd pf =? fd0)%Z then 1 else 0) + registrations fd0 l)%nat.
Proof. unfold registrations. simpl. by destruct (fd pf =? fd0). Qed.

(** The read set that [poll_io] builds holds [x] exactly when the
    registry has an entry for [x] with POLLIN. *)
Lemma build_fdsets_readfds {hdr : libusb_headers} l x :
  (exists s, snd (fst (build_fdsets l)) = Some s /\ x ∈ s) <->
  (exists pf, In pf l /\ fd pf = x /\ CInt.test (events pf) POLLIN = true).
Proof.
  unfold build_fdsets. pose proof (build_fdsets_loop l) as H.
  match goal with
  | |- context [fold_left ?f l ?i] =>
      destruct (fold_left f l i) as [[[[m hr] r] hw] w]
  end.
  destruct H as (Hr & Hhr & _). simpl. rewrite <- Hr.
  destruct hr.
  - split; [by intros (s & [= <-] & Hs) | intros Hx; eauto].
  - split; [by intros (s & [=] & _)|].
    intros Hx. apply Hr in Hx as (pf & Hpf & _ & Ht).
    assert (false = true) by (apply Hhr; eauto). discriminate.
Qed.

End PollfdRegistry.

(** X13. Registering and unregistering a descriptor. A call of
    [usbi_add_pollfd] that cannot allocate returns [-ENOMEM], a negative
    code, and changes and announces nothing. Otherwise it returns 0, puts
    the entry at the head of the registry and calls the added-notifier, if
    one is installed, with the descriptor and its events; from then on,
    provided the descriptor and those already registered fit an [fd_set],
    the read set built for [select] holds the descriptor when the events
    include POLLIN. Removing the descriptor right away gives back the
    registry as it was and calls the removed-notifier, if installed. *)
Theorem pollfd_add_then_remove
    {hdr : libusb_headers} {mhdr : more_headers} {shdr : select_headers}
    {alloc : pollfd_allocator}
    (fd0 ev : Z) (st : notifier_state) :
  let '(r, st1) := usbi_add_pollfd fd0 ev st in
  (malloc_pollfd st = false ->
   r = - ENOMEM /\ r < 0 /\ st1 = st) /\
  (malloc_pollfd st = true ->
   r = 0 /\
   pollfds (io st1) = mk_pollfd fd0 ev :: pollfds (io st) /\
   notified st1
   = notified st ++ (if fd_added_cb st then [EvFdAdded fd0 ev] else []) /\
   (0 <= fd0 < FD_SETSIZE ->
    Forall fd_in_range (pollfds (io st)) ->
    CInt.test ev POLLIN = true ->
    Forall fd_in_range (pollfds (io st1)) /\
    exists s, snd (fst (build_fdsets (pollfds (io st1)))) = Some s /\ fd0 ∈ s) /\
   io (usbi_remove_pollfd fd0 st1) = io st /\
   notified (usbi_remove_pollfd fd0 st1)
   = notified st1 ++ (if fd_removed_cb st then [EvFdRemoved fd0] else [])).
Proof.
  unfold usbi_add_pollfd.
  destruct (malloc_pollfd st) eqn:Hm; simpl.
  - split; [discriminate|]. intros _.
    split; [reflexivity|].
    assert (Hio : forall s : notifier_state,
              pollfds
                (io (if fd_added_cb st
                     then notify (EvFdAdded fd0 ev)
                            (with_pollfds (mk_pollfd fd0 ev :: pollfds (io st)) st)
                     else with_pollfds (mk_pollfd fd0 ev :: pollfds (io st)) st))
              = mk_pollfd fd0 ev :: pollfds (io st))
      by (intros _; destruct (fd_added_cb st); reflexivity).
    specialize (Hio st).
    split; [exact Hio|].
    split; [destruct (fd_added_cb st); simpl; by rewrite ?app_nil_r|].
    split.
    { intros Hfd Hrange Hin. rewrite Hio.
      split; [apply List.Forall_cons; [exact Hfd | exact Hrange]|].
      apply build_fdsets_readfds.
      exists (mk_pollfd fd0 ev). split; [by left|]. by split. }
    unfold usbi_remove_pollfd. rewrite Hio. cbn [unlink_pollfd fd].
    rewrite Z.eqb_refl.
    assert (Hid : set_pollfds (pollfds (io st)) (io st) = io st)
      by (by destruct (io st)).
    destruct (fd_added_cb st); cbn; destruct (fd_removed_cb st); cbn;
      rewrite ?app_nil_r; (split; [exact Hid | reflexivity]).
  - split; [|discriminate]. intros _.
    pose proof ENOMEM_positive. split; [reflexivity|]. split; [lia|reflexivity].
Qed.

(** Descriptor 9 is registered for reading and unregistered again, with
    both notifiers installed after initialisation. *)
Lemma pollfd_add_then_remove_witness :
  notified
    (usbi_remove_pollfd 9
       (snd (usbi_add_pollfd (mhdr := linux_more_headers)
               (alloc := generous_allocator) 9 1
               (libusb_set_pollfd_notifiers true true
                  (usbi_io_init_notifiers notifier_example)))))
  = [EvFdAdded 9 1; EvFdRemoved 9].
Proof.
  pose proof (pollfd_add_then_remove (hdr := lp64_headers)
                (mhdr := linux_more_headers) (shdr := linux_select_headers)
                (alloc := generous_allocator)
                9 1
                (libusb_set_pollfd_notifiers true true
                   (usbi_io_init_notifiers notifier_example))) as H.
  hnf in H. destruct H as [_ H].
  destruct (H eq_refl) as (_ & _ & _ & _ & _ & Hn). exact Hn.
Defined.

(** X14. Unregistering a descriptor. [usbi_remove_pollfd] on a descriptor
    the registry does not hold changes nothing and makes no call. On a
    descriptor it holds, it takes out the entry nearest the head, and only
    that one: the registry is the old one without that entry, a descriptor
    registered twice is still registered once, the entries of every other
    descriptor are kept, and the removed-notifier, if installed, is called
    once with the descriptor. The transfers and the notifiers are never
    touched. *)
Theorem pollfd_remove_one (fd0 : Z) (st : notifier_state) :
  let st' := usbi_remove_pollfd fd0 st in
  (registrations fd0 (pollfds (io st)) = 0%nat -> st' = st) /\
  (registrations fd0 (pollfds (io st)) <> 0%nat ->
   (exists pre ev post,
      pollfds (io st) = pre ++ mk_pollfd fd0 ev :: post /\
      pollfds (io st') = pre ++ post /\
      registrations fd0 pre = 0%nat) /\
   notified st'
   = notified st ++ (if fd_removed_cb st then [EvFdRemoved fd0] else [])) /\
  (forall x,
     registrations x (pollfds (io st'))
     = if bool_decide (x = fd0)
       then Nat.pred (registrations x (pollfds (io st)))
       else registrations x (pollfds (io st))) /\
  heap (io st') = heap (io st) /\
  flying_transfers (io st') = flying_transfers (io st) /\
  trace (io st') = trace (io st) /\
  fd_added_cb st' = fd_added_cb st /\
  fd_removed_cb st' = fd_removed_cb st.
Proof.
  unfold usbi_remove_pollfd.
  destruct (unlink_pollfd fd0 (pollfds (io st))) as [l|] eqn:E.
  - destruct (unlink_pollfd_some _ _ _ E) as (pre & ev & post & Hl & -> & Hpre).
    assert (Hreg : registrations fd0 (pollfds (io st)) <> 0%nat).
    { intros H0. apply unlink_pollfd_none in H0. congruence. }
    cbn zeta.
    change (fd_removed_cb (with_pollfds (pre ++ post) st))
      with (fd_removed_cb st).
    assert (Hio : io (if fd_removed_cb st
                      then notify (EvFdRemoved fd0)
                             (with_pollfds (pre ++ post) st)
                      else with_pollfds (pre ++ post) st)
                  = set_pollfds (pre ++ post) (io st))
      by (destruct (fd_removed_cb st); reflexivity).
    split; [intros H0; contradiction|].
    split.
    { intros _. split.
      - exists pre, ev, post. rewrite Hio. by repeat split.
      - destruct (fd_removed_cb st); simpl; by rewrite ?app_nil_r. }
    split.
    { intros x. rewrite Hio. simpl. rewrite Hl.
      rewrite !registrations_app, registrations_cons. simpl.
      destruct (bool_decide_reflect (x = fd0)) as [->|Hne].
      - rewrite Z.eqb_refl, Hpre. simpl. reflexivity.
      - destruct (Z.eqb_spec fd0 x); [congruence|]. reflexivity. }
    rewrite Hio. simpl.
    destruct (fd_removed_cb st) eqn:Ecb; by repeat split.
  - cbn zeta.
    split; [reflexivity|].
    split; [intros Hreg; apply unlink_pollfd_none in E; contradiction|].
    split; [|by repeat split].
    intros x. destruct (bool_decide_reflect (x = fd0)) as [->|Hne];
      [|reflexivity].
    apply unlink_pollfd_none in E. by rewrite E.
Qed.

(** The registry of scenario S3 holds descriptor 7 once. *)
Lemma pollfd_remove_one_witness :
  pollfds (io (usbi_remove_pollfd 7 notifier_example)) = [] /\
  notified (usbi_remove_pollfd 7 notifier_example) = [EvFdRemoved 7].
Proof.
  destruct (pollfd_remove_one 7 notifier_example)
    as (_ & Hrem & _).
  destruct Hrem as [(pre & ev & post & Hl & Hl' & Hpre) Hn];
    [vm_compute; discriminate|].
  split; [reflexivity | exact Hn].
Defined.

(** ** Looking a device up by its session *)

Section SessionLookup.
Context {cenv : core_environment}.

Lemma lookup_sound session_id st e :
  usbi_get_device_by_session_id session_id st = Some e ->
  In e (usb_devs st) /\ session_data (get_device st e) = session_id.
Proof.
  unfold usbi_get_device_by_session_id. intros H.
  apply List.find_some in H as [Hin Heq]. split; [exact Hin | lia].
Qed.

Lemma lookup_none session_id st :
  usbi_get_device_by_session_id session_id st = None <->
  forall e, In e (usb_devs st) ->
    session_data (get_device st e) <> session_id.
Proof.
  unfold usbi_get_device_by_session_id. split.
  - intros H e He. pose proof (List.find_none _ _ H e He) as Hn.
    simpl in Hn. lia.
  - intros H. induction (usb_devs st) as [|e l IH]; [reflexivity|].
    simpl. destruct (Z.eqb_spec (session_data (get_device st e)) session_id)
      as [E|E].
    + exfalso. apply (H e); [by left | exact E].
    + apply IH. intros e' He'. apply H. by right.
Qed.

(** The walk depends on the devices it passes only. *)
Lemma find_session_ext session_id st st' l :
  (forall e, In e l -> get_device st' e = get_device st e) ->
  List.find (fun dev => session_data (get_device st' dev) =? session_id) l
  = List.find (fun dev => session_data (get_device st dev) =? session_id) l.
Proof.
  induction l as [|e l IH]; intros H; [reflexivity|].
  simpl. rewrite (H e) by (by left).
  destruct (_ =? _); [reflexivity|]. apply IH. intros e' He'. apply H.
  by right.
Qed.

End SessionLookup.

(** X15. A device is found by its session from the moment it is allocated
    until its last reference goes. In a registry whose devices are all
    allocated, once [usbi_alloc_device] has returned a device for a
    session, [usbi_get_device_by_session_id] returns that very device for
    the session (also when an older device carries the same one) and
    answers as before for every other session. What the lookup returns is
    always a registered device with the session asked for, and it returns
    NULL only when no registered device has it. Dropping the only reference
    of the new device puts the devices and the registry back as they were
    before the allocation, so that every lookup answers as before. *)
Theorem session_lookup_lifecycle
    {cenv : core_environment}
    (session_id : Z) (d : nat) (st st' : core_state) :
  registry_ok st ->
  usbi_alloc_device session_id st = (Some d, st') ->
  usbi_get_device_by_session_id session_id st' = Some d /\
  (forall id, id <> session_id ->
     usbi_get_device_by_session_id id st'
     = usbi_get_device_by_session_id id st) /\
  (forall id e,
     usbi_get_device_by_session_id id st' = Some e ->
     In e (usb_devs st') /\ session_data (get_device st' e) = id) /\
  (forall id,
     usbi_get_device_by_session_id id st' = None <->
     forall e, In e (usb_devs st') -> session_data (get_device st' e) <> id) /\
  devices (libusb_unref_device (Some d) st') = devices st /\
  usb_devs (libusb_unref_device (Some d) st') = usb_devs st /\
  (forall id,
     usbi_get_device_by_session_id id (libusb_unref_device (Some d) st')
     = usbi_get_device_by_session_id id st).
Proof.
  intros Hok Halloc.
  destruct (alloc_registry_ok _ _ _ _ Halloc Hok) as (Hok' & Hd & Hdevs).
  assert (Hfresh : devices st !! d = None /\
                   devices st' = <[d := mk_device 1 session_id]> (devices st)).
  { unfold usbi_alloc_device in Halloc.
    destruct (malloc st) as [d'|] eqn:Hm; [|discriminate].
    destruct (negb (pthread_mutex_init st =? 0)); [discriminate|].
    injection Halloc as <- <-. split; [by apply malloc_fresh | reflexivity]. }
  destruct Hfresh as [Hfresh Hheap].
  assert (Hnotin : ~ In d (usb_devs st)).
  { intros Hin. destruct Hok as [_ Hall].
    destruct (Hall d Hin) as (x & Hx & _). congruence. }
  assert (Hsame : forall e, In e (usb_devs st) ->
                    get_device st' e = get_device st e).
  { intros e He. unfold get_device. rewrite Hheap.
    rewrite lookup_insert_ne; [reflexivity|]. congruence. }
  assert (Hget : get_device st' d = mk_device 1 session_id)
    by (unfold get_device; by rewrite Hd).
  split.
  { unfold usbi_get_device_by_session_id. rewrite Hdevs. simpl.
    rewrite Hget. simpl. by rewrite Z.eqb_refl. }
  split.
  { intros id Hid. unfold usbi_get_device_by_session_id. rewrite Hdevs. simpl.
    rewrite Hget. simpl.
    destruct (Z.eqb_spec session_id id); [congruence|].
    by apply find_session_ext. }
  split; [intros id e; apply lookup_sound|].
  split; [intros id; apply lookup_none|].
  rewrite (unref_last d (mk_device 1 session_id) st' Hd eq_refl).
  assert (Hdel : list_del d (usb_devs st') = usb_devs st).
  { rewrite Hdevs. simpl. by rewrite decide_True. }
  assert (Hheap' : delete d (devices st') = devices st).
  { rewrite Hheap, delete_insert_eq. by apply delete_id. }
  simpl. split; [exact Hheap'|]. split; [exact Hdel|].
  intros id. unfold usbi_get_device_by_session_id. simpl. rewrite Hdel.
  apply find_session_ext. intros e He. unfold get_device. simpl.
  by rewrite Hheap'.
Qed.

(** A third device, with the session of the second, joins the example. *)
Lemma session_lookup_lifecycle_witness :
  usbi_get_device_by_session_id 101
    (snd (usbi_alloc_device (cenv := accepting_core_env) 101 core_example))
  = Some (fresh_address core_example).
Proof.
  apply (session_lookup_lifecycle (cenv := accepting_core_env) 101
           (fresh_address core_example) core_example); [|reflexivity].
  split; [simpl; solve_NoDup|].
  intros e [<-|[<-|[]]]; eexists; (split; [reflexivity | simpl; lia]).
Defined.

(** ** The collection of discovered devices *)

Section Collection.
Context {hdr : libusb_headers}.

Lemma to_size_t_id z : 0 <= z < 2 ^ size_t_bits -> to_size_t z = z.
Proof. intros Hz. unfold to_size_t, CInt.to_unsigned. by apply Z.mod_small. Qed.

Lemma size_t_half : 2 * 2 ^ (size_t_bits - 1) = 2 ^ size_t_bits.
Proof.
  pose proof size_t_bits_range.
  rewrite <- Z.pow_succ_r by lia. f_equal. lia.
Qed.

Lemma to_ssize_t_id z :
  - 2 ^ (size_t_bits - 1) <= z < 2 ^ (size_t_bits - 1) -> to_ssize_t z = z.
Proof.
  intros Hz. unfold to_ssize_t. pose proof size_t_half.
  rewrite Z.mod_small by lia. lia.
Qed.

Lemma holds_snoc discdevs l dev cap :
  holds discdevs l ->
  holds (mk_discovered_devs (dd_len discdevs + 1) cap
           (<[dd_len discdevs := dev]> (dd_devices discdevs)))
    (l ++ [dev]).
Proof.
  intros [Hlen Hslots]. split; simpl.
  - rewrite length_app. simpl. lia.
  - intros i e Hi. destruct (decide (i < length l)%nat) as [Hlt|Hge].
    + rewrite lookup_app_l in Hi by assumption.
      rewrite lookup_insert_ne by lia. by apply Hslots.
    + apply lookup_lt_Some in Hi as Hb. rewrite length_app in Hb.
      simpl in Hb. assert (i = length l) as -> by lia.
      rewrite list_lookup_middle in Hi by reflexivity.
      injection Hi as <-. rewrite Hlen. by rewrite lookup_insert_eq.
Qed.

Lemma tight_bounds discdevs :
  0 <= dd_len discdevs -> tight discdevs ->
  dd_len discdevs <= dd_capacity discdevs /\
  DISCOVERED_DEVICES_SIZE_STEP <= dd_capacity discdevs.
Proof.
  unfold tight, DISCOVERED_DEVICES_SIZE_STEP. intros Hlen Ht.
  rewrite Ht. clear Ht. split; [|lia].
  pose proof (Z.div_mod (dd_len discdevs + 8 - 1) 8 ltac:(lia)).
  pose proof (Z.mod_pos_bound (dd_len discdevs + 8 - 1) 8 ltac:(lia)).
  lia.
Qed.

Lemma tight_keep len cap slots slots' :
  0 <= len < cap ->
  tight (mk_discovered_devs len cap slots) ->
  tight (mk_discovered_devs (len + 1) cap slots').
Proof.
  unfold tight, DISCOVERED_DEVICES_SIZE_STEP. simpl. intros Hlen Ht.
  pose proof (Z.div_mod (len + 8 - 1) 8 ltac:(lia)).
  pose proof (Z.mod_pos_bound (len + 8 - 1) 8 ltac:(lia)).
  pose proof (Z.div_mod (len + 1 + 8 - 1) 8 ltac:(lia)).
  pose proof (Z.mod_pos_bound (len + 1 + 8 - 1) 8 ltac:(lia)).
  lia.
Qed.

Lemma tight_grow len cap slots slots' :
  0 <= len -> cap <= len ->
  tight (mk_discovered_devs len cap slots) ->
  tight (mk_discovered_devs (len + 1) (cap + 8) slots').
Proof.
  unfold tight, DISCOVERED_DEVICES_SIZE_STEP. simpl. intros Hlen Hcap Ht.
  pose proof (Z.div_mod (len + 8 - 1) 8 ltac:(lia)).
  pose proof (Z.mod_pos_bound (len + 8 - 1) 8 ltac:(lia)).
  pose proof (Z.div_mod (len + 1 + 8 - 1) 8 ltac:(lia)).
  pose proof (Z.mod_pos_bound (len + 1 + 8 - 1) 8 ltac:(lia)).
  lia.
Qed.

End Collection.

(** X16. Appending to the collection of discovered devices. On a
    collection that holds the devices [l] in its first [len] slots and whose
    capacity is the least multiple of 8 with room for them (at least 8),
    [discovered_devs_append] stores within the block it owns. When it
    returns a collection, that collection holds [l] followed by the new
    device, its capacity is again the least multiple of 8 with room, having
    grown by 8 exactly when the old one was full, and the device has got
    one more reference and nothing else has changed. It returns NULL only
    when the collection was full and could not grow, and then the state is
    untouched: no reference is taken. *)
Theorem discovered_devs_append_grows
    {hdr : libusb_headers} {denv : discovery_environment}
    (discdevs : discovered_devs) (l : list nat) (dev : nat) (st : core_state) :
  holds discdevs l ->
  tight discdevs ->
  dd_capacity discdevs + DISCOVERED_DEVICES_SIZE_STEP < 2 ^ size_t_bits ->
  exists res st',
    discovered_devs_append discdevs dev st = Some (res, st') /\
    match res with
    | Some discdevs' =>
        holds discdevs' (l ++ [dev]) /\
        tight discdevs' /\
        dd_len discdevs < dd_capacity discdevs' /\
        dd_capacity discdevs'
        = (if dd_len discdevs <? dd_capacity discdevs
           then dd_capacity discdevs
           else dd_capacity discdevs + DISCOVERED_DEVICES_SIZE_STEP) /\
        st' = libusb_ref_device dev st
    | None =>
        dd_len discdevs = dd_capacity discdevs /\
        realloc_discovered_devs st discdevs
          (dd_capacity discdevs + DISCOVERED_DEVICES_SIZE_STEP) = false /\
        st' = st
    end.
Proof.
  intros Hholds Htight Hroom.
  assert (Hlen : 0 <= dd_len discdevs) by (destruct Hholds as [-> _]; lia).
  destruct (tight_bounds discdevs Hlen Htight) as [Hle Hstep].
  unfold DISCOVERED_DEVICES_SIZE_STEP in *.
  unfold discovered_devs_append, DISCOVERED_DEVICES_SIZE_STEP.
  rewrite (to_size_t_id (dd_len discdevs + 1)) by lia.
  rewrite (to_size_t_id (dd_capacity discdevs + 8)) by lia.
  destruct discdevs as [len cap slots]. simpl in *.
  destruct (Z.ltb_spec len cap) as [Hlt|Hge].
  - eexists. eexists. split; [reflexivity|]. simpl.
    split; [by apply (holds_snoc (mk_discovered_devs len cap slots))|].
    split; [by apply (tight_keep len cap slots)|].
    split; [exact Hlt|]. split; reflexivity.
  - destruct (realloc_discovered_devs st _ (cap + 8)) eqn:Hre.
    + rewrite (proj2 (Z.ltb_lt len (cap + 8))) by lia.
      eexists. eexists. split; [reflexivity|]. simpl.
      split; [by apply (holds_snoc (mk_discovered_devs len cap slots))|].
      split; [by apply (tight_grow len cap slots)|].
      split; [lia|]. split; reflexivity.
    + eexists. eexists. split; [reflexivity|]. simpl.
      split; [lia|]. split; reflexivity.
Qed.

(** The first device of the example joins a fresh collection. *)
Lemma discovered_devs_append_grows_witness :
  exists discdevs',
    discovered_devs_append (hdr := lp64_headers) (denv := finding_env [])
      discovered_devs_alloc 10 core_example
    = Some (Some discdevs', libusb_ref_device 10 core_example) /\
    holds discdevs' [10%nat].
Proof.
  destruct (discovered_devs_append_grows (hdr := lp64_headers)
              (denv := finding_env []) discovered_devs_alloc [] 10%nat
              core_example) as (res & st' & Heq & Hres).
  - split; [reflexivity|]. intros i dev Hi. discriminate.
  - reflexivity.
  - reflexivity.
  - vm_compute in Heq. injection Heq as <- <-.
    eexists. split; [reflexivity|]. apply Hres.
Defined.

(** ** The device list *)

Section DeviceList.
Context {cenv : core_environment}.

Lemma for_each_slot_holds f slots l k st :
  (forall i dev, l !! i = Some dev -> slots !! (k + Z.of_nat i) = Some dev) ->
  for_each_slot f slots (seqZ k (Z.of_nat (length l))) st
  = Some (fold_left (fun st dev => f dev st) l st).
Proof.
  revert k st. induction l as [|d l IH]; intros k st H; [reflexivity|].
  change (length (d :: l)) with (S (length l)).
  rewrite Nat2Z.inj_succ, seqZ_cons, Z.pred_succ by lia. cbn [for_each_slot].
  pose proof (H 0%nat d eq_refl) as H0. rewrite Z.add_0_r in H0.
  rewrite H0.
  rewrite IH; [reflexivity|].
  intros i dev Hi. specialize (H (S i) dev Hi).
  by replace (Z.succ k + Z.of_nat i) with (k + Z.of_nat (S i)) by lia.
Qed.

Lemma read_slots_holds slots l k :
  (forall i dev, l !! i = Some dev -> slots !! (k + Z.of_nat i) = Some dev) ->
  read_slots slots (seqZ k (Z.of_nat (length l))) = Some l.
Proof.
  revert k. induction l as [|d l IH]; intros k H; [reflexivity|].
  change (length (d :: l)) with (S (length l)).
  rewrite Nat2Z.inj_succ, seqZ_cons, Z.pred_succ by lia. cbn [read_slots].
  pose proof (H 0%nat d eq_refl) as H0. rewrite Z.add_0_r in H0.
  rewrite H0.
  rewrite IH; [reflexivity|].
  intros i dev Hi. specialize (H (S i) dev Hi).
  by replace (Z.succ k + Z.of_nat i) with (k + Z.of_nat (S i)) by lia.
Qed.

(** A reference taken on one device and a reference dropped on a device
    that keeps another one can be swapped. *)
Lemma unref_ref_same d x st :
  devices st !! d = Some x -> 2 <= refcnt x < INT_MAX ->
  libusb_unref_device (Some d) (libusb_ref_device d st)
  = libusb_ref_device d (libusb_unref_device (Some d) st).
Proof.
  intros Hd Hr.
  rewrite (ref_unref d x st Hd) by lia.
  rewrite (unref_other d x st Hd) by lia.
  rewrite (ref_device_eq d (mk_device (refcnt x - 1) (session_data x)));
    simpl; [| by rewrite lookup_insert_eq | lia | unfold INT_MAX in *; lia].
  rewrite set_device_twice.
  replace (refcnt x - 1 + 1) with (refcnt x) by lia.
  symmetry. apply set_device_id. by destruct x.
Qed.

Lemma unref_ref_other d e x st :
  e <> d -> devices st !! d = Some x -> 2 <= refcnt x <= INT_MAX ->
  libusb_unref_device (Some d) (libusb_ref_device e st)
  = libusb_ref_device e (libusb_unref_device (Some d) st).
Proof.
  intros Hne Hd Hr.
  rewrite (unref_other d x (libusb_ref_device e st));
    [| simpl; by rewrite lookup_insert_ne | lia].
  rewrite (unref_other d x st Hd) by lia.
  unfold libusb_ref_device, get_device, set_device. simpl.
  rewrite lookup_insert_ne by congruence.
  by rewrite insert_insert_ne.
Qed.

Lemma ref_device_other d e st :
  e <> d -> devices (libusb_ref_device e st) !! d = devices st !! d.
Proof. intros Hne. simpl. by rewrite lookup_insert_ne. Qed.

Lemma unref_refs_swap l d x st :
  devices st !! d = Some x -> 2 <= refcnt x ->
  refcnt x + Z.of_nat (count_occ Nat.eq_dec l d) <= INT_MAX ->
  libusb_unref_device (Some d)
    (fold_left (fun st dev => libusb_ref_device dev st) l st)
  = fold_left (fun st dev => libusb_ref_device dev st) l
      (libusb_unref_device (Some d) st).
Proof.
  revert x st. induction l as [|e l IH]; intros x st Hd Hlo Hhi;
    [reflexivity|].
  cbn [fold_left]. simpl in Hhi.
  destruct (Nat.eq_dec e d) as [->|Hne].
  - rewrite (IH (mk_device (refcnt x + 1) (session_data x))).
    + by rewrite (unref_ref_same d x st Hd) by lia.
    + rewrite (ref_device_eq d x st Hd) by (unfold INT_MAX in *; lia).
      simpl. by rewrite lookup_insert_eq.
    + simpl. lia.
    + simpl. lia.
  - rewrite (IH x).
    + by rewrite (unref_ref_other d e x st Hne Hd) by lia.
    + by rewrite ref_device_other.
    + exact Hlo.
    + exact Hhi.
Qed.

Lemma referable_tail d l st :
  referable (d :: l) st -> referable l (libusb_ref_device d st).
Proof.
  intros H e He. destruct (H e (or_intror He)) as (x & Hx & Hlo & Hhi).
  simpl in Hhi. destruct (Nat.eq_dec d e) as [->|Hne].
  - exists (mk_device (refcnt x + 1) (session_data x)).
    rewrite (ref_device_eq e x st Hx) by (unfold INT_MAX in *; lia).
    simpl. rewrite lookup_insert_eq. split; [reflexivity|]. lia.
  - exists x. rewrite ref_device_other by congruence. by repeat split.
Qed.

(** Taking a reference on every device of a list and dropping them again
    changes nothing. *)
Lemma refs_unrefs l st :
  referable l st ->
  fold_left (fun st dev => libusb_unref_device (Some dev) st) l
    (fold_left (fun st dev => libusb_ref_device dev st) l st)
  = st.
Proof.
  revert st. induction l as [|d l IH]; intros st H; [reflexivity|].
  cbn [fold_left].
  destruct (H d (or_introl eq_refl)) as (x & Hx & Hlo & Hhi).
  simpl in Hhi. destruct (Nat.eq_dec d d) as [_|]; [|congruence].
  assert (Hd' : devices (libusb_ref_device d st) !! d
                = Some (mk_device (refcnt x + 1) (session_data x))).
  { rewrite (ref_device_eq d x st Hx) by (unfold INT_MAX in *; lia).
    simpl. by rewrite lookup_insert_eq. }
  rewrite (unref_refs_swap l d _ _ Hd') by (simpl; lia).
  rewrite (ref_unref d x st Hx) by lia.
  apply IH. intros e He.
  destruct (H e (or_intror He)) as (y & Hy & Hylo & Hyhi).
  exists y. split; [exact Hy|]. split; [exact Hylo|].
  simpl in Hyhi. destruct (Nat.eq_dec d e); lia.
Qed.

End DeviceList.

(** X17. What [libusb_get_device_list] does with the references. Let the
    backend leave a collection holding the devices [l], fewer than the
    largest [ssize_t]. If the collection itself cannot be allocated the
    function returns LIBUSB_ERROR_NO_MEM without asking the backend. If the
    backend fails, or the array for the caller cannot be allocated, it
    returns the backend's code, respectively LIBUSB_ERROR_NO_MEM, stores no
    list, and drops the references the collection held: the state is the
    one [libusb_free_device_list] with unreferencing leaves on [l]. On
    success it returns the number of devices and stores exactly [l], in the
    order of discovery; each device has then as many references as the
    backend left it with, the references of the collection having passed to
    the list. *)
Theorem get_device_list_references
    {hdr : libusb_headers} {mhdr : more_headers}
    {cenv : core_environment} {denv : discovery_environment}
    (st st1 : core_state) (r : Z) (discdevs : discovered_devs) (l : list nat) :
  backend_get_device_list st discovered_devs_alloc = (r, discdevs, st1) ->
  holds discdevs l ->
  Z.of_nat (length l) < 2 ^ (size_t_bits - 1) ->
  (malloc_discovered_devs st = false ->
   libusb_get_device_list st = Some (LIBUSB_ERROR_NO_MEM, None, st)) /\
  (malloc_discovered_devs st = true -> r < 0 ->
   libusb_get_device_list st
   = Some (r, None, libusb_free_device_list (Some l) 1 st1)) /\
  (malloc_discovered_devs st = true -> 0 <= r ->
   malloc_device_list st1 (Z.of_nat (length l) + 1) = false ->
   libusb_get_device_list st
   = Some (LIBUSB_ERROR_NO_MEM, None,
           libusb_free_device_list (Some l) 1 st1)) /\
  (malloc_discovered_devs st = true -> 0 <= r ->
   malloc_device_list st1 (Z.of_nat (length l) + 1) = true ->
   referable l st1 ->
   libusb_get_device_list st = Some (Z.of_nat (length l), Some l, st1)).
Proof.
  intros Hb [Hlen Hslots] Hbound.
  assert (Hslots0 : forall i dev, l !! i = Some dev ->
                      dd_devices discdevs !! (0 + Z.of_nat i) = Some dev)
    by (intros i dev Hi; by apply Hslots).
  assert (Hfree : discovered_devs_free discdevs st1
                  = Some (libusb_free_device_list (Some l) 1 st1)).
  { unfold discovered_devs_free. rewrite Hlen.
    by rewrite for_each_slot_holds. }
  pose proof size_t_half as Hhalf.
  assert (Hssize : to_ssize_t (dd_len discdevs) = Z.of_nat (length l))
    by (rewrite Hlen; apply to_ssize_t_id; lia).
  unfold libusb_get_device_list.
  split; [by intros ->|].
  split; [|split].
  - intros -> Hr. simpl. rewrite Hb.
    rewrite (proj2 (Z.ltb_lt r 0)) by assumption. by rewrite Hfree.
  - intros -> Hr Hm. simpl. rewrite Hb.
    rewrite (proj2 (Z.ltb_ge r 0)) by assumption.
    rewrite Hssize, Hm. simpl. by rewrite Hfree.
  - intros -> Hr Hm Href. simpl. rewrite Hb.
    rewrite (proj2 (Z.ltb_ge r 0)) by assumption.
    rewrite Hssize, Hm. simpl.
    rewrite to_size_t_id by lia.
    rewrite read_slots_holds, for_each_slot_holds by assumption.
    unfold discovered_devs_free. rewrite Hlen.
    rewrite for_each_slot_holds by assumption.
    by rewrite refs_unrefs.
Qed.

(** The backend finds the two devices of the example, the first of them
    twice. *)
Lemma get_device_list_references_witness :
  libusb_get_device_list (hdr := lp64_headers) (mhdr := linux_more_headers)
    (cenv := accepting_core_env) (denv := finding_env [10; 11; 10]%nat)
    core_example
  = Some (3, Some [10; 11; 10]%nat, core_example).
Proof.
  refine (proj2 (proj2 (proj2
    (get_device_list_references (hdr := lp64_headers)
       (mhdr := linux_more_headers) (cenv := accepting_core_env)
       (denv := finding_env [10; 11; 10]%nat)
       core_example core_example 0 (discover [10; 11; 10]%nat)
       [10; 11; 10]%nat eq_refl _ _))) eq_refl _ eq_refl _).
  - split; [reflexivity|].
    intros [|[|[|i]]] dev Hi; try discriminate; injection Hi as <-; reflexivity.
  - vm_compute. reflexivity.
  - lia.
  - intros d [<-|[<-|[<-|[]]]]; eexists;
      (split; [reflexivity|]); vm_compute; split; discriminate.
Defined.

(** ** Handles *)

Section HandleLifecycle.
Context {cenv : core_environment} {henv : handle_environment}.

(** Dropping a reference neither reads nor writes the handles. *)
Lemma unref_handles d c hs :
  libusb_unref_device d
    (mk_core (devices c) (usb_devs c) hs (core_trace c))
  = mk_core (devices (libusb_unref_device d c))
      (usb_devs (libusb_unref_device d c)) hs
      (core_trace (libusb_unref_device d c)) /\
  handles (libusb_unref_device d c) = handles c.
Proof.
  destruct d as [d|]; [|by destruct c].
  unfold libusb_unref_device, get_device. simpl.
  destruct (_ =? 0); [|by split].
  destruct backend_has_destroy_device; by split.
Qed.

Lemma unref_set_handle d h x c :
  libusb_unref_device d (set_handle h x c)
  = set_handle h x (libusb_unref_device d c).
Proof.
  unfold set_handle.
  destruct (unref_handles d c (<[h := x]> (handles c))) as [-> _].
  destruct (unref_handles d c (handles c)) as [_ ->]. reflexivity.
Qed.

Lemma device_side_unref d c1 c2 :
  device_side c1 = device_side c2 ->
  device_side (libusb_unref_device d c1)
  = device_side (libusb_unref_device d c2).
Proof.
  unfold device_side. intros [= Hd Hu Ht].
  destruct (unref_handles d c2 (handles c1)) as [H _].
  rewrite <- Hd, <- Hu, <- Ht in H.
  replace (mk_core (devices c1) (usb_devs c1) (handles c1) (core_trace c1))
    with c1 in H by (by destruct c1).
  by rewrite H.
Qed.

Lemma core_eta c :
  mk_core (devices c) (usb_devs c) (handles c) (core_trace c) = c.
Proof. by destruct c. Qed.

(** One turn of the loop of [libusb_exit]. *)
Lemma exit_one_spec h st :
  usbi_open_devs (exit_one h st) = list_del h (usbi_open_devs st) /\
  handle_trace (exit_one h st)
  = handle_trace st ++ [EvClose h; EvFreeHandle h] /\
  handles (core (exit_one h st)) = delete h (handles (core st)) /\
  device_side (core (exit_one h st))
  = device_side
      (libusb_unref_device (Some (dev (get_handle (core st) h))) (core st)).
Proof.
  unfold exit_one, do_close, free_handle, handle_emit, with_core,
    set_open_devs, device_side.
  cbn [core usbi_open_devs handle_trace devices usb_devs handles core_trace].
  split; [reflexivity|]. split; [by rewrite <- app_assoc|].
  destruct (unref_handles (Some (dev (get_handle (core st) h))) (core st)
              (handles (core st))) as [_ ->].
  by split.
Qed.

Lemma exit_loop rd l st :
  usbi_open_devs st = l -> NoDup l ->
  (forall h, In h l -> dev (get_handle (core st) h) = rd h) ->
  let st' := fold_left (fun st devh => exit_one devh st) l st in
  usbi_open_devs st' = [] /\
  handle_trace st'
  = handle_trace st ++ flat_map (fun h => [EvClose h; EvFreeHandle h]) l /\
  (forall h, handles (core st') !! h
             = if decide (h ∈ l) then None else handles (core st) !! h) /\
  device_side (core st')
  = device_side
      (fold_left (fun c h => libusb_unref_device (Some (rd h)) c) l
         (core st)).
Proof.
  revert st. induction l as [|h l IH]; intros st Hl Hnd Hrd.
  - cbn zeta. cbn [fold_left flat_map].
    split; [exact Hl|]. split; [by rewrite app_nil_r|].
    split; [|reflexivity]. intros h.
    by rewrite decide_False by apply not_elem_of_nil.
  - apply NoDup_cons in Hnd as [Hh Hnd]. rewrite list_elem_of_In in Hh.
    destruct (exit_one_spec h st) as (Hopen & Htr & Hhs & Hdev).
    cbn [fold_left]. cbn zeta.
    destruct (IH (exit_one h st)) as (H1 & H2 & H3 & H4).
    + rewrite Hopen, Hl. simpl. by rewrite decide_True.
    + exact Hnd.
    + intros h' Hh'. rewrite <- (Hrd h') by (by right).
      unfold get_handle. rewrite Hhs.
      rewrite lookup_delete_ne; [reflexivity|]. congruence.
    + split; [exact H1|].
      split; [rewrite H2, Htr; simpl; by rewrite <- app_assoc|].
      split.
      * intros h'. rewrite H3, Hhs.
        destruct (decide (h' = h)) as [->|Hne].
        -- rewrite decide_False by (by rewrite list_elem_of_In).
           rewrite decide_True by apply list_elem_of_here.
           apply lookup_delete_eq.
        -- rewrite lookup_delete_ne by congruence.
           destruct (decide (h' ∈ l)) as [Hin|Hin].
           ++ by rewrite decide_True by (by apply list_elem_of_further).
           ++ rewrite decide_False; [reflexivity|].
              intros E. apply elem_of_cons in E as [E|E];
                [congruence | contradiction].
      * rewrite H4. rewrite (Hrd h) in Hdev by (by left).
        cbn [fold_left].
        assert (Hfold : forall l' c1 c2,
                  device_side c1 = device_side c2 ->
                  device_side
                    (fold_left
                       (fun c h => libusb_unref_device (Some (rd h)) c) l' c1)
                  = device_side
                      (fold_left
                         (fun c h => libusb_unref_device (Some (rd h)) c)
                         l' c2)).
        { clear. induction l' as [|h' l' IH']; intros c1 c2 Hc; [exact Hc|].
          cbn [fold_left]. apply IH'. by apply device_side_unref. }
        by apply Hfold.
Qed.

End HandleLifecycle.

(** X18. A handle owns one reference of its device from [libusb_open] to
    [libusb_close]. For an allocated, referenced device whose count has
    room, while the open handles are distinct and allocated: when
    [libusb_open] returns a handle it is a new one, on no interface claimed,
    [libusb_get_device] of it is the device, the device has one reference
    more, and the handle heads the list of open devices; closing it gives
    back the state before the open, the backend having been asked once to
    open and once to close, before the handle was freed. When [libusb_open]
    returns NULL the devices, the registry and the list of open devices are
    as before, and so is every handle there was. Closing NULL does
    nothing. *)
Theorem open_close_round_trip
    {cenv : core_environment} {henv : handle_environment}
    (d : nat) (x : libusb_device) (st st1 : lib_state) (res : option nat) :
  devices (core st) !! d = Some x ->
  1 <= refcnt x < INT_MAX ->
  open_ok st ->
  libusb_open d st = (res, st1) ->
  match res with
  | Some h =>
      handles (core st) !! h = None /\
      get_handle (core st1) h = mk_handle 0 d /\
      libusb_get_device h st1 = d /\
      devices (core st1)
      = <[d := mk_device (refcnt x + 1) (session_data x)]>
          (devices (core st)) /\
      usbi_open_devs st1 = h :: usbi_open_devs st /\
      open_ok st1 /\
      libusb_close (Some h) st1
      = mk_lib (core st) (usbi_open_devs st)
          (handle_trace st ++ [EvOpen h; EvClose h; EvFreeHandle h])
  | None =>
      device_side (core st1) = device_side (core st) /\
      usbi_open_devs st1 = usbi_open_devs st /\
      (forall h, is_Some (handles (core st) !! h) ->
         handles (core st1) !! h = handles (core st) !! h)
  end /\
  libusb_close None st = st.
Proof.
  intros Hd Hr [Hnd Hall] Hopen. split; [|reflexivity].
  unfold libusb_open in Hopen.
  destruct (malloc_handle st) as [h|] eqn:Hm.
  2: { injection Hopen as <- <-. by repeat split. }
  pose proof (malloc_handle_fresh st h Hm) as Hfresh.
  destruct (negb (handle_mutex_init st =? 0)).
  { injection Hopen as <- <-. simpl. split; [reflexivity|].
    split; [reflexivity|]. intros h' [y Hy].
    rewrite lookup_insert_ne; [reflexivity|]. congruence. }
  assert (Href : libusb_ref_device d (core st)
                 = set_device d (mk_device (refcnt x + 1) (session_data x))
                     (core st))
    by (apply ref_device_eq; unfold INT_MAX in *; [assumption | lia | lia]).
  assert (Hback : libusb_unref_device (Some d)
                    (set_handle h (mk_handle 0 d)
                       (libusb_ref_device d (core st)))
                  = set_handle h (mk_handle 0 d) (core st))
    by (rewrite unref_set_handle, (ref_unref d x (core st) Hd) by lia;
        reflexivity).
  assert (Hdel : delete h (<[h := mk_handle 0 d]> (handles (core st)))
                 = handles (core st))
    by (rewrite delete_insert_eq; by apply delete_id).
  set (unref := libusb_unref_device (Some d)) in *.
  cbn zeta in Hopen. cbn [core with_core handle_emit] in Hopen.
  destruct (backend_open _ h <? 0).
  - injection Hopen as <- <-.
    unfold free_handle. cbn [core with_core handle_emit usbi_open_devs].
    rewrite Hback. simpl.
    split; [reflexivity|]. split; [reflexivity|].
    intros h' [y Hy]. rewrite Hdel. reflexivity.
  - injection Hopen as <- <-.
    split; [exact Hfresh|].
    split; [unfold get_handle; simpl; by rewrite lookup_insert_eq|].
    split; [unfold libusb_get_device, get_handle; simpl;
            by rewrite lookup_insert_eq|].
    split; [cbn [core set_open_devs handle_emit with_core set_handle devices];
            by rewrite Href|].
    split; [reflexivity|].
    split.
    { split; simpl.
      - apply NoDup_cons. split; [|exact Hnd].
        rewrite list_elem_of_In. intros Hin.
        destruct (Hall h Hin) as [y Hy]. congruence.
      - intros h' [<-|Hh'].
        + rewrite lookup_insert_eq. by eexists.
        + destruct (Hall h' Hh') as [y Hy].
          rewrite lookup_insert_ne by congruence. by eexists. }
    unfold libusb_close, do_close, free_handle.
    cbn [core with_core handle_emit usbi_open_devs set_open_devs
         handle_trace list_del].
    rewrite decide_True by reflexivity.
    replace (dev (get_handle
                    (set_handle h (mk_handle 0 d)
                       (libusb_ref_device d (core st))) h)) with d
      by (unfold get_handle; simpl; by rewrite lookup_insert_eq).
    fold unref. rewrite Hback.
    cbn [devices usb_devs handles core_trace set_handle].
    rewrite Hdel, core_eta.
    unfold handle_emit, with_core, set_open_devs.
    cbn [core usbi_open_devs handle_trace].
    by rewrite <- !app_assoc.
Qed.

(** The first device of the example is opened a second time. *)
Lemma open_close_round_trip_witness :
  libusb_close (cenv := accepting_core_env) (Some 21%nat)
    (snd (libusb_open (cenv := accepting_core_env)
            (henv := accepting_handle_env) 10 lib_example))
  = mk_lib core_example [20%nat] [EvOpen 21; EvClose 21; EvFreeHandle 21].
Proof.
  refine (proj2 (proj2 (proj2 (proj2 (proj2 (proj2 (proj1
    (open_close_round_trip (cenv := accepting_core_env)
       (henv := accepting_handle_env) 10 (mk_device 3 100) lib_example
       (snd (libusb_open (cenv := accepting_core_env)
               (henv := accepting_handle_env) 10 lib_example))
       (Some 21%nat) eq_refl _ _ _)))))))).
  - vm_compute. split; [discriminate | reflexivity].
  - split; [simpl; solve_NoDup|].
    intros h [<-|[]]. by eexists.
  - vm_compute. reflexivity.
Defined.

(** X19. [libusb_exit] closes what the application left open. While the
    open handles are distinct, it empties the list of open devices, asks
    the backend to close each handle and frees it, in the order of the
    list, and then calls the backend's exit hook if there is one. Each
    closed handle gives up the reference it held: the devices and the
    registry are the ones obtained by unreferencing the device of each
    handle in turn. Afterwards none of these handles is allocated, and
    every other handle is as before. *)
Theorem exit_closes_open_handles
    {cenv : core_environment} {henv : handle_environment} (st : lib_state) :
  NoDup (usbi_open_devs st) ->
  let st' := libusb_exit st in
  usbi_open_devs st' = [] /\
  handle_trace st'
  = handle_trace st
    ++ flat_map (fun h => [EvClose h; EvFreeHandle h]) (usbi_open_devs st)
    ++ (if backend_has_exit then [EvExit] else []) /\
  (forall h, In h (usbi_open_devs st) -> handles (core st') !! h = None) /\
  (forall h, ~ In h (usbi_open_devs st) ->
     handles (core st') !! h = handles (core st) !! h) /\
  device_side (core st')
  = device_side
      (fold_left
         (fun c h => libusb_unref_device (Some (libusb_get_device h st)) c)
         (usbi_open_devs st) (core st)).
Proof.
  intros Hnd.
  destruct (exit_loop (fun h => libusb_get_device h st) (usbi_open_devs st) st
              eq_refl Hnd (fun h _ => eq_refl)) as (H1 & H2 & H3 & H4).
  cbn zeta in *.
  assert (Hloop : match usbi_open_devs st with
                  | [] => st
                  | _ => fold_left (fun st devh => exit_one devh st)
                           (usbi_open_devs st) st
                  end
                  = fold_left (fun st devh => exit_one devh st)
                      (usbi_open_devs st) st)
    by (by destruct (usbi_open_devs st)).
  unfold libusb_exit. rewrite Hloop.
  set (st2 := fold_left _ (usbi_open_devs st) st) in *.
  assert (Hrest : forall s : lib_state,
            (s = st2 \/ s = handle_emit EvExit st2) ->
            usbi_open_devs s = [] /\
            (forall h, In h (usbi_open_devs st) ->
               handles (core s) !! h = None) /\
            (forall h, ~ In h (usbi_open_devs st) ->
               handles (core s) !! h = handles (core st) !! h) /\
            device_side (core s)
            = device_side
                (fold_left
                   (fun c h =>
                      libusb_unref_device (Some (libusb_get_device h st)) c)
                   (usbi_open_devs st) (core st))).
  { intros s Hs.
    assert (Hcore : core s = core st2 /\ usbi_open_devs s = usbi_open_devs st2)
      by (destruct Hs as [->| ->]; by split).
    destruct Hcore as [-> ->].
    split; [exact H1|].
    split; [intros h Hh; rewrite H3;
            by rewrite decide_True by (by rewrite list_elem_of_In)|].
    split; [intros h Hh; rewrite H3;
            by rewrite decide_False by (by rewrite list_elem_of_In)|].
    exact H4. }
  destruct backend_has_exit.
  - destruct (Hrest (handle_emit EvExit st2) (or_intror eq_refl))
      as (Ha & Hb & Hc & Hd).
    split; [exact Ha|].
    split; [simpl; rewrite H2; by rewrite <- app_assoc|].
    by repeat split.
  - destruct (Hrest st2 (or_introl eq_refl)) as (Ha & Hb & Hc & Hd).
    split; [exact Ha|].
    split; [rewrite H2; by rewrite app_nil_r|].
    by repeat split.
Qed.

(** The application exits with the handle of the example still open. *)
Lemma exit_closes_open_handles_witness :
  usbi_open_devs
    (libusb_exit (cenv := accepting_core_env) (henv := accepting_handle_env)
       lib_example) = [] /\
  handle_trace
    (libusb_exit (cenv := accepting_core_env) (henv := accepting_handle_env)
       lib_example) = [EvClose 20; EvFreeHandle 20; EvExit].
Proof.
  destruct (exit_closes_open_handles (cenv := accepting_core_env)
              (henv := accepting_handle_env) lib_example)
    as (H1 & H2 & _).
  - simpl. solve_NoDup.
  - split; [exact H1 | exact H2].
Defined.

(** ** The packet size of an endpoint *)

Section PacketSize.
Context {A B : Type}.

Lemma find_first_app (p : B -> bool) (l1 l2 : list B) :
  List.find p (l1 ++ l2)
  = match List.find p l1 with
    | Some b => Some b
    | None => List.find p l2
    end.
Proof.
  induction l1 as [|b l1 IH]; [reflexivity|].
  simpl. by destruct (p b).
Qed.

(** A loop whose body looks for the first [b] with [p b] among [f a]
    finds the first such [b] of the whole array, as long as the count is
    the length of the array. *)
Lemma scan_flat (body : A -> option (option Z)) (f : A -> list B)
    (p : B -> bool) (g : B -> Z) (pre array : list A) :
  Forall (fun a => body a = Some (option_map g (List.find p (f a)))) array ->
  scan body (pre ++ array)
    (seqZ (Z.of_nat (length pre)) (Z.of_nat (length array)))
  = Some (option_map g (List.find p (flat_map f array))).
Proof.
  revert pre. induction array as [|a array IH]; intros pre Hall;
    [reflexivity|].
  apply Forall_cons in Hall as [Ha Hall].
  change (length (a :: array)) with (S (length array)).
  rewrite Nat2Z.inj_succ, seqZ_cons, Z.pred_succ by lia. cbn [scan].
  rewrite Nat2Z.id, list_lookup_middle by reflexivity.
  rewrite Ha. cbn [flat_map]. rewrite find_first_app.
  destruct (List.find p (f a)) as [b|]; [reflexivity|]. simpl.
  specialize (IH (pre ++ [a]) Hall).
  rewrite <- app_assoc, length_app in IH. simpl in IH.
  replace (Z.succ (Z.of_nat (length pre)))
    with (Z.of_nat (length pre + 1)) by lia.
  exact IH.
Qed.

Lemma scan_flat0 (body : A -> option (option Z)) (f : A -> list B)
    (p : B -> bool) (g : B -> Z) (array : list A) :
  Forall (fun a => body a = Some (option_map g (List.find p (f a)))) array ->
  scan body array (seqZ 0 (Z.of_nat (length array)))
  = Some (option_map g (List.find p (flat_map f array))).
Proof. exact (scan_flat body f p g [] array). Qed.

End PacketSize.

(** X20. [libusb_get_max_packet_size] finds the first endpoint with the
    address. When the active configuration cannot be fetched the result is
    LIBUSB_ERROR_OTHER and nothing is freed. Otherwise, for a configuration
    whose counts are the lengths of its arrays, no loop reads past an
    array, the configuration is freed once, after the search, and the
    result is the wMaxPacketSize of the first endpoint with that address,
    taking the interfaces in order, within an interface its alternate
    settings in order, and within a setting its endpoints in order; if no
    endpoint has the address the result is LIBUSB_ERROR_NOT_FOUND. The
    alternate setting in use plays no part. *)
Theorem max_packet_size_first_match
    {hdr : libusb_headers} {mhdr : more_headers}
    {desc : descriptor_environment}
    (d : nat) (endpoint0 : Z) (r : Z) (config : libusb_config_descriptor) :
  libusb_get_active_config_descriptor d = (r, config) ->
  (r < 0 ->
   libusb_get_max_packet_size d endpoint0
   = Some (LIBUSB_ERROR_OTHER, [EvGetActiveConfigDescriptor d])) /\
  (0 <= r -> counts_match config ->
   libusb_get_max_packet_size d endpoint0
   = Some (match List.find (fun ep => bEndpointAddress ep =? endpoint0)
                   (endpoints_of config) with
           | Some ep => wMaxPacketSize ep
           | None => LIBUSB_ERROR_NOT_FOUND
           end,
           [EvGetActiveConfigDescriptor d; EvFreeConfigDescriptor])).
Proof.
  intros Hget. unfold libusb_get_max_packet_size. rewrite Hget. split.
  - intros Hr. by rewrite (proj2 (Z.ltb_lt r 0)).
  - intros Hr [Hn Hall]. rewrite (proj2 (Z.ltb_ge r 0)) by assumption.
    set (p := fun ep => bEndpointAddress ep =? endpoint0).
    assert (Hep : forall eps : list libusb_endpoint_descriptor,
              scan (fun ep => if bEndpointAddress ep =? endpoint0
                              then Some (Some (wMaxPacketSize ep))
                              else Some None)
                eps (seqZ 0 (Z.of_nat (length eps)))
              = Some (option_map wMaxPacketSize (List.find p eps))).
    { intros eps.
      rewrite (scan_flat0 _ (fun ep => [ep]) p wMaxPacketSize).
      - f_equal. f_equal. f_equal. clear. induction eps as [|e eps IH];
          [reflexivity|]. simpl. by rewrite IH.
      - apply Forall_forall. intros ep _. simpl. unfold p.
        by destruct (bEndpointAddress ep =? endpoint0). }
    assert (Halt : forall iface,
              num_altsetting iface = Z.of_nat (length (altsetting iface)) ->
              Forall (fun alt =>
                        bNumEndpoints alt = Z.of_nat (length (endpoint alt)))
                (altsetting iface) ->
              scan (fun altsetting =>
                      scan (fun ep => if bEndpointAddress ep =? endpoint0
                                      then Some (Some (wMaxPacketSize ep))
                                      else Some None)
                        (endpoint altsetting)
                        (seqZ 0 (bNumEndpoints altsetting)))
                (altsetting iface) (seqZ 0 (num_altsetting iface))
              = Some (option_map wMaxPacketSize
                        (List.find p (flat_map endpoint (altsetting iface))))).
    { intros iface Hc Hf. rewrite Hc.
      apply (scan_flat0 _ endpoint p wMaxPacketSize).
      eapply Forall_impl; [exact Hf|]. intros alt Ha. simpl in Ha.
      rewrite Ha. apply Hep. }
    rewrite Hn.
    rewrite (scan_flat0 _ (fun iface => flat_map endpoint (altsetting iface))
               p wMaxPacketSize).
    + unfold endpoints_of. by destruct (List.find p _).
    + eapply Forall_impl; [exact Hall|]. intros iface [Hc Hf].
      by apply Halt.
Qed.

(** Endpoint 0x81 of the example: the first alternate setting wins. *)
Lemma max_packet_size_first_match_witness :
  libusb_get_max_packet_size (hdr := lp64_headers) (mhdr := linux_more_headers)
    (desc := example_descriptors) 10 129
  = Some (64, [EvGetActiveConfigDescriptor 10; EvFreeConfigDescriptor]).
Proof.
  refine (proj2 (max_packet_size_first_match (hdr := lp64_headers)
                   (mhdr := linux_more_headers) (desc := example_descriptors)
                   10%nat 129 0 config_example eq_refl) _ _).
  - lia.
  - split; [reflexivity|]. repeat constructor.
Defined.

(** ** The idle engine *)

Section Idle.
Context {hdr : libusb_headers} {env : environment}.

Lemma handle_timeouts_idle st :
  flying_transfers st = [] -> handle_timeouts st = (0, st).
Proof. intros H. unfold handle_timeouts. by rewrite H. Qed.

Lemma backend_actions_idle l st :
  flying_transfers st = [] ->
  flying_transfers (run_backend_actions l st) = [] /\
  log_grows idle_event st (run_backend_actions l st).
Proof.
  intros H. split.
  - destruct (backend_actions_flying l st) as [Hsub _].
    destruct (flying_transfers (run_backend_actions l st)) as [|q rest];
      [reflexivity|].
    specialize (Hsub q (or_introl eq_refl)). rewrite H in Hsub.
    destruct Hsub.
  - apply log_grows_backend_actions_within.
    apply Forall_forall. intros a _. by destruct a.
Qed.

Lemma poll_io_select_idle tv sel_tv st :
  flying_transfers st = [] ->
  exists rest,
    trace (snd (poll_io_select tv sel_tv st))
    = trace st
      ++ EvSelect (fst (fst (build_fdsets (pollfds st))) + 1)
           (snd (fst (build_fdsets (pollfds st))))
           (snd (build_fdsets (pollfds st))) sel_tv :: rest /\
    forallb idle_event rest = true.
Proof.
  intros H. unfold poll_io_select.
  destruct (build_fdsets (pollfds st)) as [[maxfd rd] wr]. simpl.
  destruct (select st (maxfd + 1) rd wr sel_tv)
    as [[r errno] [[rd' wr'] remaining]].
  set (st1 := emit (EvSelect (maxfd + 1) rd wr sel_tv) st).
  assert (H1 : flying_transfers st1 = []) by exact H.
  destruct (r =? 0).
  { rewrite (handle_timeouts_idle st1 H1). exists []. simpl.
    by split. }
  destruct ((r =? -1) && (errno =? EINTR)); [exists []; by split|].
  destruct (r <? 0); [exists []; by split|].
  destruct (backend_handle_events _ _ _) as [actions r'].
  match goal with
  | |- context [run_backend_actions actions ?s] =>
      destruct (backend_actions_idle actions s H1) as [H2 (evs & Ht & Hf)];
      set (st2 := run_backend_actions actions s) in *
  end.
  assert (Hst2 : exists rest,
            trace st2
            = trace st ++ EvSelect (maxfd + 1) rd wr sel_tv :: rest /\
            forallb idle_event rest = true).
  { eexists. rewrite Ht. simpl. rewrite <- !app_assoc. simpl.
    split; [reflexivity|]. exact Hf. }
  destruct (r' <? 0); [exact Hst2|].
  rewrite (handle_timeouts_idle st2 H2). exact Hst2.
Qed.

End Idle.

(** X21. With no transfer in flight the event loop never looks at the
    clock. One round of it then calls [select] first, with the caller's
    timeout and the sets and [nfds] built from the registry, and whatever
    it logs afterwards is neither a reading of the clock nor a request to
    cancel. Right after [usbi_io_init] this is a call of [select] with
    [nfds] 1 and both sets NULL: a plain sleep on the caller's timeout. *)
Theorem idle_loop_sleeps
    {hdr : libusb_headers} {env : environment}
    (tv : timeval) (st : io_state) :
  (flying_transfers st = [] ->
   exists rest,
     new_events st (snd (poll_io tv st))
     = EvSelect (fst (fst (build_fdsets (pollfds st))) + 1)
         (snd (fst (build_fdsets (pollfds st))))
         (snd (build_fdsets (pollfds st))) tv :: rest /\
     forallb idle_event rest = true) /\
  (exists rest,
     new_events (usbi_io_init st) (snd (poll_io tv (usbi_io_init st)))
     = EvSelect 1 None None tv :: rest /\
     forallb idle_event rest = true).
Proof.
  assert (Hidle : forall s, flying_transfers s = [] ->
            exists rest,
              new_events s (snd (poll_io tv s))
              = EvSelect (fst (fst (build_fdsets (pollfds s))) + 1)
                  (snd (fst (build_fdsets (pollfds s))))
                  (snd (build_fdsets (pollfds s))) tv :: rest /\
              forallb idle_event rest = true).
  { intros s H. unfold poll_io, libusb_get_next_timeout. rewrite H. simpl.
    destruct (poll_io_select_idle tv tv s H) as (rest & Ht & Hf).
    exists rest. split; [|exact Hf]. by apply new_events_app. }
  split; [apply Hidle|].
  apply (Hidle (usbi_io_init st)). reflexivity.
Qed.

(** The library has just been initialised. *)
Lemma idle_loop_sleeps_witness :
  exists rest,
    new_events io_empty
      (snd (poll_io (hdr := lp64_headers) (env := S3_env) (mk_timeval 2 0)
              io_empty))
    = EvSelect 1 None None (mk_timeval 2 0) :: rest /\
    forallb idle_event rest = true.
Proof.
  apply (proj1 (idle_loop_sleeps (hdr := lp64_headers) (env := S3_env)
                  (mk_timeval 2 0) io_empty)).
  reflexivity.
Defined.

(** ** The life of the TIMED_OUT latch *)

Section LatchLife.
Context {hdr : libusb_headers} {env : environment}.

Lemma calculate_timeout_keeps p st :
  flags (deref (snd (calculate_timeout p st)) p) = flags (deref st p) /\
  pub_callback (deref (snd (calculate_timeout p st)) p)
  = pub_callback (deref st p) /\
  pub_flags (deref (snd (calculate_timeout p st)) p)
  = pub_flags (deref st p) /\
  transferred (deref (snd (calculate_timeout p st)) p)
  = transferred (deref st p).
Proof.
  unfold calculate_timeout.
  destruct (pub_timeout (deref st p) =? 0); [by repeat split|].
  destruct (clock_gettime st) as [r ts].
  destruct (r <? 0); simpl; [by repeat split|].
  rewrite deref_store_same, deref_emit. by repeat split.
Qed.

Lemma submit_transfer_deref p st q :
  deref (snd (submit_transfer p st)) q = deref st q.
Proof.
  unfold submit_transfer.
  destruct (backend_submit_transfer st p <? 0); simpl; [reflexivity|].
  unfold deref. by rewrite add_to_flying_list_heap.
Qed.

(** Submission leaves the engine flags, the callback and the user's
    flags of the transfer alone, and resets the byte count. *)
Lemma libusb_submit_transfer_keeps p st :
  flags (deref (snd (libusb_submit_transfer p st)) p) = flags (deref st p) /\
  pub_callback (deref (snd (libusb_submit_transfer p st)) p)
  = pub_callback (deref st p) /\
  pub_flags (deref (snd (libusb_submit_transfer p st)) p)
  = pub_flags (deref st p) /\
  transferred (deref (snd (libusb_submit_transfer p st)) p) = 0.
Proof.
  unfold libusb_submit_transfer.
  set (st0 := store p (set_transferred 0 (deref st p)) st).
  assert (H0 : deref st0 p = set_transferred 0 (deref st p))
    by apply deref_store_same.
  destruct (calculate_timeout_keeps p st0) as (Hf & Hc & Hp & Ht).
  rewrite H0 in Hf, Hc, Hp, Ht. simpl in Hf, Hc, Hp, Ht.
  destruct (calculate_timeout p st0) as [r st1]. simpl in *.
  destruct (r <? 0); simpl; [by repeat split|].
  rewrite submit_transfer_deref. by repeat split.
Qed.

(** An accepted submission links the transfer once. *)
Lemma libusb_submit_transfer_links p st :
  fst (libusb_submit_transfer p st) = 0 ->
  exists pre post,
    flying_transfers st = pre ++ post /\
    flying_transfers (snd (libusb_submit_transfer p st)) = pre ++ p :: post.
Proof.
  unfold libusb_submit_transfer.
  set (st0 := store p (set_transferred 0 (deref st p)) st).
  pose proof (calculate_timeout_flying p st0) as Hfly1.
  destruct (calculate_timeout p st0) as [r st1]. simpl in Hfly1.
  destruct (r <? 0) eqn:Hr; [simpl; lia|].
  unfold submit_transfer.
  destruct (backend_submit_transfer st1 p <? 0) eqn:Hb; [simpl; lia|].
  intros _. cbn [snd].
  destruct (add_to_flying_list_splits p (emit (EvSubmit p) st1))
    as (pre & post & Hs & Hi).
  exists pre, post. split; [|exact Hi].
  simpl in Hs. rewrite <- Hs, Hfly1. reflexivity.
Qed.

(** The sweep never clears a latch. *)
Lemma latched_handle_timeout q p st :
  latched st p = true -> latched (handle_timeout q st) p = true.
Proof.
  intros H. unfold handle_timeout, libusb_cancel_transfer. cbn [snd].
  unfold latched. rewrite deref_emit.
  destruct (decide (p = q)) as [->|Hne].
  - rewrite deref_store_same. cbn [flags set_flags].
    apply CIntFacts.test_set_same, TIMED_OUT_nonzero.
  - rewrite deref_store_other by congruence. exact H.
Qed.

Lemma latched_handle_timeouts_loop now l p st :
  latched st p = true -> latched (handle_timeouts_loop now l st) p = true.
Proof.
  revert st. induction l as [|q rest IH]; intros st H; [exact H|].
  simpl. destruct (negb _); [exact H|].
  destruct (CInt.test _ _); [by apply IH|].
  destruct (_ || _); [exact H|].
  by apply IH, latched_handle_timeout.
Qed.

Lemma latched_handle_timeouts p st :
  latched st p = true -> latched (snd (handle_timeouts st)) p = true.
Proof.
  intros H. unfold handle_timeouts.
  destruct (flying_transfers st); [exact H|].
  destruct (clock_gettime st) as [r ts].
  destruct (r <? 0); cbn [snd].
  - unfold latched in *. by rewrite deref_emit.
  - apply latched_handle_timeouts_loop.
    unfold latched in *. by rewrite deref_emit.
Qed.

End LatchLife.

(** X23. The TIMED_OUT latch outlives the run it was set in. When a
    transfer that carries the latch, is no longer in flight and is not
    being cancelled synchronously is submitted again, submission does not
    clear the latch: once accepted the transfer is in flight with the latch
    still set; the timeout sweep never asks the backend to cancel it,
    whatever its new deadline and however late the clock; and when the user
    cancels it and the backend reports the cancellation, the completion is
    delivered with status TIMED_OUT, not CANCELLED: the log is the cancel
    request, then the callback (if any) with TIMED_OUT and a byte count of
    0, then the releases the user's flags ask for. *)
Theorem timeout_latch_outlives_resubmission
    {hdr : libusb_headers} {env : environment} (p : nat) (st : io_state) :
  ~ In p (flying_transfers st) ->
  latched st p = true ->
  CInt.test (flags (deref st p)) USBI_TRANSFER_SYNC_CANCELLED = false ->
  let st1 := snd (libusb_submit_transfer p st) in
  let st2 := snd (libusb_cancel_transfer p st1) in
  latched st1 p = true /\
  (fst (libusb_submit_transfer p st) = 0 ->
   In p (flying_transfers st1) /\
   count_occ Nat.eq_dec (flying_transfers st1) p = 1%nat) /\
  cancel_count p (new_events st1 (snd (handle_timeouts st1))) = 0%nat /\
  latched (snd (handle_timeouts st1)) p = true /\
  trace (usbi_handle_transfer_cancellation p st2)
  = trace st1
    ++ [EvCancel p]
    ++ (if pub_callback (deref st p)
        then [EvCallback p LIBUSB_TRANSFER_TIMED_OUT 0] else [])
    ++ free_events p (deref st p).
Proof.
  intros Hnotin Hlatch Hsync. cbn zeta.
  destruct (libusb_submit_transfer_keeps p st) as (Hf & Hc & Hp & Ht).
  pose proof (libusb_submit_transfer_links p st) as Hlink.
  set (st1 := snd (libusb_submit_transfer p st)) in *.
  assert (Hlatch1 : latched st1 p = true)
    by (unfold latched in *; by rewrite Hf).
  split; [exact Hlatch1|].
  split.
  { intros H0. destruct (Hlink H0) as (pre & post & Hs & Hi).
    rewrite Hi. split; [apply in_app_iff; right; by left|].
    rewrite Hs in Hnotin.
    rewrite count_occ_app. cbn [count_occ].
    destruct (Nat.eq_dec p p) as [_|Hne]; [|congruence].
    rewrite (proj1 (count_occ_not_In Nat.eq_dec pre p)),
            (proj1 (count_occ_not_In Nat.eq_dec post p)); [reflexivity| |];
      intros Hin; apply Hnotin, in_app_iff; tauto. }
  split.
  { unfold handle_timeouts.
    destruct (flying_transfers st1) as [|x l] eqn:Hfl.
    - unfold new_events. simpl. by rewrite drop_all.
    - destruct (clock_gettime st1) as [r ts].
      destruct (r <? 0); cbn [snd].
      + rewrite (new_events_app st1 _ [EvClock]) by reflexivity. reflexivity.
      + destruct (handle_timeouts_loop_cancels (TIMESPEC_TO_TIMEVAL ts)
                    (flying_transfers (emit EvClock st1)) (emit EvClock st1) p)
          as (evs & Htr & _ & Hzero & _).
        rewrite (new_events_app st1 _ (EvClock :: evs)).
        * unfold cancel_count in *. cbn [count_occ].
          destruct (event_eq_dec EvClock (EvCancel p)); [discriminate|].
          by apply Hzero.
        * rewrite Htr. cbn [trace emit]. by rewrite <- app_assoc. }
  split; [by apply latched_handle_timeouts|].
  unfold libusb_cancel_transfer. cbn [snd].
  unfold usbi_handle_transfer_cancellation.
  rewrite deref_emit, Hf, Hsync.
  unfold latched in Hlatch. rewrite Hlatch.
  rewrite completion_publishes by discriminate.
  cbn [trace emit]. rewrite deref_emit.
  unfold callback_events, free_events. rewrite Hc, Hp, Ht.
  by rewrite <- !app_assoc.
Qed.

(** A transfer that timed out and was delinked is submitted again with a
    timeout of 50 ms at 100 s; the sweep runs at 200 s and leaves it alone,
    where the same transfer without the latch is cancelled. *)
Lemma timeout_latch_outlives_resubmission_witness :
  resubmitted_then_swept (hdr := lp64_headers) 2 = ([1%nat], 0%nat) /\
  resubmitted_then_swept (hdr := lp64_headers) 0 = ([1%nat], 1%nat).
Proof.
  split; [|vm_compute; reflexivity].
  destruct (timeout_latch_outlives_resubmission (hdr := lp64_headers)
              (env := late_env) 1 (relatched_state 2))
    as (_ & _ & Hsweep & _).
  - simpl. tauto.
  - reflexivity.
  - reflexivity.
  - unfold resubmitted_then_swept. cbn zeta in *. rewrite Hsweep.
    f_equal.
Defined.

(** ** The collection from allocation to release *)

Section CollectionLife.
Context {hdr : libusb_headers} {cenv : core_environment}
        {denv : discovery_environment}.

Lemma tight_capacity discdevs :
  0 <= dd_len discdevs -> tight discdevs ->
  dd_capacity discdevs <= dd_len discdevs + DISCOVERED_DEVICES_SIZE_STEP.
Proof.
  unfold tight, DISCOVERED_DEVICES_SIZE_STEP. intros Hlen ->.
  pose proof (Z.div_mod (dd_len discdevs + 8 - 1) 8 ltac:(lia)).
  pose proof (Z.mod_pos_bound (dd_len discdevs + 8 - 1) 8 ltac:(lia)).
  lia.
Qed.

Lemma append_step discdevs l dev st :
  holds discdevs l -> tight discdevs ->
  Z.of_nat (length l) + 2 * DISCOVERED_DEVICES_SIZE_STEP < 2 ^ size_t_bits ->
  discovered_devs_append discdevs dev st = Some (None, st) \/
  exists discdevs',
    discovered_devs_append discdevs dev st
    = Some (Some discdevs', libusb_ref_device dev st) /\
    holds discdevs' (l ++ [dev]) /\ tight discdevs'.
Proof.
  intros Hholds Htight Hroom.
  assert (Hl : dd_len discdevs = Z.of_nat (length l))
    by (by destruct Hholds).
  assert (Hlen : 0 <= dd_len discdevs) by lia.
  destruct (tight_bounds discdevs Hlen Htight) as [Hle Hstep].
  pose proof (tight_capacity discdevs Hlen Htight) as Hcap.
  unfold DISCOVERED_DEVICES_SIZE_STEP in *.
  unfold discovered_devs_append, DISCOVERED_DEVICES_SIZE_STEP.
  rewrite (to_size_t_id (dd_len discdevs + 1)) by lia.
  rewrite (to_size_t_id (dd_capacity discdevs + 8)) by lia.
  destruct discdevs as [len cap slots]. simpl in *.
  destruct (Z.ltb_spec len cap) as [Hlt|Hge].
  - right. eexists. split; [reflexivity|].
    split; [by apply (holds_snoc (mk_discovered_devs len cap slots))|].
    by apply (tight_keep len cap slots).
  - destruct (realloc_discovered_devs st _ (cap + 8)); [|by left].
    rewrite (proj2 (Z.ltb_lt len (cap + 8))) by lia.
    right. eexists. split; [reflexivity|].
    split; [by apply (holds_snoc (mk_discovered_devs len cap slots))|].
    by apply (tight_grow len cap slots).
Qed.

Lemma append_each_spec l : forall discdevs l0 st,
  holds discdevs l0 -> tight discdevs ->
  Z.of_nat (length (l0 ++ l)) + 2 * DISCOVERED_DEVICES_SIZE_STEP
    < 2 ^ size_t_bits ->
  (exists k,
     (k < length l)%nat /\
     append_each l discdevs st
     = Some (None,
             fold_left (fun st dev => libusb_ref_device dev st)
               (take k l) st)) \/
  (exists discdevs',
     append_each l discdevs st
     = Some (Some discdevs',
             fold_left (fun st dev => libusb_ref_device dev st) l st) /\
     holds discdevs' (l0 ++ l) /\ tight discdevs').
Proof.
  induction l as [|dev l IH]; intros discdevs l0 st Hholds Htight Hroom.
  - right. exists discdevs. rewrite app_nil_r.
    split; [reflexivity|]. split; assumption.
  - assert (Hroom0 : Z.of_nat (length l0) + 2 * DISCOVERED_DEVICES_SIZE_STEP
                     < 2 ^ size_t_bits)
      by (rewrite length_app in Hroom; lia).
    cbn [append_each fold_left].
    destruct (append_step discdevs l0 dev st Hholds Htight Hroom0)
      as [Hfail|(discdevs' & Hok & Hholds' & Htight')].
    + rewrite Hfail. left. exists 0%nat. split; [simpl; lia | reflexivity].
    + rewrite Hok.
      destruct (IH discdevs' (l0 ++ [dev]) (libusb_ref_device dev st)
                  Hholds' Htight')
        as [(k & Hk & Hfail)|(dd2 & Hok2 & Hholds2 & Htight2)].
      * by rewrite <- app_assoc.
      * left. exists (S k). split; [simpl; lia | exact Hfail].
      * right. exists dd2. rewrite <- app_assoc in Hholds2.
        split; [exact Hok2|]. split; assumption.
Qed.

End CollectionLife.

(** X24. A collection of discovered devices gives back every reference it
    took. Starting from a fresh collection (far from the limit of [size_t]),
    appending the devices [l] one after the other either stops at a NULL,
    having referenced exactly the devices appended before it, or yields a
    collection that holds [l] in order, with the least capacity in steps of
    8, every device of [l] having one more reference per occurrence. In the
    second case, if every device of [l] was allocated and referenced with
    room in its count, [discovered_devs_free] on that collection restores
    the state before the first append: no device is destroyed and every
    count is the old one. *)
Theorem collection_returns_references
    {hdr : libusb_headers} {cenv : core_environment}
    {denv : discovery_environment} (l : list nat) (st : core_state) :
  Z.of_nat (length l) + 2 * DISCOVERED_DEVICES_SIZE_STEP < 2 ^ size_t_bits ->
  (exists k,
     (k < length l)%nat /\
     append_each l discovered_devs_alloc st
     = Some (None,
             fold_left (fun st dev => libusb_ref_device dev st) (take k l) st))
  \/
  (exists discdevs,
     append_each l discovered_devs_alloc st
     = Some (Some discdevs,
             fold_left (fun st dev => libusb_ref_device dev st) l st) /\
     holds discdevs l /\ tight discdevs /\
     (referable l st ->
      discovered_devs_free discdevs
        (fold_left (fun st dev => libusb_ref_device dev st) l st)
      = Some st)).
Proof.
  intros Hroom.
  destruct (append_each_spec l discovered_devs_alloc [] st)
    as [Hfail|(discdevs & Hok & Hholds & Htight)].
  - split; [reflexivity|]. intros i dev Hi. discriminate.
  - reflexivity.
  - exact Hroom.
  - by left.
  - right. exists discdevs. simpl in Hholds.
    split; [exact Hok|]. split; [exact Hholds|]. split; [exact Htight|].
    intros Href. destruct Hholds as [Hlen Hslots].
    unfold discovered_devs_free. rewrite Hlen.
    rewrite for_each_slot_holds by (intros i dev Hi; by apply Hslots).
    by rewrite refs_unrefs.
Qed.

(** Nine devices make the collection grow once; here the first device of
    the example, nine times. *)
Lemma collection_returns_references_witness :
  exists discdevs,
    append_each (hdr := lp64_headers) (denv := finding_env [])
      (replicate 9 10%nat) discovered_devs_alloc core_example
    = Some (Some discdevs,
            fold_left (fun st dev => libusb_ref_device dev st)
              (replicate 9 10%nat) core_example) /\
    dd_capacity discdevs = 16 /\
    discovered_devs_free (cenv := accepting_core_env) discdevs
      (fold_left (fun st dev => libusb_ref_device dev st)
         (replicate 9 10%nat) core_example)
    = Some core_example.
Proof.
  assert (Hsome : match append_each (hdr := lp64_headers)
                          (denv := finding_env []) (replicate 9 10%nat)
                          discovered_devs_alloc core_example with
                  | Some (Some _, _) => True
                  | _ => False
                  end) by (vm_compute; exact I).
  destruct (collection_returns_references (hdr := lp64_headers)
              (cenv := accepting_core_env) (denv := finding_env [])
              (replicate 9 10%nat) core_example)
    as [(k & _ & Hfail)|(discdevs & Hok & Hholds & Htight & Hfree)].
  - vm_compute. reflexivity.
  - rewrite Hfail in Hsome. destruct Hsome.
  - exists discdevs. split; [exact Hok|]. split.
    + destruct Hholds as [Hlen _]. unfold tight in Htight.
      rewrite Htight, Hlen. reflexivity.
    + apply Hfree. intros d Hd. exists (mk_device 3 100).
      assert (d = 10%nat) as ->.
      { apply list_elem_of_In, elem_of_replicate in Hd. tauto. }
      split; [reflexivity|]. split; [simpl; lia|]. vm_compute. discriminate.
Defined.
